(** * Trust-score recompute pipeline: scoring engine, row mapping, job queue

    A shallow embedding of [trust_score.py], [db_upsert.py] and
    [worker_debug.py], with the constraints [create_schema.py] puts on
    the tables they write, followed by the properties of the
    specification that concern them.

    Modelling conventions.
    - A Python object is a [pyval]; a dictionary with string keys is a
      [gmap string pyval].
    - A Python [float] is modelled by the exact rational it approximates
      ([Q]); [round(x, 2)] is rounding of that rational to hundredths,
      ties to even.  The one failure mode of float arithmetic the engine
      can reach, [OverflowError] in an int/int true division, is kept.
      Where Python would go on with [inf] or [nan] (products beyond the
      range of a double) the model goes on with the exact value; the
      clamps that follow bring both inside the same bounds.  The decay
      is given a second time for a base score that may itself be
      infinite or nan ([Floats]).
    - An aware UTC [datetime] is the number of microseconds since the
      epoch ([Z]); a [timedelta] is a number of microseconds.
    - Functions that can raise return a [result].  An exception is its
      class; where the code stores the message of one, the message is a
      parameter of the model. *)

From Stdlib Require Import ZArith QArith Qround Qminmax Lia Lqa Ascii String.
From stdpp Require Import base option list strings pretty gmap.

Local Open Scope Z_scope.

(** ** Python values and exceptions *)

Module Py.

Inductive exn :=
| ValueError | TypeError | KeyError | OverflowError | OperationalError
| RuntimeError | IntegrityError | OSError.

Inductive result (A : Type) :=
| Ok (a : A)
| Raise (e : exn).
Arguments Ok {A} a.
Arguments Raise {A} e.

#[export] Instance result_ret : MRet result := fun A a => Ok a.
#[export] Instance result_bind : MBind result := fun A B f m =>
  match m with Ok a => f a | Raise e => Raise e end.

Definition returns {A} (m : result A) : Prop := exists a, m = Ok a.

(** The JSON-like objects a user dictionary can hold.  [PNonFinite] is a
    float that is [nan] or infinite; [PColl n] is a list or dict with [n]
    entries (only its truth value and its type matter to the code). *)
Inductive pyval :=
| PNone
| PBool (b : bool)
| PInt (z : Z)
| PFloat (q : Q)
| PNonFinite
| PStr (s : string)
| PColl (n : nat).

(** [bool(v)] *)
Definition truthy (v : pyval) : bool :=
  match v with
  | PNone => false
  | PBool b => b
  | PInt z => negb (z =? 0)
  | PFloat q => negb (Qeq_bool q 0)
  | PNonFinite => true
  | PStr s => negb (String.eqb s "")
  | PColl n => negb (Nat.eqb n 0)
  end.

(** [v or d] *)
Definition py_or (v d : pyval) : pyval := if truthy v then v else d.

(** [d.get(k, dflt)] and [d.get(k)] *)
Definition dict_get (d : gmap string pyval) (k : string) (dflt : pyval) : pyval :=
  default dflt (d !! k).
Definition dict_get_none (d : gmap string pyval) (k : string) : pyval :=
  dict_get d k PNone.

(** [isinstance(v, bool)], [isinstance(v, int)] ([bool] is a subclass of [int]) *)
Definition isinstance_bool (v : pyval) : bool :=
  match v with PBool _ => true | _ => false end.
Definition isinstance_int (v : pyval) : bool :=
  match v with PBool _ | PInt _ => true | _ => false end.

(** What the engine takes from the Python library.  Each function gives
    [None] where the Python call raises. *)
Class PyLib := {
  (** [datetime.fromisoformat(s).astimezone(timezone.utc)] *)
  fromisoformat_utc : string -> option Z;
  (** [datetime.strptime(s, "%Y-%m-%d").replace(tzinfo=timezone.utc)] *)
  strptime_ymd_utc : string -> option Z;
  (** [int(s)] for a [str] *)
  int_of_str : string -> option Z
}.

(** [int(v)] *)
Definition py_int `{PyLib} (v : pyval) : result Z :=
  match v with
  | PNone => Raise TypeError
  | PBool b => Ok (if b then 1 else 0)
  | PInt z => Ok z
  | PFloat q => Ok (Z.quot (Qnum q) (Zpos (Qden q)))
  | PNonFinite => Raise ValueError
  | PStr s => match int_of_str s with Some z => Ok z | None => Raise ValueError end
  | PColl _ => Raise TypeError
  end.

(** Smallest magnitude that no longer rounds to a finite double. *)
Definition DBL_OVERFLOW : Z := 2 ^ 1024 - 2 ^ 970.

(** [a / b] for two ints, [b] a positive constant. *)
Definition int_truediv (a b : Z) : result Q :=
  if decide (DBL_OVERFLOW * b <= Z.abs a) then Raise OverflowError
  else Ok (a # Z.to_pos b)%Q.

(** [round(x, 2)]: hundredths, ties to even, as a reduced fraction. *)
Definition round_hundredths (q : Q) : Z :=
  let a := 100 * Qnum q in
  let d := Zpos (Qden q) in
  let k := a / d in
  let r := a mod d in
  if 2 * r <? d then k
  else if d <? 2 * r then k + 1
  else if Z.even k then k else k + 1.

Definition round2 (q : Q) : Q := Qred (round_hundredths q # 100).

(** [s.endswith(suf)] *)
Definition endswith (s suf : string) : bool :=
  let n := String.length s in
  let m := String.length suf in
  (m <=? n)%nat && String.eqb (String.substring (n - m)%nat m s) suf.

(** [s.replace(c, by)] for a one-character pattern. *)
Fixpoint replace_char (c : Ascii.ascii) (by_ : string) (s : string) : string :=
  match s with
  | EmptyString => EmptyString
  | String a rest =>
      if Ascii.eqb a c then by_ +:+ replace_char c by_ rest
      else String a (replace_char c by_ rest)
  end.

(** Length of one day in microseconds, and [timedelta.days]. *)
Definition DAY_US : Z := 86400000000.
Definition timedelta_days (delta : Z) : Z := delta / DAY_US.

End Py.
Export Py.

(** ** trust_score.py *)

Module TrustScore.

Definition MAX_SCORE : Z := 100.
Definition PROFILE_MAX : Z := 30.
Definition VERIFICATION_MAX : Z := 40.
Definition ACTIVITY_MAX : Z := 30.
Definition PHOTOS_MAX_POINTS : Z := 20.
Definition PHOTOS_CAP : Z := 6.
Definition BIO_POINTS : Z := 5.
Definition INTERESTS_POINTS : Z := 5.
Definition SELFIE_POINTS : Z := 20.
Definition ID_POINTS : Z := 20.
Definition ACTIVITY_LOGIN_STREAK_MAX : Z := 20.
Definition ACTIVITY_STREAK_CAP_DAYS : Z := 30.
Definition ACTIVITY_RESPONSE_MAX : Z := 10.
Definition ACTIVITY_REPORTS_PENALTY_MAX : Z := 8.
Definition ACTIVITY_REPORTS_CAP : Z := 5.
Definition DECAY_PER_WEEK : Z := 5.

(** [BADGE_THRESHOLDS] *)
Definition VERIFIED_MIN_SCORE : Z := 85.
Definition TRUSTED_MIN_SCORE : Z := 70.
Definition ACTIVE_MIN_SCORE : Z := 60.
Definition ACTIVE_RECENT_DAYS : Z := 7.

Record ActivityBreakdown := {
  streak_score : Q;
  response_score : Q;
  reports_penalty : Q
}.

Record Breakdown := {
  activity_breakdown : ActivityBreakdown;
  last_active_at : pyval
}.

Record TrustScoreResult := {
  user_id : pyval;
  profile_score : Q;
  verification_score : Q;
  activity_score : Q;
  raw_total : Q;
  decay_applied : Q;
  final_score : Q;
  badges : list string;
  breakdown : Breakdown
}.

Definition set_badges (r : TrustScoreResult) (bs : list string) : TrustScoreResult :=
  {| user_id := user_id r; profile_score := profile_score r;
     verification_score := verification_score r;
     activity_score := activity_score r; raw_total := raw_total r;
     decay_applied := decay_applied r; final_score := final_score r;
     badges := bs; breakdown := breakdown r |}.

Section Engine.
Context `{PyLib}.

(** [parse_iso_datetime].  A value that is not a [str] fails in
    [s.endswith] and again in [strptime]; both are caught and the
    function raises [ValueError]. *)
Definition parse_iso_datetime (s : pyval) : result (option Z) :=
  match s with
  | PNone => Ok None
  | PStr s =>
      let full :=
        if endswith s "Z"
        then fromisoformat_utc (replace_char "Z"%char "+00:00" s)
        else fromisoformat_utc s in
      match full with
      | Some t => Ok (Some t)
      | None =>
          match strptime_ymd_utc s with
          | Some t => Ok (Some t)
          | None => Raise ValueError
          end
      end
  | _ => Raise ValueError
  end.

(** [int(user.get(k, 0) or 0)] *)
Definition int_field (user : gmap string pyval) (k : string) : result Z :=
  py_int (py_or (dict_get user k (PInt 0)) (PInt 0)).

Definition compute_profile_score (user : gmap string pyval) : result Q :=
  photos ← int_field user "photos";
  frac ← int_truediv (Z.min photos PHOTOS_CAP) PHOTOS_CAP;
  let photos_points := (frac * inject_Z PHOTOS_MAX_POINTS)%Q in
  let bio_points := if truthy (dict_get_none user "bio") then BIO_POINTS else 0 in
  let interests_points :=
    if truthy (dict_get_none user "interests") then INTERESTS_POINTS else 0 in
  let total :=
    (photos_points + inject_Z bio_points + inject_Z interests_points)%Q in
  Ok (round2 (Qmax 0 (Qmin (inject_Z PROFILE_MAX) total))).

Definition compute_verification_score (user : gmap string pyval) : Q :=
  let selfie := truthy (dict_get_none user "selfie_verified") in
  let idv := truthy (dict_get_none user "id_verified") in
  let total := (if selfie then SELFIE_POINTS else 0) + (if idv then ID_POINTS else 0) in
  round2 (Qmax 0 (inject_Z (Z.min VERIFICATION_MAX total))).

Definition compute_activity_score (user : gmap string pyval)
  : result (Q * ActivityBreakdown) :=
  streak_days ← int_field user "login_streak_days";
  sfrac ← int_truediv (Z.min streak_days ACTIVITY_STREAK_CAP_DAYS) ACTIVITY_STREAK_CAP_DAYS;
  let streak := (sfrac * inject_Z ACTIVITY_LOGIN_STREAK_MAX)%Q in
  resp ← int_field user "response_rate_pct";
  let resp_clamped := Z.max 0 (Z.min resp 100) in
  let resp_score := (inject_Z resp_clamped / 100 * inject_Z ACTIVITY_RESPONSE_MAX)%Q in
  reports ← int_field user "reports_received";
  let reports_clamped := Z.min reports ACTIVITY_REPORTS_CAP in
  rfrac ← int_truediv reports_clamped ACTIVITY_REPORTS_CAP;
  let penalty := (- rfrac * inject_Z ACTIVITY_REPORTS_PENALTY_MAX)%Q in
  let total := (streak + resp_score + penalty)%Q in
  let total := Qmax (inject_Z (- ACTIVITY_REPORTS_PENALTY_MAX)) total in
  let total := Qmin (inject_Z ACTIVITY_MAX) total in
  Ok (round2 total,
      {| streak_score := round2 streak;
         response_score := round2 resp_score;
         reports_penalty := round2 penalty |}).

(** [apply_inactivity_decay]; [now] is the clock reading taken when no
    reference time is passed. *)
Definition apply_inactivity_decay (now : Z) (base_score : Q)
    (last_active_iso : pyval) (reference_dt : option Z) : result (Q * Q) :=
  let reference_dt := default now reference_dt in
  if negb (truthy last_active_iso) then
    Ok (round2 (Qmax 0 (Qmin (inject_Z MAX_SCORE) base_score)), 0%Q)
  else
    last_active_dt ← parse_iso_datetime last_active_iso;
    match last_active_dt with
    | None => Raise TypeError
    | Some last =>
        let days_inactive := timedelta_days (reference_dt - last) in
        let full_weeks := days_inactive / 7 in
        let decay := full_weeks * DECAY_PER_WEEK in
        let new_score := Qmax 0 (base_score - inject_Z decay)%Q in
        let new_score := Qmin (inject_Z MAX_SCORE) new_score in
        Ok (round2 new_score, inject_Z decay)
    end.

Definition assign_badges (now : Z) (result : TrustScoreResult)
    (user : gmap string pyval) (reference_dt : option Z) : Py.result (list string) :=
  let reference_dt := default now reference_dt in
  let badges := [] in
  let score := final_score result in
  let id_verified := truthy (dict_get_none user "id_verified") in
  let badges :=
    if id_verified && Qle_bool (inject_Z VERIFIED_MIN_SCORE) score
    then badges ++ ["Verified User"] else badges in
  let badges :=
    if Qle_bool (inject_Z TRUSTED_MIN_SCORE) score
    then badges ++ ["Trusted Member"] else badges in
  let last_active_iso := dict_get_none user "last_active_at" in
  recent ←
    (if truthy last_active_iso then
       last_active_dt ← parse_iso_datetime last_active_iso;
       match last_active_dt with
       | None => Raise TypeError
       | Some last =>
           let days_ago := timedelta_days (reference_dt - last) in
           Ok (days_ago <=? ACTIVE_RECENT_DAYS)
       end
     else Ok false);
  let badges :=
    if Qle_bool (inject_Z ACTIVE_MIN_SCORE) score && recent
    then badges ++ ["Active Dater"] else badges in
  Ok badges.

Definition compute_trust_score (now : Z) (user : gmap string pyval)
    (reference_dt : option Z) : result TrustScoreResult :=
  let reference_dt := default now reference_dt in
  let uid := dict_get user "user_id" (PStr "unknown") in
  profile ← compute_profile_score user;
  let verification := compute_verification_score user in
  '(activity, act_breakdown) ← compute_activity_score user;
  let raw := (profile + verification + activity)%Q in
  let raw := Qmax 0 (Qmin (inject_Z MAX_SCORE) raw) in
  let raw := round2 raw in
  '(final, decay) ←
    apply_inactivity_decay now raw (dict_get_none user "last_active_at")
      (Some reference_dt);
  let result :=
    {| user_id := uid; profile_score := profile;
       verification_score := verification; activity_score := activity;
       raw_total := raw; decay_applied := decay; final_score := final;
       badges := [];
       breakdown := {| activity_breakdown := act_breakdown;
                       last_active_at := dict_get_none user "last_active_at" |} |} in
  bs ← assign_badges now result user (Some reference_dt);
  Ok (set_badges result bs).

(** The counts whose quotient by their cap is a double: [min(n, cap) /
    cap] overflows exactly when [n <= - DBL_OVERFLOW * cap].  The response
    rate is clamped to 0..100 before it is divided and has no such bound. *)
Definition counts_in_range (photos streak_days reports : Z) : Prop :=
  - DBL_OVERFLOW * PHOTOS_CAP < photos /\
  - DBL_OVERFLOW * ACTIVITY_STREAK_CAP_DAYS < streak_days /\
  - DBL_OVERFLOW * ACTIVITY_REPORTS_CAP < reports.

(** A [last_active_at] that is absent or empty, or that parses. *)
Definition last_active_ok (user : gmap string pyval) : Prop :=
  truthy (dict_get_none user "last_active_at") = false \/
  exists t, parse_iso_datetime (dict_get_none user "last_active_at") = Ok (Some t).

End Engine.
End TrustScore.

(** ** db_upsert.py *)

Module DbUpsert.
Section Mapping.
Context `{PyLib}.

(** [str(v)]; the text of a non-string object is left to [repr_text]. *)
Variable repr_text : pyval -> string.
Definition py_str (v : pyval) : string :=
  match v with PStr s => s | _ => repr_text v end.

Definition map_input_to_row (d : gmap string pyval) : result (gmap string pyval) :=
  let interests_val := dict_get_none d "interests" in
  interests_count ←
    (if isinstance_bool interests_val then
       Ok (if truthy interests_val then 5 else 0)
     else if isinstance_int interests_val then
       n ← py_int interests_val; Ok (Z.max 0 (Z.min 5 n))
     else Ok 0);
  uid ← match d !! "user_id" with
        | Some v => Ok (py_str v)
        | None => Raise KeyError
        end;
  photos ← py_int (dict_get d "photos" (PInt 0));
  let flag (k : string) := PInt (if truthy (dict_get_none d k) then 1 else 0) in
  let either (k1 k2 : string) :=
    py_int (py_or (dict_get_none d k1) (py_or (dict_get_none d k2) (PInt 0))) in
  login_streak ← either "login_streak_days" "login_streak";
  response_rate_pct ← either "response_rate_pct" "response_rate";
  reports_count ← either "reports_received" "reports_count";
  Ok (list_to_map
        [ ("user_id", PStr uid);
          ("photos", PInt photos);
          ("bio_filled", flag "bio");
          ("interests_count", PInt interests_count);
          ("selfie_verified", flag "selfie_verified");
          ("id_verified", flag "id_verified");
          ("login_streak", PInt login_streak);
          ("response_rate_pct", PInt response_rate_pct);
          ("reports_count", PInt reports_count);
          ("last_active_at", dict_get_none d "last_active_at") ]).

End Mapping.
End DbUpsert.

(** ** worker_debug.py: storage model *)

Module Worker.

(** A row of [recompute_jobs].  The table is created outside these
    files; its columns are the ones the statements name.  [enqueued_at]
    and [processed_at] are instants. *)
Record job := {
  id : Z;
  user_id : string;
  processing : Z;
  processed : Z;
  attempts : Z;
  processor : option string;
  enqueued_at : Z;
  processed_at : option Z;
  last_error : option string
}.

Record user_row := {
  u_photos : option Z;
  u_bio_filled : option Z;
  u_interests_count : option Z;
  u_selfie_verified : option Z;
  u_id_verified : option Z;
  u_login_streak : option Z;
  u_response_rate_pct : option Z;
  u_reports_count : option Z;
  u_last_active_at : option string
}.

Record score_row := { score : Q; updated_at : Z }.

Record audit_row := {
  audit_id : Z;
  audit_user : string;
  new_score : Q;
  details : TrustScore.Breakdown;
  computed_at : Z
}.

(** The tables; [recompute_jobs] and [trust_score_audit] in storage
    order.  [audit_seq] is the entry of [sqlite_sequence] for
    [trust_score_audit], whose [id] is AUTOINCREMENT: the largest
    identifier the table has ever used (0 when there is no entry). *)
Record database := {
  users : gmap string user_row;
  recompute_jobs : list job;
  trust_scores : gmap string score_row;
  trust_score_audit : list audit_row;
  audit_seq : Z
}.

Definition with_jobs (db : database) (js : list job) : database :=
  {| users := users db; recompute_jobs := js;
     trust_scores := trust_scores db;
     trust_score_audit := trust_score_audit db;
     audit_seq := audit_seq db |}.

(** *** The SQL statements *)

Definition is_pending (j : job) : bool :=
  (processed j =? 0) && (processing j =? 0).

(** Earliest row of a list by [enqueued_at]; of several with the same
    timestamp the one met first is kept. *)
Fixpoint earliest (l : list job) : option job :=
  match l with
  | [] => None
  | j :: rest =>
      match earliest rest with
      | Some m => if enqueued_at m <? enqueued_at j then Some m else Some j
      | None => Some j
      end
  end.

(** [SELECT id, user_id FROM recompute_jobs WHERE processed = 0 AND
    processing = 0 ORDER BY enqueued_at ASC LIMIT 1].  SQL does not fix
    the order of rows with equal sort keys; here it is the storage order. *)
Definition sql_select_pending (db : database) : option (Z * string) :=
  (fun j => (id j, user_id j)) <$> earliest (filter (fun j => is_pending j = true) (recompute_jobs db)).

Definition claim_row (worker_name : string) (j : job) : job :=
  {| id := id j; user_id := user_id j; processing := 1;
     processed := processed j; attempts := attempts j + 1;
     processor := Some worker_name; enqueued_at := enqueued_at j;
     processed_at := processed_at j; last_error := last_error j |}.

Definition done_row (now : Z) (j : job) : job :=
  {| id := id j; user_id := user_id j; processing := 0;
     processed := 1; attempts := attempts j;
     processor := processor j; enqueued_at := enqueued_at j;
     processed_at := Some now; last_error := last_error j |}.

Definition failed_row (err : string) (now : Z) (j : job) : job :=
  {| id := id j; user_id := user_id j; processing := 0;
     processed := 2; attempts := attempts j;
     processor := processor j; enqueued_at := enqueued_at j;
     processed_at := Some now; last_error := Some err |}.

(** [UPDATE recompute_jobs SET ... WHERE id = ?] *)
Definition update_where_id (f : job -> job) (job_id : Z) (db : database) : database :=
  with_jobs db ((fun j => if id j =? job_id then f j else j) <$> recompute_jobs db).

Definition sql_update_claim (worker_name : string) (job_id : Z) : database -> database :=
  update_where_id (claim_row worker_name) job_id.
Definition sql_mark_done (job_id now : Z) : database -> database :=
  update_where_id (done_row now) job_id.
Definition sql_mark_failed (job_id : Z) (err : string) (now : Z) : database -> database :=
  update_where_id (failed_row err now) job_id.

(** The dictionary [claim_job] returns. *)
Record claimed := {
  c_id : Z;
  c_user_id : string;
  c_enqueued_at : Z;
  c_attempts : Z
}.

(** [SELECT id, user_id, enqueued_at, attempts FROM recompute_jobs WHERE id = ? LIMIT 1] *)
Definition sql_select_job (job_id : Z) (db : database) : option claimed :=
  (fun p => {| c_id := id p.2; c_user_id := user_id p.2;
               c_enqueued_at := enqueued_at p.2; c_attempts := attempts p.2 |})
    <$> list_find (fun j => id j = job_id) (recompute_jobs db).

(** [INSERT INTO trust_scores ... ON CONFLICT(user_id) DO UPDATE].
    [trust_scores.user_id] REFERENCES [users(user_id)] and the connection
    runs with [PRAGMA foreign_keys = ON]: a new row for a user that is not
    in [users] is refused with [IntegrityError].  When the user already
    has a score row the statement takes its DO UPDATE branch, which leaves
    the key as it is and is not checked. *)
Definition sql_upsert_score (user : string) (final_score : Q) (now : Z)
    (db : database) : result database :=
  match trust_scores db !! user, users db !! user with
  | None, None => Raise IntegrityError
  | _, _ =>
      Ok {| users := users db; recompute_jobs := recompute_jobs db;
            trust_scores :=
              <[user := {| score := final_score; updated_at := now |}]> (trust_scores db);
            trust_score_audit := trust_score_audit db;
            audit_seq := audit_seq db |}
  end.

(** Largest rowid SQLite accepts. *)
Definition MAX_ROWID : Z := 2 ^ 63 - 1.

(** Largest [id] in [trust_score_audit], if the table has a row. *)
Definition largest_audit_id (db : database) : option Z :=
  foldr (fun a acc => Some (from_option (Z.max (audit_id a)) (audit_id a) acc))
    None (trust_score_audit db).

(** The [id] an AUTOINCREMENT column gives the next row: one more than
    the largest in the table (1 for an empty table), and more than the
    recorded sequence value; none once the largest rowid has been used. *)
Definition next_audit_id (db : database) : option Z :=
  if decide (MAX_ROWID <= audit_seq db) then None
  else
    match largest_audit_id db with
    | Some l =>
        if decide (MAX_ROWID <= l) then None
        else Some (Z.max (l + 1) (audit_seq db + 1))
    | None => Some (Z.max 1 (audit_seq db + 1))
    end.

(** [INSERT INTO trust_score_audit ...].  The rowid is chosen first (the
    statement fails with "database or disk is full", an
    [OperationalError], when there is none left), then the reference to
    [users(user_id)] is checked. *)
Definition sql_insert_audit (user : string) (final_score : Q)
    (d : TrustScore.Breakdown) (now : Z) (db : database) : result database :=
  match next_audit_id db with
  | None => Raise OperationalError
  | Some new_id =>
      match users db !! user with
      | None => Raise IntegrityError
      | Some _ =>
          Ok {| users := users db; recompute_jobs := recompute_jobs db;
                trust_scores := trust_scores db;
                trust_score_audit :=
                  trust_score_audit db ++
                    [ {| audit_id := new_id; audit_user := user;
                         new_score := final_score; details := d;
                         computed_at := now |} ];
                audit_seq := new_id |}
      end
  end.

(** *** A connection opened with [isolation_level=None]

    [disk] is what is committed and visible to every connection; [tx] is
    the working copy of an open explicit transaction.  Without one, each
    statement takes effect on [disk] at once.  [faults] tells, for each
    coming call into the storage layer, whether it raises
    [OperationalError] (busy, locked, I/O). *)
Record world := {
  disk : database;
  tx : option database;
  faults : list bool
}.

Definition M (A : Type) : Type := world -> result A * world.

#[export] Instance M_ret : MRet M := fun A a w => (Ok a, w).
#[export] Instance M_bind : MBind M := fun A B f m w =>
  match m w with
  | (Ok a, w') => f a w'
  | (Raise e, w') => (Raise e, w')
  end.

Definition raise {A} (e : exn) : M A := fun w => (Raise e, w).

Definition lift {A} (r : result A) : M A := fun w => (r, w).

(** [try: m except Exception as e: h e] *)
Definition try_except {A} (m : M A) (h : exn -> M A) : M A := fun w =>
  match m w with
  | (Ok a, w') => (Ok a, w')
  | (Raise e, w') => h e w'
  end.

(** One call into the storage layer: fails if the next fault flag is set. *)
Definition storage_call {A} (k : world -> result A * world) : M A := fun w =>
  let w' := {| disk := disk w; tx := tx w; faults := tail (faults w) |} in
  match faults w with
  | true :: _ => (Raise OperationalError, w')
  | _ => k w'
  end.

Definition execute_write (stmt : database -> database) : M unit :=
  storage_call (fun w =>
    match tx w with
    | Some t => (Ok tt, {| disk := disk w; tx := Some (stmt t); faults := faults w |})
    | None => (Ok tt, {| disk := stmt (disk w); tx := None; faults := faults w |})
    end).

(** A statement that a constraint can refuse: it then raises and changes
    nothing, and an open transaction stays open. *)
Definition execute_checked (stmt : database -> result database) : M unit :=
  storage_call (fun w =>
    match stmt (default (disk w) (tx w)) with
    | Raise e => (Raise e, w)
    | Ok d =>
        match tx w with
        | Some _ => (Ok tt, {| disk := disk w; tx := Some d; faults := faults w |})
        | None => (Ok tt, {| disk := d; tx := None; faults := faults w |})
        end
    end).

Definition execute_read {A} (query : database -> A) : M A :=
  storage_call (fun w => (Ok (query (default (disk w) (tx w))), w)).

(** [conn.execute("BEGIN IMMEDIATE;")] *)
Definition begin_immediate : M unit :=
  storage_call (fun w =>
    match tx w with
    | Some _ => (Raise OperationalError, w)
    | None => (Ok tt, {| disk := disk w; tx := Some (disk w); faults := faults w |})
    end).

(** [conn.commit()]: nothing to do when no transaction is open. *)
Definition commit : M unit := fun w =>
  match tx w with
  | Some t =>
      storage_call (fun w =>
        (Ok tt, {| disk := t; tx := None; faults := faults w |})) w
  | None => (Ok tt, w)
  end.

(** [try: conn.rollback() except Exception: pass] *)
Definition rollback : M unit := fun w =>
  (Ok tt, {| disk := disk w; tx := None; faults := faults w |}).

(** *** The procedures *)

Definition claim_job (worker_name : string) : M (option claimed) :=
  try_except
    (begin_immediate;;
     row ← execute_read sql_select_pending;
     match row with
     | None => commit;; mret None
     | Some (job_id, _) =>
         execute_write (sql_update_claim worker_name job_id);;
         commit;;
         r ← execute_read (sql_select_job job_id);
         match r with
         | Some c => mret (Some c)
         | None => raise TypeError
         end
     end)
    (fun e =>
       match e with
       | OperationalError => rollback;; mret None
       | _ => rollback;; raise e
       end).

Definition opt_int (c : option Z) : pyval := PInt (default 0 c).
Definition opt_bool (c : option Z) : pyval :=
  PBool (match c with Some z => negb (z =? 0) | None => false end).

Definition fetch_user_as_dict (uid : string) : M (option (gmap string pyval)) :=
  r ← execute_read (fun db => users db !! uid);
  mret ((fun r : user_row =>
    list_to_map
      [ ("user_id", PStr uid);
        ("photos", opt_int (u_photos r));
        ("bio", opt_bool (u_bio_filled r));
        ("interests", opt_int (u_interests_count r));
        ("selfie_verified", opt_bool (u_selfie_verified r));
        ("id_verified", opt_bool (u_id_verified r));
        ("login_streak_days", opt_int (u_login_streak r));
        ("response_rate_pct", opt_int (u_response_rate_pct r));
        ("reports_received", opt_int (u_reports_count r));
        ("last_active_at", from_option PStr PNone (u_last_active_at r)) ]) <$> r).

Definition upsert_trust_score_and_audit (uid : string) (final_score : Q)
    (details_obj : TrustScore.Breakdown) (now : Z) : M unit :=
  execute_checked (sql_upsert_score uid final_score now);;
  execute_checked (sql_insert_audit uid final_score details_obj now);;
  commit.

Definition mark_job_done (job_id now : Z) : M unit :=
  execute_write (sql_mark_done job_id now);;
  commit.

Definition mark_job_failed (job_id : Z) (err : string) (now : Z) : M unit :=
  execute_write (sql_mark_failed job_id err now);;
  commit.

Inductive outcome :=
| Idle
| Finished (job_id : Z)
| Failed (job_id : Z) (e : exn).

(** One turn of the loop of [worker_loop], the sleep left out.  The
    chain [getattr(..., "final_score", None) or ...] yields [None] for a
    score of zero.  An exception of the model carries its class only, so
    the message [str(e)] that the handler records is read off [str_e],
    the text of the exception caught in this turn. *)
Definition worker_iteration `{PyLib} (worker_name : string) (now : Z)
    (str_e : exn -> string) : M outcome :=
  job ← claim_job worker_name;
  match job with
  | None => mret Idle
  | Some job =>
      let job_id := c_id job in
      let uid := c_user_id job in
      try_except
        (user ← fetch_user_as_dict uid;
         match user with
         | None => mark_job_done job_id now;; mret (Finished job_id)
         | Some user =>
             score_result ← lift (TrustScore.compute_trust_score now user None);
             let final_score := TrustScore.final_score score_result in
             if Qeq_bool final_score 0 then raise RuntimeError
             else
               upsert_trust_score_and_audit uid final_score
                 (TrustScore.breakdown score_result) now;;
               mark_job_done job_id now;;
               mret (Finished job_id)
         end)
        (fun e =>
           try_except (mark_job_failed job_id (str_e e) now) (fun _ => mret tt);;
           mret (Failed job_id e))
  end.

(** *** Several workers in [claim_job] at once

    Each claimant runs the statements of [claim_job] in order on its own
    connection; a scheduler picks who moves next.  [BEGIN IMMEDIATE]
    succeeds only while no other connection has a write transaction open;
    a claimant made to move at [AtBegin] while one is open has waited out
    its busy timeout, gets [OperationalError] and returns [None]. *)
Inductive pc :=
| AtBegin
| AtSelect
| AtUpdate (job_id : Z)
| AtCommit (job_id : Z)
| AtReselect (job_id : Z)
| Returned (r : option claimed)
| Raised (e : exn).

Record claimant := {
  worker : string;
  at_pc : pc;
  own_tx : option database
}.

Record shared := {
  sdisk : database;
  claimants : list claimant
}.

Definition holds_lock (c : claimant) : bool :=
  match own_tx c with Some _ => true | None => false end.

Definition lock_free (cs : list claimant) : bool :=
  forallb (fun c => negb (holds_lock c)) cs.

Definition goto (c : claimant) (p : pc) (t : option database) : claimant :=
  {| worker := worker c; at_pc := p; own_tx := t |}.

Definition claimant_step (free : bool) (d : database) (c : claimant)
  : database * claimant :=
  match at_pc c, own_tx c with
  | AtBegin, _ =>
      if free then (d, goto c AtSelect (Some d))
      else (d, goto c (Returned None) None)
  | AtSelect, Some t =>
      match sql_select_pending t with
      | None => (t, goto c (Returned None) None)
      | Some (job_id, _) => (d, goto c (AtUpdate job_id) (Some t))
      end
  | AtUpdate job_id, Some t =>
      (d, goto c (AtCommit job_id) (Some (sql_update_claim (worker c) job_id t)))
  | AtCommit job_id, Some t => (t, goto c (AtReselect job_id) None)
  | AtReselect job_id, _ =>
      match sql_select_job job_id d with
      | Some r => (d, goto c (Returned (Some r)) None)
      | None => (d, goto c (Raised TypeError) None)
      end
  | _, _ => (d, c)
  end.

Definition sched_step (s : shared) (i : nat) : shared :=
  match claimants s !! i with
  | None => s
  | Some c =>
      let '(d, c') := claimant_step (lock_free (claimants s)) (sdisk s) c in
      {| sdisk := d; claimants := <[i := c']> (claimants s) |}
  end.

Definition run (schedule : list nat) (s : shared) : shared :=
  foldl sched_step s schedule.

Definition start (names : list string) (db : database) : shared :=
  {| sdisk := db;
     claimants := (fun w => {| worker := w; at_pc := AtBegin; own_tx := None |}) <$> names |}.

Definition finished (c : claimant) : bool :=
  match at_pc c with Returned _ | Raised _ => true | _ => false end.

Definition all_finished (s : shared) : bool := forallb finished (claimants s).

(** What [claim_job] returns for a row. *)
Definition claimed_of (r : job) : claimed :=
  {| c_id := id r; c_user_id := user_id r;
     c_enqueued_at := enqueued_at r; c_attempts := attempts r |}.

(** The states of a race for the one pending job [j] of [db0]. *)
Definition waiting (c : claimant) : Prop :=
  own_tx c = None /\ (at_pc c = AtBegin \/ at_pc c = Returned None).

Definition holding (db0 : database) (j : job) (c : claimant) : Prop :=
  (at_pc c = AtSelect /\ own_tx c = Some db0) \/
  (at_pc c = AtUpdate (id j) /\ own_tx c = Some db0) \/
  (at_pc c = AtCommit (id j) /\
   own_tx c = Some (sql_update_claim (worker c) (id j) db0)).

Definition late (d : database) (c : claimant) : Prop :=
  waiting c \/ (at_pc c = AtSelect /\ own_tx c = Some d).

Inductive race_inv (db0 : database) (j : job) (s : shared) : Prop :=
| race_fresh :
    sdisk s = db0 ->
    (forall k c, claimants s !! k = Some c -> at_pc c = AtBegin /\ own_tx c = None) ->
    race_inv db0 j s
| race_held (h : nat) (ch : claimant) :
    sdisk s = db0 ->
    claimants s !! h = Some ch ->
    holding db0 j ch ->
    (forall k c, k <> h -> claimants s !! k = Some c -> waiting c) ->
    race_inv db0 j s
| race_won (h : nat) (ch : claimant) :
    sdisk s = sql_update_claim (worker ch) (id j) db0 ->
    claimants s !! h = Some ch ->
    own_tx ch = None ->
    (at_pc ch = AtReselect (id j) \/
     at_pc ch = Returned (Some (claimed_of (claim_row (worker ch) j)))) ->
    (forall k c, k <> h -> claimants s !! k = Some c -> late (sdisk s) c) ->
    race_inv db0 j s.

(** A claimant that is inside its transaction has a working copy. *)
Definition movable (c : claimant) : Prop :=
  match at_pc c with
  | AtSelect | AtUpdate _ | AtCommit _ => is_Some (own_tx c)
  | _ => True
  end.

(** Statements a claimant still has to run. *)
Definition remaining (c : claimant) : nat :=
  match at_pc c with
  | AtBegin => 5
  | AtSelect => 4
  | AtUpdate _ => 3
  | AtCommit _ => 2
  | AtReselect _ => 1
  | Returned _ | Raised _ => 0
  end.

Definition work (s : shared) : nat := sum_list (remaining <$> claimants s).

(** *** Sequences of queue operations on one connection *)
Inductive queue_op :=
| OpClaim (worker_name : string)
| OpDone (job_id now : Z)
| OpFailed (job_id : Z) (err : string) (now : Z).

(** The world an operation leaves behind, whether it returns or raises. *)
Definition apply_op (w : world) (op : queue_op) : world :=
  match op with
  | OpClaim worker_name => (claim_job worker_name w).2
  | OpDone job_id now => (mark_job_done job_id now w).2
  | OpFailed job_id err now => (mark_job_failed job_id err now w).2
  end.

Definition run_ops (ops : list queue_op) (w : world) : world :=
  foldl apply_op w ops.

Definition jobs_of (w : world) : list job := recompute_jobs (disk w).

Definition terminal (j : job) : Prop := processed j = 1 \/ processed j = 2.

(** How a row may differ from an earlier version of itself. *)
Definition advances (r r' : job) : Prop :=
  id r' = id r /\
  (processed r <> 0 -> processed r' <> 0) /\
  (terminal r -> terminal r') /\
  (processing r <> 0 -> processing r' = 0 -> terminal r').

(** *** Triples for connection code

    [triple P m Q E]: from a world satisfying [P], [m] either returns [a]
    in a world satisfying [Q a] or raises [e] in one satisfying [E e]. *)
Definition triple {A} (P : world -> Prop) (m : M A)
    (Q : A -> world -> Prop) (E : exn -> world -> Prop) : Prop :=
  forall w, P w ->
    match m w with
    | (Ok a, w') => Q a w'
    | (Raise e, w') => E e w'
    end.

(** Every version of the job table the connection holds, committed or
    in its open transaction, advances the table [base]. *)
Definition tracks (base : list job) (w : world) : Prop :=
  Forall2 advances base (recompute_jobs (disk w)) /\
  forall t, tx w = Some t -> Forall2 advances base (recompute_jobs t).

Definition settled (base : list job) (w : world) : Prop :=
  tracks base w /\ tx w = None.

(** Assertions that do not look at the fault oracle. *)
Definition fault_blind (P : world -> Prop) : Prop :=
  forall d t fs fs', P {| disk := d; tx := t; faults := fs |} ->
                     P {| disk := d; tx := t; faults := fs' |}.

End Worker.

(** ** A library instance for concrete runs

    Fixed-width ISO forms [YYYY-MM-DD], [YYYY-MM-DDTHH:MM:SS] and the
    latter followed by [+HH:MM] or [-HH:MM]; a time without offset is
    read as UTC.  [int] of a string accepts an optional sign and decimal
    digits. *)

Module RefLib.

Definition digit (c : Ascii.ascii) : option Z :=
  let n := Z.of_nat (nat_of_ascii c) in
  if (48 <=? n) && (n <=? 57) then Some (n - 48) else None.

Fixpoint digits_from (acc : Z) (s : string) : option Z :=
  match s with
  | EmptyString => Some acc
  | String c rest => d ← digit c; digits_from (10 * acc + d) rest
  end.

Definition number (s : string) : option Z :=
  match s with
  | EmptyString => None
  | _ => digits_from 0 s
  end.

Definition is_leap (y : Z) : bool :=
  (y mod 4 =? 0) && (negb (y mod 100 =? 0) || (y mod 400 =? 0)).

Definition days_in_month (y m : Z) : Z :=
  if m =? 2 then (if is_leap y then 29 else 28)
  else if (m =? 4) || (m =? 6) || (m =? 9) || (m =? 11) then 30
  else 31.

(** Days from 1970-01-01 to the civil date [y]-[m]-[d]. *)
Definition days_from_civil (y m d : Z) : Z :=
  let y' := if m <=? 2 then y - 1 else y in
  let era := y' / 400 in
  let yoe := y' - era * 400 in
  let mp := (m + 9) mod 12 in
  let doy := (153 * mp + 2) / 5 + d - 1 in
  let doe := yoe * 365 + yoe / 4 - yoe / 100 + doy in
  era * 146097 + doe - 719468.

Definition sub (i n : nat) (s : string) : string := String.substring i n s.

Definition parse_date (s : string) : option Z :=
  y ← number (sub 0 4 s);
  m ← number (sub 5 2 s);
  d ← number (sub 8 2 s);
  if String.eqb (sub 4 1 s) "-" && String.eqb (sub 7 1 s) "-"
     && (1 <=? y) && (1 <=? m) && (m <=? 12) && (1 <=? d) && (d <=? days_in_month y m)
  then Some (days_from_civil y m d * DAY_US)
  else None.

Definition parse_hms (s : string) : option Z :=
  h ← number (sub 0 2 s);
  m ← number (sub 3 2 s);
  sec ← number (sub 6 2 s);
  if String.eqb (sub 2 1 s) ":" && String.eqb (sub 5 1 s) ":"
     && (h <? 24) && (m <? 60) && (sec <? 60)
  then Some ((h * 3600 + m * 60 + sec) * 1000000)
  else None.

Definition parse_offset (s : string) : option Z :=
  h ← number (sub 1 2 s);
  m ← number (sub 4 2 s);
  let magnitude := (h * 3600 + m * 60) * 1000000 in
  if negb (String.eqb (sub 3 1 s) ":" && (h <? 24) && (m <? 60)) then None
  else if String.eqb (sub 0 1 s) "+" then Some magnitude
  else if String.eqb (sub 0 1 s) "-" then Some (- magnitude)
  else None.

Definition fromisoformat (s : string) : option Z :=
  let n := String.length s in
  if Nat.eqb n 10 then parse_date s
  else if Nat.eqb n 19 || Nat.eqb n 25 then
    d ← parse_date (sub 0 10 s);
    t ← parse_hms (sub 11 8 s);
    off ← (if Nat.eqb n 25 then parse_offset (sub 19 6 s) else Some 0);
    if String.eqb (sub 10 1 s) "T" then Some (d + t - off) else None
  else None.

Definition strptime_ymd (s : string) : option Z :=
  if Nat.eqb (String.length s) 10 then parse_date s else None.

Definition int_text (s : string) : option Z :=
  match s with
  | String "-" rest => Z.opp <$> number rest
  | String "+" rest => number rest
  | _ => number s
  end.

#[export] Instance lib : PyLib := {|
  fromisoformat_utc := fromisoformat;
  strptime_ymd_utc := strptime_ymd;
  int_of_str := int_text
|}.

End RefLib.

(** ** Concrete data used by the examples *)

Module Scenario.
Import TrustScore Worker.

(** Scenario A of the specification, [last_active_at] left open. *)
Definition scenario_a (last_active : string) : gmap string pyval :=
  list_to_map
    [ ("photos", PInt 6); ("bio", PBool true); ("interests", PBool true);
      ("selfie_verified", PBool true); ("id_verified", PBool true);
      ("login_streak_days", PInt 30); ("response_rate_pct", PInt 100);
      ("reports_received", PInt 0); ("last_active_at", PStr last_active) ].

(** A reference instant, 2025-12-09T14:35:00Z, and its ISO text. *)
Definition stamp_iso : string := "2025-12-09T14:35:00Z".
Definition stamp : Z := 1765290900000000.

Definition ALL_BADGES : list string :=
  ["Verified User"; "Trusted Member"; "Active Dater"].

Definition pending_job (job_id : Z) (uid : string) (enq : Z) : job :=
  {| id := job_id; user_id := uid; processing := 0; processed := 0;
     attempts := 0; processor := None; enqueued_at := enq;
     processed_at := None; last_error := None |}.

Definition queue_db (js : list job) : database :=
  {| users := ∅; recompute_jobs := js; trust_scores := ∅;
     trust_score_audit := []; audit_seq := 0 |}.

(** A result record carrying the given final score and no badges yet. *)
Definition scored (final : Q) : TrustScoreResult :=
  {| TrustScore.user_id := PStr "unknown"; profile_score := 0;
     verification_score := 0;
     activity_score := 0; raw_total := final; decay_applied := 0;
     final_score := final; badges := [];
     breakdown :=
       {| activity_breakdown :=
            {| streak_score := 0; response_score := 0; reports_penalty := 0 |};
          last_active_at := PNone |} |}.

(** An input dictionary with an interests count above the cap. *)
Definition signup : gmap string pyval :=
  list_to_map [ ("user_id", PStr "u1"); ("interests", PInt 9) ].

(** A user active nine hours after [stamp]. *)
Definition early_bird : gmap string pyval :=
  list_to_map [ ("selfie_verified", PBool true);
                ("last_active_at", PStr "2025-12-10T00:00:00Z") ].

Definition garbled : gmap string pyval :=
  list_to_map [ ("last_active_at", PStr "not-a-date") ].

(** Counts far outside their documented ranges, on both sides. *)
Definition wild_counts : gmap string pyval :=
  list_to_map
    [ ("photos", PInt (- 2 * DBL_OVERFLOW)); ("login_streak_days", PInt (10 ^ 400));
      ("response_rate_pct", PInt (- 2 ^ 2000)); ("reports_received", PInt (10 ^ 400));
      ("last_active_at", PStr "") ].

Definition idle_world (db : database) (fs : list bool) : world :=
  {| disk := db; tx := None; faults := fs |}.

Definition plain_user (last_active : string) : user_row :=
  {| u_photos := Some 6; u_bio_filled := Some 1; u_interests_count := Some 3;
     u_selfie_verified := Some 1; u_id_verified := Some 1;
     u_login_streak := Some 30; u_response_rate_pct := Some 100;
     u_reports_count := Some 0; u_last_active_at := Some last_active |}.

(** A queue holding one pending job. *)
Definition lone_queue : world :=
  idle_world (queue_db [pending_job 1 "a" 10]) [].

(** Two pending jobs enqueued at the same instant, the one with the
    larger identifier stored first. *)
Definition tied_queue : world :=
  idle_world (queue_db [pending_job 2 "b" 10; pending_job 1 "a" 10]) [].

(** Storage calls of one loop turn, the eighth of which (the INSERT into
    trust_score_audit) fails. *)
Definition audit_insert_fails : list bool :=
  [false; false; false; false; false; false; false; true].

(** Three workers and a schedule in which the first wins the race. *)
Definition three_workers : list string := ["w1"; "w2"; "w3"].
Definition first_wins : list nat := [0; 1; 0; 2; 0; 0; 0]%nat.

(** One user with one pending job. *)
Definition one_job_db : database :=
  {| users := {[ "u1" := plain_user stamp_iso ]};
     recompute_jobs := [pending_job 1 "u1" 10];
     trust_scores := ∅;
     trust_score_audit := []; audit_seq := 0 |}.

End Scenario.

(** ** trust_score.py: the batch run *)

Module Batch.
Section Batch.
Context `{PyLib}.
Import TrustScore.

(** The loop of [compute_batch_from_file] on the user list read from the
    input file. *)
Fixpoint compute_batch (now : Z) (users : list (gmap string pyval))
    (reference_dt : Z) : result (list TrustScoreResult) :=
  match users with
  | [] => Ok []
  | u :: rest =>
      res ← compute_trust_score now u (Some reference_dt);
      results ← compute_batch now rest reference_dt;
      Ok (res :: results)
  end.



End Batch.
End Batch.

(** ** trust_score.py: the decay on a base score that may be inf or nan *)

Module Floats.

(** A Python [float]: a rational, an infinity or nan. *)
Inductive pyfloat :=
| Finite (q : Q)
| PosInf
| NegInf
| NaN.

(** [a < b]; a comparison with nan is false. *)
Definition flt (a b : pyfloat) : bool :=
  match a, b with
  | NaN, _ | _, NaN => false
  | _, NegInf => false
  | NegInf, _ => true
  | PosInf, _ => false
  | Finite _, PosInf => true
  | Finite x, Finite y => match (x ?= y)%Q with Lt => true | _ => false end
  end.

(** [max(a, b)] and [min(a, b)]: the first argument, unless the second
    is larger (smaller). *)
Definition py_max (a b : pyfloat) : pyfloat := if flt a b then b else a.
Definition py_min (a b : pyfloat) : pyfloat := if flt b a then b else a.

(** [x - n] for an [int] [n], and [round(x, 2)]: an infinity or nan
    stays what it is. *)
Definition fsub (x : pyfloat) (n : Z) : pyfloat :=
  match x with Finite q => Finite (q - inject_Z n)%Q | _ => x end.
Definition fround2 (x : pyfloat) : pyfloat :=
  match x with Finite q => Finite (round2 q) | _ => x end.

Section Decay.
Context `{PyLib}.
Import TrustScore.

(** [apply_inactivity_decay], statement by statement, for any float. *)
Definition apply_inactivity_decay (now : Z) (base_score : pyfloat)
    (last_active_iso : pyval) (reference_dt : option Z) : result (pyfloat * Q) :=
  let reference_dt := default now reference_dt in
  if negb (truthy last_active_iso) then
    Ok (fround2 (py_max (Finite 0) (py_min (Finite (inject_Z MAX_SCORE)) base_score)),
        0%Q)
  else
    last_active_dt ← parse_iso_datetime last_active_iso;
    match last_active_dt with
    | None => Raise TypeError
    | Some last =>
        let days_inactive := timedelta_days (reference_dt - last) in
        let full_weeks := days_inactive / 7 in
        let decay := full_weeks * DECAY_PER_WEEK in
        let new_score := py_max (Finite 0) (fsub base_score decay) in
        let new_score := py_min (Finite (inject_Z MAX_SCORE)) new_score in
        Ok (fround2 new_score, inject_Z decay)
    end.

End Decay.
End Floats.

(** ** db_upsert.py: reading the tables *)

Module Store.
Import Worker.

(** [get_trust_score]: the row of [trust_scores] for a user, if any. *)
Definition get_trust_score (uid : string) : M (option (string * Q * Z)) :=
  execute_read (fun db =>
    (fun r => (uid, score r, updated_at r)) <$> trust_scores db !! uid).

(** [a] comes before [b] under [ORDER BY enqueued_at DESC, id DESC]. *)
Definition before (a b : job) : bool :=
  (enqueued_at b <? enqueued_at a)
  || ((enqueued_at a =? enqueued_at b) && (id b <? id a)).

(** First row under that order; rows equal in both keys keep their
    storage order. *)
Fixpoint latest (l : list job) : option job :=
  match l with
  | [] => None
  | j :: rest =>
      match latest rest with
      | Some m => if before m j then Some m else Some j
      | None => Some j
      end
  end.

(** [SELECT ... FROM recompute_jobs WHERE user_id = ? ORDER BY
    enqueued_at DESC, id DESC LIMIT 1] *)
Definition sql_find_latest_job (uid : string) (db : database) : option job :=
  latest (filter (fun j => user_id j = uid) (recompute_jobs db)).

(** The dictionary [_find_latest_job] returns. *)
Record job_view := {
  v_id : Z;
  v_user_id : string;
  v_processing : Z;
  v_processed : Z;
  v_attempts : Z;
  v_enqueued_at : Z;
  v_processed_at : option Z;
  v_last_error : option string
}.

Definition view_of (r : job) : job_view :=
  {| v_id := id r; v_user_id := user_id r; v_processing := processing r;
     v_processed := processed r; v_attempts := attempts r;
     v_enqueued_at := enqueued_at r; v_processed_at := processed_at r;
     v_last_error := last_error r |}.

Definition _find_latest_job (uid : string) : M (option job_view) :=
  execute_read (fun db => view_of <$> sql_find_latest_job uid db).

End Store.

(** ** worker_debug.py: the loop over several turns *)

Module Loop.
Import Worker.

(** The dictionary [fetch_user_as_dict] builds from a row of [users]. *)
Definition fetched_dict (uid : string) (r : user_row) : gmap string pyval :=
  list_to_map
    [ ("user_id", PStr uid);
      ("photos", opt_int (u_photos r));
      ("bio", opt_bool (u_bio_filled r));
      ("interests", opt_int (u_interests_count r));
      ("selfie_verified", opt_bool (u_selfie_verified r));
      ("id_verified", opt_bool (u_id_verified r));
      ("login_streak_days", opt_int (u_login_streak r));
      ("response_rate_pct", opt_int (u_response_rate_pct r));
      ("reports_received", opt_int (u_reports_count r));
      ("last_active_at", from_option PStr PNone (u_last_active_at r)) ].

(** A connection with no open transaction and nothing failing. *)
Definition calm (db : database) : world :=
  {| disk := db; tx := None; faults := [] |}.

(** Turns of the loop, each with the worker's name, the clock reading
    and the text of the exception it may catch. *)
Definition run_worker `{PyLib} (turns : list (string * Z * (exn -> string)))
    (w : world) : world :=
  foldl (fun w turn => (worker_iteration turn.1.1 turn.1.2 turn.2 w).2) w turns.

(** [R] holds of the committed tables and of the working copy, if any. *)
Definition on_tables (R : database -> Prop) (w : world) : Prop :=
  R (disk w) /\ forall t, tx w = Some t -> R t.

Definition at_rest (R : database -> Prop) (w : world) : Prop :=
  on_tables R w /\ tx w = None.

(** [m] keeps [P], whether it returns or raises. *)
Definition steady {A} (P : world -> Prop) (m : M A) : Prop :=
  triple P m (fun _ => P) (fun _ => P).

(** What the worker leaves of the tables [base] it started from: the
    users, every job in a later version of itself, the audit entries as a
    prefix, and a score row for every user that had one. *)
Definition keeps_history (base db : database) : Prop :=
  users db = users base /\
  Forall2 advances (recompute_jobs base) (recompute_jobs db) /\
  trust_score_audit base `prefix_of` trust_score_audit db /\
  dom (trust_scores base) ⊆ dom (trust_scores db).

(** The audit table still has identifiers to give. *)
Definition audit_room (db : database) : Prop :=
  audit_seq db < MAX_ROWID /\
  Forall (fun a => audit_id a < MAX_ROWID) (trust_score_audit db).

(** A column value SQLite can hold as INTEGER. *)
Definition int64 (c : option Z) : Prop :=
  match c with Some z => - 2 ^ 63 <= z < 2 ^ 63 | None => True end.

Definition columns_int64 (r : user_row) : Prop :=
  int64 (u_photos r) /\ int64 (u_login_streak r) /\
  int64 (u_response_rate_pct r) /\ int64 (u_reports_count r).

End Loop.

(** ** More concrete data for the examples *)

Module Sample.
Import TrustScore Worker Loop.

(** A user last active eight days before [Scenario.stamp], one last
    active four days before it. *)
Definition eight_days_ago : pyval := PStr "2025-12-01T14:35:00Z".
Definition eight_days_ago_us : Z := Scenario.stamp - 8 * DAY_US.
Definition four_days_ago : pyval := PStr "2025-12-05T14:35:00Z".
Definition four_days_ago_us : Z := Scenario.stamp - 4 * DAY_US.

Definition veteran : gmap string pyval :=
  list_to_map
    [ ("photos", PInt 6); ("bio", PBool true); ("interests", PBool true);
      ("selfie_verified", PBool true); ("id_verified", PBool true);
      ("login_streak_days", PInt 30); ("response_rate_pct", PInt 100);
      ("reports_received", PInt 0);
      ("last_active_at", PStr "2025-12-01T14:35:00Z") ].

(** Two profiles that differ in how they say the same thing. *)
Definition nine_photos : gmap string pyval :=
  list_to_map [ ("photos", PInt 9); ("bio", PStr "hello"); ("interests", PBool true) ].
Definition six_photos : gmap string pyval :=
  list_to_map [ ("photos", PInt 6); ("bio", PBool true); ("interests", PInt 1) ].

Definition two_jobs : database :=
  Scenario.queue_db [Scenario.pending_job 2 "b" 10; Scenario.pending_job 1 "a" 10].
Definition two_jobs_swapped : database :=
  Scenario.queue_db [Scenario.pending_job 1 "a" 10; Scenario.pending_job 2 "b" 10].
Definition no_jobs : database := Scenario.queue_db [].
Definition orphan_job : database :=
  Scenario.queue_db [Scenario.pending_job 1 "a" 10].

Definition blank_user : user_row :=
  {| u_photos := None; u_bio_filled := None; u_interests_count := None;
     u_selfie_verified := None; u_id_verified := None;
     u_login_streak := None; u_response_rate_pct := None;
     u_reports_count := None; u_last_active_at := None |}.

Definition with_user (r : user_row) : database :=
  {| users := {[ "u1" := r ]};
     recompute_jobs := [Scenario.pending_job 1 "u1" 10];
     trust_scores := ∅;
     trust_score_audit := []; audit_seq := 0 |}.

(** Two turns of two workers, the first of which meets a failing call. *)
Definition two_turns : list (string * Z * (exn -> string)) :=
  [("w1", Scenario.stamp, fun _ => "database is locked");
   ("w2", Scenario.stamp, fun _ => "")].
Definition shaky : world :=
  Scenario.idle_world Scenario.one_job_db
    [false; false; false; false; false; false; false; true].

(** The row that [map_input_to_row] makes of [Scenario.signup]. *)
Definition signup_row : gmap string pyval :=
  list_to_map
    [ ("user_id", PStr "u1"); ("photos", PInt 0); ("bio_filled", PInt 0);
      ("interests_count", PInt 5); ("selfie_verified", PInt 0);
      ("id_verified", PInt 0); ("login_streak", PInt 0);
      ("response_rate_pct", PInt 0); ("reports_count", PInt 0);
      ("last_active_at", PNone) ].

Definition claimed_then_done : world :=
  run_ops [OpClaim "w1"; OpDone 1 20] Scenario.lone_queue.

End Sample.

(** * Properties *)

(** ** Rounding and clamping *)

Lemma round_hundredths_between (lo hi : Z) (q : Q) :
  (inject_Z lo <= q)%Q -> (q <= inject_Z hi)%Q ->
  100 * lo <= round_hundredths q <= 100 * hi.
Proof.
  destruct q as [n d]. unfold Qle, round_hundredths. simpl.
  intros Hlo Hhi.
  assert (0 < Z.pos d) as Hd by lia.
  pose proof (Z.div_mod (100 * n) (Z.pos d) ltac:(lia)) as Hdm.
  pose proof (Z.mod_pos_bound (100 * n) (Z.pos d) Hd) as Hr.
  set (k := (100 * n) / Z.pos d) in *.
  set (r := (100 * n) mod Z.pos d) in *.
  assert (100 * lo <= k) by nia.
  assert (k <= 100 * hi) by nia.
  assert (0 < r -> k + 1 <= 100 * hi) by nia.
  destruct (Z.ltb_spec (2 * r) (Z.pos d)); [lia|].
  destruct (Z.ltb_spec (Z.pos d) (2 * r)); [lia|].
  destruct (Z.even k); lia.
Qed.

Lemma round2_between (lo hi : Z) (q : Q) :
  (inject_Z lo <= q)%Q -> (q <= inject_Z hi)%Q ->
  (inject_Z lo <= round2 q)%Q /\ (round2 q <= inject_Z hi)%Q.
Proof.
  intros Hlo Hhi.
  pose proof (round_hundredths_between lo hi q Hlo Hhi) as [Hl Hh].
  unfold round2. rewrite !Qred_correct. unfold Qle. simpl. lia.
Qed.

Lemma clamp_between (lo hi : Z) (x : Q) :
  lo <= hi ->
  (inject_Z lo <= Qmax (inject_Z lo) (Qmin (inject_Z hi) x))%Q /\
  (Qmax (inject_Z lo) (Qmin (inject_Z hi) x) <= inject_Z hi)%Q.
Proof.
  intros Hle. split.
  - apply Q.le_max_l.
  - apply Q.max_lub.
    + unfold Qle. simpl. lia.
    + apply Q.le_min_l.
Qed.

Lemma clamp_between' (lo hi : Z) (x : Q) :
  lo <= hi ->
  (inject_Z lo <= Qmin (inject_Z hi) (Qmax (inject_Z lo) x))%Q /\
  (Qmin (inject_Z hi) (Qmax (inject_Z lo) x) <= inject_Z hi)%Q.
Proof.
  intros Hle. split.
  - apply Q.min_glb.
    + unfold Qle. simpl. lia.
    + apply Q.le_max_l.
  - apply Q.le_min_l.
Qed.

(** A bind that returns has a first part that returns. *)
Lemma bind_Ok {A B} (m : result A) (f : A -> result B) (b : B) :
  m ≫= f = Ok b -> exists a, m = Ok a /\ f a = Ok b.
Proof. destruct m as [a|e]; simpl; [eauto | discriminate]. Qed.

Ltac inv_bind H :=
  let a := fresh "v" in
  let Ha := fresh "Hv" in
  apply bind_Ok in H; destruct H as (a & Ha & H).

(** ** The scoring engine *)

Section EngineProps.
Context `{PyLib}.
Import TrustScore.

Lemma compute_profile_score_bounds user p :
  compute_profile_score user = Ok p -> (0 <= p)%Q /\ (p <= 30)%Q.
Proof.
  unfold compute_profile_score. intros Hp.
  inv_bind Hp. inv_bind Hp. injection Hp as <-.
  apply (round2_between 0 30); apply (clamp_between 0 30); lia.
Qed.

Lemma compute_verification_score_bounds user :
  (0 <= compute_verification_score user)%Q /\
  (compute_verification_score user <= 40)%Q.
Proof.
  unfold compute_verification_score.
  apply (round2_between 0 40).
  - apply Q.le_max_l.
  - apply Q.max_lub; unfold Qle; simpl; unfold VERIFICATION_MAX; lia.
Qed.

Lemma compute_activity_score_bounds user a bd :
  compute_activity_score user = Ok (a, bd) -> (-8 <= a)%Q /\ (a <= 30)%Q.
Proof.
  unfold compute_activity_score. intros Ha.
  do 5 inv_bind Ha. injection Ha as <- _.
  apply (round2_between (-8) 30); apply (clamp_between' (-8) 30); lia.
Qed.

Lemma apply_inactivity_decay_bounds now base la ref final decay :
  apply_inactivity_decay now base la ref = Ok (final, decay) ->
  (0 <= final)%Q /\ (final <= 100)%Q.
Proof.
  unfold apply_inactivity_decay. intros Hd.
  destruct (negb (truthy la)).
  - injection Hd as <- _.
    apply (round2_between 0 100); apply (clamp_between 0 100); lia.
  - inv_bind Hd. destruct v as [last|]; [|discriminate].
    injection Hd as <- _.
    apply (round2_between 0 100); apply (clamp_between' 0 100); lia.
Qed.

(** What [compute_trust_score] returns, field by field. *)
Lemma compute_trust_score_Ok now user ref r :
  compute_trust_score now user ref = Ok r ->
  exists bd,
    compute_profile_score user = Ok (profile_score r) /\
    verification_score r = compute_verification_score user /\
    compute_activity_score user = Ok (activity_score r, bd) /\
    raw_total r =
      round2 (Qmax 0 (Qmin (inject_Z MAX_SCORE)
        (profile_score r + verification_score r + activity_score r)%Q)) /\
    apply_inactivity_decay now (raw_total r)
      (dict_get_none user "last_active_at") (Some (default now ref))
      = Ok (final_score r, decay_applied r) /\
    assign_badges now (set_badges r []) user (Some (default now ref))
      = Ok (badges r).
Proof.
  unfold compute_trust_score. intros Hr.
  inv_bind Hr. inv_bind Hr. destruct v0 as [a bd].
  inv_bind Hr. destruct v0 as [final decay].
  inv_bind Hr. injection Hr as <-. simpl.
  exists bd. repeat split; assumption.
Qed.

(** C4: whenever the engine returns a result, profile_score is in
    [0,30], verification_score in [0,40], activity_score in [-8,30] and
    final_score in [0,100]. *)
Theorem component_scores_within_bounds now user ref r :
  compute_trust_score now user ref = Ok r ->
  ((0 <= profile_score r)%Q /\ (profile_score r <= 30)%Q) /\
  ((0 <= verification_score r)%Q /\ (verification_score r <= 40)%Q) /\
  ((-8 <= activity_score r)%Q /\ (activity_score r <= 30)%Q) /\
  ((0 <= final_score r)%Q /\ (final_score r <= 100)%Q).
Proof.
  intros Hr.
  destruct (compute_trust_score_Ok _ _ _ _ Hr)
    as (bd & Hp & Hv & Ha & _ & Hd & _).
  split; [|split; [|split]].
  - eapply compute_profile_score_bounds; eassumption.
  - rewrite Hv. apply compute_verification_score_bounds.
  - eapply compute_activity_score_bounds; eassumption.
  - eapply apply_inactivity_decay_bounds; eassumption.
Qed.

End EngineProps.

Section ScenarioProps.
Context `{PyLib}.
Import TrustScore Scenario.

Lemma truthy_nonempty s : s <> "" -> truthy (PStr s) = true.
Proof.
  intros Hs. simpl. destruct (String.eqb_spec s ""); [contradiction | reflexivity].
Qed.

Lemma scenario_a_decay now s t :
  s <> "" -> parse_iso_datetime (PStr s) = Ok (Some t) ->
  apply_inactivity_decay now 100 (PStr s) (Some t) = Ok (100%Q, 0%Q).
Proof.
  intros Hs Hparse. unfold apply_inactivity_decay.
  rewrite (truthy_nonempty s Hs), Hparse.
  cbn [negb mbind result_bind default].
  rewrite Z.sub_diag. vm_compute. reflexivity.
Qed.

Lemma scenario_a_badges now s t r :
  s <> "" -> parse_iso_datetime (PStr s) = Ok (Some t) ->
  final_score r = 100%Q ->
  assign_badges now r (scenario_a s) (Some t) = Ok ALL_BADGES.
Proof.
  intros Hs Hparse Hr. unfold assign_badges. rewrite Hr.
  replace (dict_get_none (scenario_a s) "last_active_at") with (PStr s)
    by (vm_compute; reflexivity).
  replace (dict_get_none (scenario_a s) "id_verified") with (PBool true)
    by (vm_compute; reflexivity).
  rewrite (truthy_nonempty s Hs), Hparse.
  cbn [mbind result_bind default].
  rewrite Z.sub_diag. vm_compute. reflexivity.
Qed.

(** C8: for the user of Scenario A, whose last_active_at parses to the
    reference time, compute_trust_score returns profile 30, verification
    40, activity 30, raw total 100, decay 0, final score 100 and the
    badges Verified User, Trusted Member, Active Dater. *)
Theorem scenario_a_scores now s t :
  s <> "" -> parse_iso_datetime (PStr s) = Ok (Some t) ->
  exists r,
    compute_trust_score now (scenario_a s) (Some t) = Ok r /\
    profile_score r = 30%Q /\ verification_score r = 40%Q /\
    activity_score r = 30%Q /\ raw_total r = 100%Q /\
    decay_applied r = 0%Q /\ final_score r = 100%Q /\
    badges r = ["Verified User"; "Trusted Member"; "Active Dater"].
Proof.
  intros Hs Hparse. unfold compute_trust_score.
  replace (compute_profile_score (scenario_a s)) with (Ok 30%Q)
    by (vm_compute; reflexivity).
  replace (compute_verification_score (scenario_a s)) with 40%Q
    by (vm_compute; reflexivity).
  replace (compute_activity_score (scenario_a s))
    with (Ok (30%Q, {| streak_score := 20; response_score := 10;
                       reports_penalty := 0 |}))
    by (vm_compute; reflexivity).
  replace (dict_get_none (scenario_a s) "last_active_at") with (PStr s)
    by (vm_compute; reflexivity).
  cbn [mbind result_bind default from_option id].
  replace (round2 (Qmax 0 (Qmin (inject_Z MAX_SCORE) (30 + 40 + 30)))) with 100%Q
    by (vm_compute; reflexivity).
  rewrite (scenario_a_decay now s t Hs Hparse).
  cbn [mbind result_bind].
  erewrite scenario_a_badges by (try eassumption; reflexivity).
  cbn [mbind result_bind].
  eexists. split; [reflexivity|]. simpl. repeat split; reflexivity.
Qed.

End ScenarioProps.

Lemma scenario_a_scores_witness :
  Scenario.stamp_iso <> "" /\
  @TrustScore.parse_iso_datetime RefLib.lib (PStr Scenario.stamp_iso)
    = Ok (Some Scenario.stamp) /\
  exists r,
    @TrustScore.compute_trust_score RefLib.lib 0
      (Scenario.scenario_a Scenario.stamp_iso) (Some Scenario.stamp) = Ok r /\
    TrustScore.profile_score r = 30%Q /\ TrustScore.verification_score r = 40%Q /\
    TrustScore.activity_score r = 30%Q /\ TrustScore.raw_total r = 100%Q /\
    TrustScore.decay_applied r = 0%Q /\ TrustScore.final_score r = 100%Q /\
    TrustScore.badges r = ["Verified User"; "Trusted Member"; "Active Dater"].
Proof.
  split; [discriminate|]. split; [vm_compute; reflexivity|].
  apply (@scenario_a_scores RefLib.lib 0 Scenario.stamp_iso Scenario.stamp).
  - discriminate.
  - vm_compute. reflexivity.
Defined.

Lemma component_scores_within_bounds_witness :
  exists r,
    @TrustScore.compute_trust_score RefLib.lib 0
      (Scenario.scenario_a Scenario.stamp_iso) (Some Scenario.stamp) = Ok r /\
    ((0 <= TrustScore.profile_score r)%Q /\ (TrustScore.profile_score r <= 30)%Q) /\
    ((0 <= TrustScore.verification_score r)%Q /\ (TrustScore.verification_score r <= 40)%Q) /\
    ((-8 <= TrustScore.activity_score r)%Q /\ (TrustScore.activity_score r <= 30)%Q) /\
    ((0 <= TrustScore.final_score r)%Q /\ (TrustScore.final_score r <= 100)%Q).
Proof.
  eexists. split; [vm_compute; reflexivity|].
  apply (@component_scores_within_bounds RefLib.lib 0
           (Scenario.scenario_a Scenario.stamp_iso) (Some Scenario.stamp)).
  vm_compute. reflexivity.
Defined.

Section BadgeProps.
Context `{PyLib}.
Import TrustScore Scenario.

Lemma assign_badges_shape now r user ref bs :
  assign_badges now r user ref = Ok bs ->
  sublist bs ALL_BADGES /\ NoDup bs.
Proof.
  unfold assign_badges. intros Hb. inv_bind Hb. injection Hb as <-.
  destruct (truthy (dict_get_none user "id_verified")
            && Qle_bool (inject_Z VERIFIED_MIN_SCORE) (final_score r)),
           (Qle_bool (inject_Z TRUSTED_MIN_SCORE) (final_score r)),
           (Qle_bool (inject_Z ACTIVE_MIN_SCORE) (final_score r) && v);
    (split; unfold ALL_BADGES; simpl;
     [ repeat first [ apply sublist_nil | apply sublist_skip | apply sublist_cons ]
     | apply (bool_decide_unpack _); vm_compute; exact I ]).
Qed.

(** C10: a badge list produced by assign_badges has no duplicates and is
    a subsequence of Verified User, Trusted Member, Active Dater, in
    that order; no other name appears in it. *)
Theorem assign_badges_sublist now r user ref bs :
  assign_badges now r user ref = Ok bs ->
  sublist bs ALL_BADGES /\ NoDup bs /\ (forall b, b ∈ bs -> b ∈ ALL_BADGES).
Proof.
  intros Hb. destruct (assign_badges_shape _ _ _ _ _ Hb) as [Hsub Hnd].
  repeat split; try assumption.
  intros b Hin. eapply sublist_submseteq, elem_of_submseteq in Hsub; eauto.
Qed.

(** The same holds of the badges of every result of compute_trust_score. *)
Lemma compute_trust_score_badges now user ref r :
  compute_trust_score now user ref = Ok r ->
  sublist (badges r) ALL_BADGES /\ NoDup (badges r).
Proof.
  intros Hr.
  destruct (compute_trust_score_Ok _ _ _ _ Hr) as (bd & _ & _ & _ & _ & _ & Hb).
  exact (assign_badges_shape _ _ _ _ _ Hb).
Qed.

End BadgeProps.

Lemma assign_badges_sublist_witness :
  exists bs,
    @TrustScore.assign_badges RefLib.lib 0 (Scenario.scored 90)
      (Scenario.scenario_a Scenario.stamp_iso) (Some Scenario.stamp) = Ok bs /\
    sublist bs Scenario.ALL_BADGES /\ NoDup bs /\
    (forall b, b ∈ bs -> b ∈ Scenario.ALL_BADGES).
Proof.
  eexists. split; [vm_compute; reflexivity|].
  apply (@assign_badges_sublist RefLib.lib 0 (Scenario.scored 90)
           (Scenario.scenario_a Scenario.stamp_iso) (Some Scenario.stamp)).
  vm_compute. reflexivity.
Defined.

(** ** Inactivity decay and malformed input *)

Lemma DBL_OVERFLOW_large : 30 < DBL_OVERFLOW.
Proof. vm_compute. reflexivity. Qed.

(** [min(z, cap) / cap] overflows exactly for [z <= - DBL_OVERFLOW * cap]. *)
Lemma int_truediv_min (z cap : Z) :
  0 < cap <= 30 ->
  int_truediv (Z.min z cap) cap =
    if decide (z <= - DBL_OVERFLOW * cap) then Raise OverflowError
    else Ok (Z.min z cap # Z.to_pos cap)%Q.
Proof.
  intros Hcap. unfold int_truediv.
  pose proof DBL_OVERFLOW_large as Hbig.
  set (D := DBL_OVERFLOW) in *.
  assert (cap < D * cap) as Hprod by nia.
  destruct (decide (D * cap <= Z.abs (Z.min z cap))) as [Hover|Hfits];
    destruct (decide (z <= - D * cap)) as [Hlow|Hin]; try reflexivity; exfalso.
  - destruct (Z.min_spec z cap) as [[Hlt Hm]|[Hge Hm]]; rewrite Hm in Hover; lia.
  - destruct (Z.min_spec z cap) as [[Hlt Hm]|[Hge Hm]]; rewrite Hm in Hfits; lia.
Qed.

Section DecayProps.
Context `{PyLib}.
Import TrustScore.

(** A last-active instant later than the reference time gives a negative
    number of days, hence a negative decay. *)
Lemma future_last_active_negative_decay now base la ref t :
  truthy la = true -> parse_iso_datetime la = Ok (Some t) -> ref < t ->
  exists final decay,
    apply_inactivity_decay now base la (Some ref) = Ok (final, inject_Z decay) /\
    decay <= -5.
Proof.
  intros Hla Hparse Hlt. unfold apply_inactivity_decay.
  rewrite Hla, Hparse. cbn [negb mbind result_bind default from_option id].
  eexists _, _. split; [reflexivity|].
  unfold timedelta_days, DAY_US, DECAY_PER_WEEK.
  assert ((ref - t) / 86400000000 < 0) by (apply Z.div_lt_upper_bound; lia).
  assert ((ref - t) / 86400000000 / 7 < 0) by (apply Z.div_lt_upper_bound; lia).
  lia.
Qed.

Lemma parse_iso_datetime_truthy la :
  truthy la = true ->
  (exists t, parse_iso_datetime la = Ok (Some t)) \/
  parse_iso_datetime la = Raise ValueError.
Proof.
  intros Hla. destruct la as [|b|z|q| |s|n]; simpl in *;
    try discriminate; try (right; reflexivity).
  destruct (if endswith s "Z" then _ else _); [left; eauto|].
  destruct (strptime_ymd_utc s); [left; eauto | right; reflexivity].
Qed.

Lemma compute_profile_score_cases user p :
  int_field user "photos" = Ok p ->
  if decide (p <= - DBL_OVERFLOW * PHOTOS_CAP)
  then compute_profile_score user = Raise OverflowError
  else exists q, compute_profile_score user = Ok q.
Proof.
  intros Hp. unfold compute_profile_score. rewrite Hp. cbn [mbind result_bind].
  rewrite int_truediv_min by (unfold PHOTOS_CAP; lia).
  destruct (decide (p <= - DBL_OVERFLOW * PHOTOS_CAP));
    cbn [mbind result_bind]; eauto.
Qed.

Lemma compute_activity_score_cases user s q r :
  int_field user "login_streak_days" = Ok s ->
  int_field user "response_rate_pct" = Ok q ->
  int_field user "reports_received" = Ok r ->
  if decide (s <= - DBL_OVERFLOW * ACTIVITY_STREAK_CAP_DAYS)
  then compute_activity_score user = Raise OverflowError
  else if decide (r <= - DBL_OVERFLOW * ACTIVITY_REPORTS_CAP)
  then compute_activity_score user = Raise OverflowError
  else exists a bd, compute_activity_score user = Ok (a, bd).
Proof.
  intros Hs Hq Hr. unfold compute_activity_score.
  rewrite Hs. cbn [mbind result_bind].
  rewrite int_truediv_min by (unfold ACTIVITY_STREAK_CAP_DAYS; lia).
  destruct (decide (s <= - DBL_OVERFLOW * ACTIVITY_STREAK_CAP_DAYS));
    cbn [mbind result_bind]; [reflexivity|].
  rewrite Hq. cbn [mbind result_bind]. rewrite Hr. cbn [mbind result_bind].
  rewrite int_truediv_min by (unfold ACTIVITY_REPORTS_CAP; lia).
  destruct (decide (r <= - DBL_OVERFLOW * ACTIVITY_REPORTS_CAP));
    cbn [mbind result_bind]; eauto.
Qed.

(** With counts that divide into doubles the outcome is decided by
    last_active_at alone. *)
Lemma compute_trust_score_in_range now user ref p s q r :
  int_field user "photos" = Ok p ->
  int_field user "login_streak_days" = Ok s ->
  int_field user "response_rate_pct" = Ok q ->
  int_field user "reports_received" = Ok r ->
  counts_in_range p s r ->
  (returns (compute_trust_score now user ref) <-> last_active_ok user) /\
  (truthy (dict_get_none user "last_active_at") = true ->
   (forall t, parse_iso_datetime (dict_get_none user "last_active_at") <> Ok (Some t)) ->
   compute_trust_score now user ref = Raise ValueError).
Proof.
  intros Hp Hs Hq Hr (Hpr & Hsr & Hrr).
  pose proof (compute_profile_score_cases user p Hp) as Hprof.
  destruct (decide (p <= _)) as [Hbad|_] in Hprof; [lia|].
  destruct Hprof as [pq Hprof].
  pose proof (compute_activity_score_cases user s q r Hs Hq Hr) as Hact.
  destruct (decide (s <= _)) as [Hbad|_] in Hact; [lia|].
  destruct (decide (r <= _)) as [Hbad|_] in Hact; [lia|].
  destruct Hact as (a & bd & Hact).
  unfold compute_trust_score. rewrite Hprof, Hact. cbn [mbind result_bind].
  unfold apply_inactivity_decay, assign_badges, last_active_ok.
  set (la := dict_get_none user "last_active_at").
  destruct (truthy la) eqn:Htruthy; cbn [negb mbind result_bind].
  - destruct (parse_iso_datetime_truthy la Htruthy) as [[t Ht] | Hraise].
    + rewrite Ht. cbn [mbind result_bind]. split.
      * split; [intros _; right; eauto | intros _; eexists; reflexivity].
      * intros _ Hbad. exfalso. exact (Hbad t eq_refl).
    + rewrite Hraise. cbn [mbind result_bind]. split.
      * split; [intros [x Hx]; discriminate|].
        intros [Hf | [t Ht]]; discriminate.
      * intros _ _. reflexivity.
  - split.
    + split; [intros _; left; reflexivity | intros _; eexists; reflexivity].
    + intros Hf. discriminate.
Qed.

(** C3, as the code has it: for a user whose four numeric fields are
    values int() accepts, compute_trust_score returns a result exactly
    when photos, login_streak_days and reports_received are above the
    bound at which their division overflows a double (response_rate_pct
    is clamped before it is divided and has no bound) and last_active_at
    is absent, empty or parses.  With counts above the bounds a
    last_active_at that is present and does not parse raises ValueError;
    a count at or below its bound raises OverflowError. *)
Theorem compute_trust_score_returns now user ref p s q r :
  int_field user "photos" = Ok p ->
  int_field user "login_streak_days" = Ok s ->
  int_field user "response_rate_pct" = Ok q ->
  int_field user "reports_received" = Ok r ->
  (returns (compute_trust_score now user ref) <->
   counts_in_range p s r /\ last_active_ok user) /\
  (counts_in_range p s r ->
   truthy (dict_get_none user "last_active_at") = true ->
   (forall t, parse_iso_datetime (dict_get_none user "last_active_at") <> Ok (Some t)) ->
   compute_trust_score now user ref = Raise ValueError) /\
  (~ counts_in_range p s r ->
   compute_trust_score now user ref = Raise OverflowError).
Proof.
  intros Hp Hs Hq Hr.
  assert (~ counts_in_range p s r ->
          compute_trust_score now user ref = Raise OverflowError) as Hover.
  { intros Hout. unfold compute_trust_score.
    pose proof (compute_profile_score_cases user p Hp) as Hprof.
    destruct (decide (p <= _)) as [_|Hpr] in Hprof;
      [rewrite Hprof; reflexivity|].
    destruct Hprof as [pq ->]. cbn [mbind result_bind].
    pose proof (compute_activity_score_cases user s q r Hs Hq Hr) as Hact.
    destruct (decide (s <= _)) as [_|Hsr] in Hact;
      [rewrite Hact; reflexivity|].
    destruct (decide (r <= _)) as [_|Hrr] in Hact;
      [rewrite Hact; reflexivity|].
    exfalso. apply Hout. unfold counts_in_range. lia. }
  split; [|split; [|exact Hover]].
  - split.
    + intros Hret.
      assert (counts_in_range p s r) as Hin.
      { destruct (decide (- DBL_OVERFLOW * PHOTOS_CAP < p)) as [H1|H1];
          [destruct (decide (- DBL_OVERFLOW * ACTIVITY_STREAK_CAP_DAYS < s)) as [H2|H2];
           [destruct (decide (- DBL_OVERFLOW * ACTIVITY_REPORTS_CAP < r)) as [H3|H3];
            [repeat split; assumption|]|]|];
          exfalso; destruct Hret as [x Hx];
          rewrite Hover in Hx by (unfold counts_in_range; tauto); discriminate. }
      split; [exact Hin|].
      apply (compute_trust_score_in_range now user ref p s q r); assumption.
    + intros [Hin Hla].
      apply (compute_trust_score_in_range now user ref p s q r); assumption.
  - intros Hin.
    apply (compute_trust_score_in_range now user ref p s q r); assumption.
Qed.

End DecayProps.

(** C2 (the code departs from it): a user whose last_active_at lies nine
    hours after the reference time and whose raw total is 20 gets decay
    -5 and final score 25, above the raw total. *)
Theorem future_last_active_raises_score :
  exists r,
    @TrustScore.compute_trust_score RefLib.lib 0 Scenario.early_bird
      (Some Scenario.stamp) = Ok r /\
    TrustScore.raw_total r = 20%Q /\
    TrustScore.decay_applied r = (-5)%Q /\
    TrustScore.final_score r = 25%Q.
Proof. eexists. split; [vm_compute; reflexivity|]. repeat split. Qed.

(** C3 as stated fails: a last_active_at string that is no date makes
    compute_trust_score raise ValueError. *)
Lemma malformed_last_active_raises :
  @TrustScore.compute_trust_score RefLib.lib 0 Scenario.garbled None
    = Raise ValueError /\
  ~ returns (@TrustScore.compute_trust_score RefLib.lib 0 Scenario.garbled None).
Proof.
  assert (@TrustScore.compute_trust_score RefLib.lib 0 Scenario.garbled None
          = Raise ValueError) as Hraise by (vm_compute; reflexivity).
  split; [exact Hraise|]. intros [r Hr]. rewrite Hraise in Hr. discriminate.
Qed.

(** An integer below the range of a double makes the true division in
    compute_profile_score raise OverflowError. *)
Lemma huge_negative_photos_raises :
  @TrustScore.compute_trust_score RefLib.lib 0
    {[ "photos" := PInt (- 2 ^ 1030) ]} None = Raise OverflowError.
Proof. vm_compute. reflexivity. Qed.

Lemma compute_trust_score_returns_witness :
  returns (@TrustScore.compute_trust_score RefLib.lib 0 Scenario.wild_counts None).
Proof.
  apply (@compute_trust_score_returns RefLib.lib 0 Scenario.wild_counts None
           (- 2 * DBL_OVERFLOW) (10 ^ 400) (- 2 ^ 2000) (10 ^ 400)).
  - vm_compute. reflexivity.
  - vm_compute. reflexivity.
  - vm_compute. reflexivity.
  - vm_compute. reflexivity.
  - split.
    + repeat split; vm_compute; reflexivity.
    + left. vm_compute. reflexivity.
Defined.

(** ** Mapping an input dictionary to a [users] row *)

Section MappingProps.
Context `{PyLib} (repr_text : pyval -> string).
Import DbUpsert.

(** C9: in the row map_input_to_row returns, interests_count is 5 for
    true, 0 for false, clamp(n, 0, 5) for an integer n and 0 for any
    other or absent value; it is always an integer in [0, 5]. *)
Theorem interests_count_normalised d row :
  map_input_to_row repr_text d = Ok row ->
  exists n,
    row !! "interests_count" = Some (PInt n) /\
    0 <= n <= 5 /\
    n = match d !! "interests" with
        | Some (PBool true) => 5
        | Some (PBool false) => 0
        | Some (PInt m) => Z.max 0 (Z.min 5 m)
        | _ => 0
        end.
Proof.
  unfold map_input_to_row. intros Hrow.
  inv_bind Hrow. do 5 inv_bind Hrow. injection Hrow as <-.
  exists v. split; [reflexivity|].
  unfold dict_get_none, dict_get in Hv.
  destruct (d !! "interests") as [[|[]|m|q| |s|n]|]; simpl in Hv;
    injection Hv as <-; split; (reflexivity || lia).
Qed.

End MappingProps.

Lemma interests_count_normalised_witness :
  exists row,
    @DbUpsert.map_input_to_row RefLib.lib (fun _ => "") Scenario.signup = Ok row /\
    exists n,
      row !! "interests_count" = Some (PInt n) /\
      0 <= n <= 5 /\
      n = match Scenario.signup !! "interests" with
          | Some (PBool true) => 5
          | Some (PBool false) => 0
          | Some (PInt m) => Z.max 0 (Z.min 5 m)
          | _ => 0
          end.
Proof.
  assert (@DbUpsert.map_input_to_row RefLib.lib (fun _ => "") Scenario.signup
          = Ok Sample.signup_row) as Hrow by (vm_compute; reflexivity).
  exists Sample.signup_row. split; [exact Hrow|].
  exact (@interests_count_normalised RefLib.lib (fun _ => "") Scenario.signup
           Sample.signup_row Hrow).
Defined.

(** ** The job queue on one connection *)

Section Triples.
Import Worker.
Context {A B : Type}.

Lemma triple_ret (a : A) (Q : A -> world -> Prop) E :
  triple (Q a) (mret a) Q E.
Proof. intros w Hw. exact Hw. Qed.

Lemma triple_raise (e : exn) (Q : A -> world -> Prop) (E : exn -> world -> Prop) :
  triple (E e) (raise e) Q E.
Proof. intros w Hw. exact Hw. Qed.

Lemma triple_bind P (m : M A) (f : A -> M B) R Q E :
  triple P m R E -> (forall a, triple (R a) (f a) Q E) ->
  triple P (m ≫= f) Q E.
Proof.
  intros Hm Hf w Hw. specialize (Hm w Hw).
  unfold mbind, M_bind. destruct (m w) as [[a|e] w']; [|exact Hm].
  exact (Hf a w' Hm).
Qed.

Lemma triple_try P (m : M A) (h : exn -> M A) Q R E :
  triple P m Q R -> (forall e, triple (R e) (h e) Q E) ->
  triple P (try_except m h) Q E.
Proof.
  intros Hm Hh w Hw. specialize (Hm w Hw).
  unfold try_except. destruct (m w) as [[a|e] w']; [exact Hm|].
  exact (Hh e w' Hm).
Qed.

Lemma triple_conseq (P P' : world -> Prop) (m : M A) (Q Q' : A -> world -> Prop)
    (E E' : exn -> world -> Prop) :
  triple P' m Q' E' ->
  (forall w, P w -> P' w) ->
  (forall a w, Q' a w -> Q a w) ->
  (forall e w, E' e w -> E e w) ->
  triple P m Q E.
Proof.
  intros Hm HP HQ HE w Hw. specialize (Hm w (HP w Hw)).
  destruct (m w) as [[a|e] w']; auto.
Qed.

End Triples.

Section QueueProps.
Import Worker.

Lemma advances_refl r : advances r r.
Proof. unfold advances. tauto. Qed.

Lemma advances_trans r1 r2 r3 : advances r1 r2 -> advances r2 r3 -> advances r1 r3.
Proof.
  unfold advances. intros (Hid1 & Hnz1 & Ht1 & Hp1) (Hid2 & Hnz2 & Ht2 & Hp2).
  repeat split; [congruence | auto | auto |].
  intros Hbusy Hfree. destruct (decide (processing r2 = 0)); auto.
Qed.

Lemma advances_claim_row wn r : advances r (claim_row wn r).
Proof. unfold advances, terminal. simpl. repeat split; auto; lia. Qed.

Lemma advances_done_row now r : advances r (done_row now r).
Proof. unfold advances, terminal. simpl. repeat split; auto; lia. Qed.

Lemma advances_failed_row err now r : advances r (failed_row err now r).
Proof. unfold advances, terminal. simpl. repeat split; auto; lia. Qed.

Lemma Forall2_advances_refl js : Forall2 advances js js.
Proof. induction js; constructor; auto using advances_refl. Qed.

Lemma update_where_id_advances f job_id base db :
  (forall r, advances r (f r)) ->
  Forall2 advances base (recompute_jobs db) ->
  Forall2 advances base (recompute_jobs (update_where_id f job_id db)).
Proof.
  intros Hf Hbase. unfold update_where_id. simpl.
  induction Hbase as [|r0 r base js Hr _ IH]; simpl; constructor; [|exact IH].
  destruct (id r =? job_id); [|exact Hr].
  eapply advances_trans; [exact Hr | apply Hf].
Qed.

Lemma tracks_fault_blind base : fault_blind (tracks base).
Proof. intros d t fs fs' Hw. exact Hw. Qed.

Lemma settled_fault_blind base : fault_blind (settled base).
Proof. intros d t fs fs' Hw. exact Hw. Qed.

Lemma triple_storage_call {A} (P : world -> Prop) (k : world -> result A * world)
    (Q : A -> world -> Prop) (E : exn -> world -> Prop) :
  fault_blind P ->
  (forall w, P w -> E OperationalError w) ->
  triple P k Q E ->
  triple P (storage_call k) Q E.
Proof.
  intros Hblind HE Hk [d t fs] Hw. unfold storage_call. simpl.
  pose proof (Hblind d t fs (tail fs) Hw) as Hw'.
  destruct fs as [|[|] fs]; simpl in *.
  - exact (Hk _ Hw').
  - exact (HE _ Hw').
  - exact (Hk _ Hw').
Qed.

Lemma triple_execute_read {A} (P : world -> Prop) (query : database -> A) :
  fault_blind P ->
  triple P (execute_read query) (fun _ => P) (fun _ => P).
Proof.
  intros Hblind. apply triple_storage_call; auto.
  intros w Hw. exact Hw.
Qed.

Lemma triple_execute_write_tracks base f job_id :
  (forall r, advances r (f r)) ->
  triple (tracks base) (execute_write (update_where_id f job_id))
    (fun _ => tracks base) (fun _ => tracks base).
Proof.
  intros Hf. apply triple_storage_call; auto using tracks_fault_blind.
  intros [d [t|] fs] [Hdisk Htx]; simpl in *.
  - split; simpl; [exact Hdisk|].
    intros t' [= <-]. apply update_where_id_advances; auto.
  - split; simpl; [|discriminate].
    apply update_where_id_advances; auto.
Qed.

Lemma triple_execute_write_settled base f job_id :
  (forall r, advances r (f r)) ->
  triple (settled base) (execute_write (update_where_id f job_id))
    (fun _ => settled base) (fun _ => settled base).
Proof.
  intros Hf. apply triple_storage_call; auto using settled_fault_blind.
  intros [d t fs] [[Hdisk Htx] Hnone]; simpl in *. subst t. simpl.
  split; [split|]; simpl; [|discriminate|reflexivity].
  apply update_where_id_advances; auto.
Qed.

Lemma triple_begin_immediate base :
  triple (settled base) begin_immediate
    (fun _ => tracks base) (fun _ => settled base).
Proof.
  apply triple_storage_call; auto using settled_fault_blind.
  intros [d t fs] [[Hdisk Htx] Hnone]; simpl in *. subst t. simpl.
  split; simpl; [exact Hdisk|]. intros t' [= <-]. exact Hdisk.
Qed.

Lemma triple_commit base :
  triple (tracks base) commit (fun _ => settled base) (fun _ => tracks base).
Proof.
  intros [d [t|] fs] [Hdisk Htx]; unfold commit; simpl in *.
  - destruct fs as [|[|] fs]; simpl.
    + split; [split|]; simpl; [eauto | discriminate | reflexivity].
    + split; simpl; auto.
    + split; [split|]; simpl; [eauto | discriminate | reflexivity].
  - split; [split|]; simpl; auto.
Qed.

Lemma triple_commit_settled base :
  triple (settled base) commit (fun _ => settled base) (fun _ => settled base).
Proof.
  intros [d t fs] [Htr Hnone]. simpl in Hnone. subst t.
  unfold commit. simpl. split; auto.
Qed.

Lemma triple_rollback base (E : exn -> world -> Prop) :
  triple (tracks base) rollback (fun _ => settled base) E.
Proof.
  intros [d t fs] [Hdisk Htx]. unfold rollback. simpl.
  split; [split|]; simpl; [exact Hdisk | discriminate | reflexivity].
Qed.

Lemma settled_tracks base w : settled base w -> tracks base w.
Proof. intros [Htr _]. exact Htr. Qed.

Lemma triple_weaken_exn {A} base (m : M A) (Q : A -> world -> Prop) :
  triple (settled base) m Q (fun _ => settled base) ->
  triple (settled base) m Q (fun _ => tracks base).
Proof.
  intros Hm. eapply triple_conseq; [exact Hm | auto | auto |].
  intros e w Hw. apply settled_tracks. exact Hw.
Qed.

Lemma triple_claim_job base wn :
  triple (settled base) (claim_job wn)
    (fun _ => settled base) (fun _ => settled base).
Proof.
  unfold claim_job.
  apply triple_try with (R := fun _ => tracks base).
  - apply triple_bind with (R := fun _ => tracks base).
    { apply triple_weaken_exn. apply triple_begin_immediate. }
    intros _. apply triple_bind with (R := fun _ => tracks base).
    { apply triple_execute_read. apply tracks_fault_blind. }
    intros [[job_id uid]|].
    + apply triple_bind with (R := fun _ => tracks base).
      { apply triple_execute_write_tracks. apply advances_claim_row. }
      intros _. apply triple_bind with (R := fun _ => settled base).
      { apply triple_commit. }
      intros _. apply triple_bind with (R := fun _ => settled base).
      { apply triple_weaken_exn. apply triple_execute_read.
        apply settled_fault_blind. }
      intros [c|].
      * apply (triple_ret _ (fun _ => settled base)).
      * apply triple_weaken_exn.
        apply (triple_raise _ _ (fun _ => settled base)).
    + apply triple_bind with (R := fun _ => settled base).
      { apply triple_commit. }
      intros _. apply (triple_ret _ (fun _ => settled base)).
  - intros e.
    assert (forall K : M (option claimed),
      triple (settled base) K (fun _ => settled base) (fun _ => settled base) ->
      triple (tracks base) (rollback;; K) (fun _ => settled base) (fun _ => settled base))
      as Hrb.
    { intros K HK. apply triple_bind with (R := fun _ => settled base).
      - apply triple_rollback.
      - intros _. exact HK. }
    destruct e; apply Hrb;
      first [ apply (triple_ret _ (fun _ => settled base))
            | apply (triple_raise _ _ (fun _ => settled base)) ].
Qed.

Lemma triple_mark_job_done base job_id now :
  triple (settled base) (mark_job_done job_id now)
    (fun _ => settled base) (fun _ => settled base).
Proof.
  unfold mark_job_done. apply triple_bind with (R := fun _ => settled base).
  - apply triple_execute_write_settled. apply advances_done_row.
  - intros _. apply triple_commit_settled.
Qed.

Lemma triple_mark_job_failed base job_id err now :
  triple (settled base) (mark_job_failed job_id err now)
    (fun _ => settled base) (fun _ => settled base).
Proof.
  unfold mark_job_failed. apply triple_bind with (R := fun _ => settled base).
  - apply triple_execute_write_settled. apply advances_failed_row.
  - intros _. apply triple_commit_settled.
Qed.

Lemma triple_final {A} (P : world -> Prop) (m : M A) w :
  triple (A := A) P m (fun _ => P) (fun _ => P) -> P w -> P (m w).2.
Proof.
  intros Hm Hw. specialize (Hm w Hw). destruct (m w) as [[a|e] w']; exact Hm.
Qed.

Lemma apply_op_settled base w op :
  settled base w -> settled base (apply_op w op).
Proof.
  intros Hw. destruct op; simpl; apply triple_final; auto.
  - apply triple_claim_job.
  - apply triple_mark_job_done.
  - apply triple_mark_job_failed.
Qed.

Lemma run_ops_settled base ops w :
  settled base w -> settled base (run_ops ops w).
Proof.
  revert w. induction ops as [|op ops IH]; intros w Hw; simpl; [exact Hw|].
  apply IH. apply apply_op_settled. exact Hw.
Qed.

End QueueProps.

Section QueueClaims.
Import Worker Scenario.

(** C6, as the code has it: along every sequence of claim, mark-done and
    mark-failed operations a job keeps its identifier, a processed value
    that is not 0 never returns to 0, a terminal value (1 or 2) stays
    terminal, and processing goes back to 0 only with a terminal
    processed value. *)
Theorem queue_ops_monotone pre ops w i r :
  tx w = None ->
  jobs_of (run_ops pre w) !! i = Some r ->
  exists r',
    jobs_of (run_ops (pre ++ ops) w) !! i = Some r' /\
    id r' = id r /\
    (processed r <> 0 -> processed r' <> 0) /\
    (terminal r -> terminal r') /\
    (processing r <> 0 -> processing r' = 0 -> terminal r').
Proof.
  intros Hidle Hr.
  assert (settled (jobs_of w) w) as Hw.
  { split; [split|]; [apply Forall2_advances_refl | | exact Hidle].
    rewrite Hidle. discriminate. }
  apply (run_ops_settled _ pre) in Hw. destruct Hw as [_ Hidle1].
  set (w1 := run_ops pre w) in *.
  assert (settled (jobs_of w1) w1) as Hw1.
  { split; [split|]; [apply Forall2_advances_refl | | exact Hidle1].
    rewrite Hidle1. discriminate. }
  apply (run_ops_settled _ ops) in Hw1. destruct Hw1 as [[Hadv _] _].
  unfold run_ops at 1. rewrite foldl_app. fold (run_ops pre w). fold w1.
  fold (run_ops ops w1).
  destruct (Forall2_lookup_l _ _ _ _ _ Hadv Hr) as (r' & Hr' & Hrel).
  exists r'. split; [exact Hr'|]. exact Hrel.
Qed.

Lemma earliest_None l : earliest l = None -> l = [].
Proof.
  destruct l as [|j l]; [reflexivity|]. simpl.
  destruct (earliest l) as [m|]; [|discriminate].
  destruct (enqueued_at m <? enqueued_at j); discriminate.
Qed.

Lemma earliest_spec l m :
  earliest l = Some m ->
  m ∈ l /\ forall j, j ∈ l -> enqueued_at m <= enqueued_at j.
Proof.
  revert m. induction l as [|j0 l IH]; intros m Hm; simpl in Hm; [discriminate|].
  destruct (earliest l) as [m'|] eqn:Hrest.
  - destruct (IH m' eq_refl) as [Hin Hmin].
    destruct (enqueued_at m' <? enqueued_at j0) eqn:Hlt; injection Hm as <-;
      [apply Z.ltb_lt in Hlt | apply Z.ltb_ge in Hlt].
    + split; [right; exact Hin|].
      intros j [->|Hj]%elem_of_cons; [lia | auto].
    + split; [left|].
      intros j [->|Hj]%elem_of_cons; [lia|]. specialize (Hmin j Hj). lia.
  - injection Hm as <-. apply earliest_None in Hrest. subst l.
    split; [left|]. intros j [->|Hj]%elem_of_cons; [lia|]. inversion Hj.
Qed.

(** What the SELECT of claim_job does guarantee: the row is pending and
    no pending row was enqueued before it. *)
Lemma sql_select_pending_oldest db job_id uid :
  sql_select_pending db = Some (job_id, uid) ->
  exists m,
    m ∈ recompute_jobs db /\ is_pending m = true /\
    id m = job_id /\ user_id m = uid /\
    forall j, j ∈ recompute_jobs db -> is_pending j = true ->
              enqueued_at m <= enqueued_at j.
Proof.
  unfold sql_select_pending. intros Hsel.
  destruct (earliest _) as [m|] eqn:Hm; [|discriminate].
  injection Hsel as <- <-.
  destruct (earliest_spec _ _ Hm) as [Hin Hmin].
  apply list_elem_of_filter in Hin as [Hpend Hin].
  exists m. repeat split; auto.
  intros j Hj Hp. apply Hmin. apply list_elem_of_filter. auto.
Qed.

End QueueClaims.

(** C6 as stated fails: a job marked failed (processed = 2) and then
    marked done ends with processed = 1. *)
Lemma mark_done_overwrites_failed :
  Worker.processed <$> Worker.jobs_of
    (Worker.run_ops [Worker.OpClaim "w1"; Worker.OpFailed 1 "boom" 20]
       Scenario.lone_queue) = [2] /\
  Worker.processed <$> Worker.jobs_of
    (Worker.run_ops [Worker.OpClaim "w1"; Worker.OpFailed 1 "boom" 20;
                     Worker.OpDone 1 30]
       Scenario.lone_queue) = [1].
Proof. split; vm_compute; reflexivity. Qed.

Lemma queue_ops_monotone_witness :
  Worker.tx Scenario.lone_queue = None /\
  exists r,
    Worker.jobs_of (Worker.run_ops [Worker.OpClaim "w1"] Scenario.lone_queue) !! 0%nat
      = Some r /\
    exists r',
      Worker.jobs_of
        (Worker.run_ops ([Worker.OpClaim "w1"] ++ [Worker.OpDone 1 30])
           Scenario.lone_queue) !! 0%nat = Some r' /\
      Worker.id r' = Worker.id r /\
      (Worker.processed r <> 0 -> Worker.processed r' <> 0) /\
      (Worker.terminal r -> Worker.terminal r') /\
      (Worker.processing r <> 0 -> Worker.processing r' = 0 -> Worker.terminal r').
Proof.
  split; [reflexivity|]. eexists. split; [vm_compute; reflexivity|].
  apply (queue_ops_monotone [Worker.OpClaim "w1"] [Worker.OpDone 1 30]
           Scenario.lone_queue 0%nat).
  - reflexivity.
  - vm_compute. reflexivity.
Defined.

(** C7 (the code departs from it): of two pending jobs with the same
    enqueue time, stored with identifier 2 ahead of identifier 1,
    claim_job claims identifier 2; its ORDER BY names enqueued_at only. *)
Theorem claim_ignores_identifier_on_ties :
  (Worker.claim_job "w1" Scenario.tied_queue).1
  = Ok (Some {| Worker.c_id := 2; Worker.c_user_id := "b";
                Worker.c_enqueued_at := 10; Worker.c_attempts := 1 |}).
Proof. vm_compute. reflexivity. Qed.

(** ** Persisting a score and its audit entry *)

Section PersistProps.
Import Worker.

(** On the worker's connection no transaction is open when
    upsert_trust_score_and_audit runs, so its first statement is
    committed on its own: if the second one fails, the score row is
    already in place and no audit row follows it. *)
Lemma upsert_survives_failed_audit uid sc d now db db1 fs :
  sql_upsert_score uid sc now db = Ok db1 ->
  upsert_trust_score_and_audit uid sc d now
    {| disk := db; tx := None; faults := false :: true :: fs |}
  = (Raise OperationalError, {| disk := db1; tx := None; faults := fs |}).
Proof.
  intros Hscore.
  unfold upsert_trust_score_and_audit, mbind, M_bind, execute_checked, storage_call.
  simpl. rewrite Hscore. reflexivity.
Qed.

(** Inside an explicit transaction the same failure leaves the committed
    tables as they were. *)
Lemma upsert_in_transaction_keeps_disk uid sc d now db t fs :
  disk (upsert_trust_score_and_audit uid sc d now
          {| disk := db; tx := Some t; faults := false :: true :: fs |}).2
  = db.
Proof.
  unfold upsert_trust_score_and_audit, mbind, M_bind, execute_checked, storage_call.
  simpl. destruct (sql_upsert_score uid sc now t); reflexivity.
Qed.

End PersistProps.

(** C5 (the code departs from it): in a loop turn whose INSERT into
    trust_score_audit fails, the job ends failed, yet the committed
    tables hold the new score of the user and no audit entry. *)
Theorem score_persisted_without_audit (str_e : exn -> string) :
  let run := @Worker.worker_iteration RefLib.lib "w1" Scenario.stamp str_e
               (Scenario.idle_world Scenario.one_job_db Scenario.audit_insert_fails) in
  run.1 = Ok (Worker.Failed 1 OperationalError) /\
  Worker.score <$> (Worker.trust_scores (Worker.disk run.2) !! "u1") = Some 100%Q /\
  Worker.trust_score_audit (Worker.disk run.2) = [] /\
  Worker.processed <$> Worker.jobs_of run.2 = [2].
Proof. vm_compute. repeat split. Qed.

(** The same turn without a failure writes both. *)
Lemma score_and_audit_persisted (str_e : exn -> string) :
  let run := @Worker.worker_iteration RefLib.lib "w1" Scenario.stamp str_e
               (Scenario.idle_world Scenario.one_job_db []) in
  run.1 = Ok (Worker.Finished 1) /\
  Worker.score <$> (Worker.trust_scores (Worker.disk run.2) !! "u1") = Some 100%Q /\
  Worker.new_score <$> Worker.trust_score_audit (Worker.disk run.2) = [100%Q] /\
  Worker.processed <$> Worker.jobs_of run.2 = [1].
Proof. vm_compute. repeat split. Qed.

(** ** Several workers racing for one pending job *)

Section Race.
Import Worker.

Variable db0 : database.
Variable j : job.
Hypothesis Hkey : NoDup (id <$> recompute_jobs db0).
Hypothesis Hone :
  filter (fun r => is_pending r = true) (recompute_jobs db0) = [j].

Lemma pending_is_j r :
  r ∈ recompute_jobs db0 -> is_pending r = true -> r = j.
Proof.
  intros Hin Hp.
  assert (r ∈ filter (fun r => is_pending r = true) (recompute_jobs db0)) as Hf
    by (apply list_elem_of_filter; auto).
  rewrite Hone in Hf. apply list_elem_of_singleton in Hf. exact Hf.
Qed.

Lemma j_in_table : j ∈ recompute_jobs db0.
Proof.
  assert (j ∈ filter (fun r => is_pending r = true) (recompute_jobs db0)) as Hf
    by (rewrite Hone; apply list_elem_of_here).
  apply list_elem_of_filter in Hf. tauto.
Qed.

Lemma key_unique (l : list job) r1 r2 :
  NoDup (id <$> l) -> r1 ∈ l -> r2 ∈ l -> id r1 = id r2 -> r1 = r2.
Proof.
  induction l as [|r l IH]; simpl; intros Hnd H1 H2 Hid; [inversion H1|].
  apply NoDup_cons in Hnd as [Hfresh Hnd].
  apply elem_of_cons in H1 as [->|H1]; apply elem_of_cons in H2 as [->|H2]; auto.
  - exfalso. apply Hfresh. rewrite Hid. apply list_elem_of_fmap. eauto.
  - exfalso. apply Hfresh. rewrite <- Hid. apply list_elem_of_fmap. eauto.
Qed.

Lemma select_finds_j : sql_select_pending db0 = Some (id j, user_id j).
Proof. unfold sql_select_pending. rewrite Hone. reflexivity. Qed.

Lemma none_pending_after_claim wn :
  sql_select_pending (sql_update_claim wn (id j) db0) = None.
Proof.
  unfold sql_select_pending, sql_update_claim, update_where_id. simpl.
  assert (forall l : list job,
    (forall r, r ∈ l -> is_pending r = true -> r = j) ->
    filter (fun r => is_pending r = true)
      ((fun r => if id r =? id j then claim_row wn r else r) <$> l) = []) as Hnone.
  { induction l as [|r l IH]; intros Hl; [reflexivity|].
    rewrite fmap_cons, filter_cons, IH
      by (intros r' Hr'; apply Hl; right; exact Hr').
    destruct (decide _) as [Hp|_]; [exfalso|reflexivity].
    destruct (Z.eqb_spec (id r) (id j)) as [Heq|Hne].
    - unfold is_pending in Hp. simpl in Hp.
      apply andb_true_iff in Hp as [_ Hp]. discriminate.
    - apply Hne. f_equal. apply Hl; [left | exact Hp]. }
  rewrite Hnone; [reflexivity|]. apply pending_is_j.
Qed.

Lemma reselect_finds_claimed wn :
  sql_select_job (id j) (sql_update_claim wn (id j) db0)
  = Some (claimed_of (claim_row wn j)).
Proof.
  unfold sql_select_job, sql_update_claim, update_where_id. simpl.
  assert (forall l : list job,
    (forall r, r ∈ l -> id r = id j -> r = j) -> j ∈ l ->
    snd <$> list_find (fun r => id r = id j)
      ((fun r => if id r =? id j then claim_row wn r else r) <$> l)
    = Some (claim_row wn j)) as Hfind.
  { induction l as [|r l IH]; intros Hl Hin; [inversion Hin|].
    rewrite fmap_cons. simpl.
    destruct (Z.eqb_spec (id r) (id j)) as [Heq|Hne].
    - rewrite (Hl r (list_elem_of_here _ _) Heq).
      destruct (decide _) as [_|Hbad]; [reflexivity|].
      exfalso. apply Hbad. reflexivity.
    - destruct (decide _) as [Hbad|_]; [contradiction|].
      apply elem_of_cons in Hin as [->|Hin]; [contradiction|].
      specialize (IH (fun r' Hr' => Hl r' (list_elem_of_further _ _ _ Hr')) Hin).
      destruct (list_find _ _) as [[p x]|]; simpl in *; [exact IH | discriminate]. }
  specialize (Hfind (recompute_jobs db0)
    (fun r Hr Hid => key_unique _ r j Hkey Hr j_in_table Hid) j_in_table).
  destruct (list_find _ _) as [[p x]|]; simpl in *; [|discriminate].
  injection Hfind as ->. reflexivity.
Qed.

Lemma lock_free_none cs :
  (forall k c, cs !! k = Some c -> own_tx c = None) -> lock_free cs = true.
Proof.
  induction cs as [|c cs IH]; intros Hall; [reflexivity|].
  unfold lock_free in *. simpl. unfold holds_lock at 1.
  rewrite (Hall 0%nat c eq_refl). simpl.
  apply IH. intros k c' Hk. exact (Hall (S k) c' Hk).
Qed.

Lemma lock_free_taken cs h ch t :
  cs !! h = Some ch -> own_tx ch = Some t -> lock_free cs = false.
Proof.
  revert h. induction cs as [|c cs IH]; intros h Hh Ht; [discriminate|].
  unfold lock_free in *. simpl. destruct h as [|h]; simpl in Hh.
  - injection Hh as ->. unfold holds_lock. rewrite Ht. reflexivity.
  - rewrite (IH h Hh Ht). apply andb_false_r.
Qed.

Lemma others_insert (P : claimant -> Prop) (cs : list claimant) h i c' :
  (forall k c, k <> h -> cs !! k = Some c -> P c) ->
  (i <> h -> P c') ->
  forall k c, k <> h -> <[i:=c']> cs !! k = Some c -> P c.
Proof.
  intros Hold Hnew k c Hk Hlook.
  apply list_lookup_insert_Some in Hlook as [(-> & <- & _) | (_ & Hlook)]; eauto.
Qed.

Lemma waiting_late d c : waiting c -> late d c.
Proof. intros Hw. left. exact Hw. Qed.

(** Every move of every claimant keeps the race in one of its states. *)
Lemma sched_step_inv s i : race_inv db0 j s -> race_inv db0 j (sched_step s i).
Proof.
  intros Hinv. unfold sched_step.
  destruct (claimants s !! i) as [c|] eqn:Hc; [|exact Hinv].
  pose proof (lookup_lt_Some _ _ _ Hc) as Hlen.
  destruct s as [d cs]. simpl in *.
  destruct Hinv as [Hd Hall | h ch Hd Hh Hhold Hothers | h ch Hd Hh Htx Hpc Hothers];
    simpl in *.
  - (* nobody has begun *)
    destruct (Hall i c Hc) as [Hpc Htx].
    rewrite lock_free_none by (intros k c' Hk; apply (Hall k c' Hk)).
    unfold claimant_step. rewrite Hpc.
    apply race_held with (h := i) (ch := goto c AtSelect (Some d)); simpl.
    + exact Hd.
    + apply list_lookup_insert_eq. exact Hlen.
    + left. subst d. split; reflexivity.
    + intros k c' Hk Hlook. rewrite list_lookup_insert_ne in Hlook by auto.
      destruct (Hall k c' Hlook) as [Hpc' Htx']. split; [exact Htx' | left; exact Hpc'].
  - (* one claimant is inside its transaction *)
    destruct (decide (i = h)) as [->|Hne].
    + rewrite Hh in Hc. injection Hc as <-.
      unfold claimant_step.
      destruct Hhold as [[Hpc Htx] | [[Hpc Htx] | [Hpc Htx]]]; rewrite Hpc, Htx.
      * rewrite select_finds_j.
        apply race_held with (h := h) (ch := goto ch (AtUpdate (id j)) (Some db0)); simpl.
        -- exact Hd.
        -- apply list_lookup_insert_eq. exact Hlen.
        -- right. left. split; reflexivity.
        -- apply others_insert; [exact Hothers | congruence].
      * apply race_held with (h := h)
          (ch := goto ch (AtCommit (id j))
                   (Some (sql_update_claim (worker ch) (id j) db0))); simpl.
        -- exact Hd.
        -- apply list_lookup_insert_eq. exact Hlen.
        -- right. right. split; reflexivity.
        -- apply others_insert; [exact Hothers | congruence].
      * apply race_won with (h := h) (ch := goto ch (AtReselect (id j)) None); simpl.
        -- reflexivity.
        -- apply list_lookup_insert_eq. exact Hlen.
        -- reflexivity.
        -- left. reflexivity.
        -- apply others_insert; [|congruence].
           intros k c' Hk Hlook. apply waiting_late. eauto.
    + destruct (Hothers i c Hne Hc) as [Htx [Hpc|Hpc]].
      * assert (exists t, own_tx ch = Some t) as [t Ht]
          by (destruct Hhold as [[_ Ht] | [[_ Ht] | [_ Ht]]]; eauto).
        rewrite (lock_free_taken cs h ch t Hh Ht).
        unfold claimant_step. rewrite Hpc.
        apply race_held with (h := h) (ch := ch); simpl; auto.
        -- rewrite list_lookup_insert_ne by auto. exact Hh.
        -- apply others_insert; [exact Hothers|].
           intros _. split; [reflexivity | right; reflexivity].
      * unfold claimant_step. rewrite Hpc. simpl.
        rewrite list_insert_id by exact Hc.
        apply race_held with (h := h) (ch := ch); auto.
  - (* the job has been claimed *)
    destruct (decide (i = h)) as [->|Hne].
    + rewrite Hh in Hc. injection Hc as <-.
      unfold claimant_step. destruct Hpc as [Hpc|Hpc]; rewrite Hpc, ?Htx.
      * rewrite Hd, reselect_finds_claimed.
        apply race_won with (h := h)
          (ch := goto ch (Returned (Some (claimed_of (claim_row (worker ch) j)))) None);
          simpl.
        -- reflexivity.
        -- apply list_lookup_insert_eq. exact Hlen.
        -- reflexivity.
        -- right. reflexivity.
        -- rewrite <- Hd. apply others_insert; [exact Hothers | congruence].
      * simpl. rewrite list_insert_id by exact Hh.
        apply race_won with (h := h) (ch := ch); auto.
    + destruct (Hothers i c Hne Hc) as [[Htx' [Hpc'|Hpc']] | [Hpc' Htx']];
        unfold claimant_step; rewrite Hpc', ?Htx'.
      * destruct (lock_free cs).
        -- apply race_won with (h := h) (ch := ch); simpl; auto.
           ++ rewrite list_lookup_insert_ne by auto. exact Hh.
           ++ apply others_insert; [exact Hothers|].
              intros _. right. split; reflexivity.
        -- apply race_won with (h := h) (ch := ch); simpl; auto.
           ++ rewrite list_lookup_insert_ne by auto. exact Hh.
           ++ apply others_insert; [exact Hothers|].
              intros _. left. split; [reflexivity | right; reflexivity].
      * simpl. rewrite list_insert_id by exact Hc.
        apply race_won with (h := h) (ch := ch); auto.
      * rewrite Hd, none_pending_after_claim.
        apply race_won with (h := h) (ch := ch); simpl; auto.
        -- rewrite list_lookup_insert_ne by auto. exact Hh.
        -- rewrite <- Hd. apply others_insert; [exact Hothers|].
           intros _. left. split; [reflexivity | right; reflexivity].
Qed.

Lemma run_inv schedule s : race_inv db0 j s -> race_inv db0 j (run schedule s).
Proof.
  revert s. induction schedule as [|i schedule IH]; intros s Hs; [exact Hs|].
  simpl. apply IH. apply sched_step_inv. exact Hs.
Qed.

Lemma start_inv names : race_inv db0 j (start names db0).
Proof.
  apply race_fresh; [reflexivity|]. simpl.
  intros k c Hk. apply list_lookup_fmap_Some in Hk as (wn & -> & _).
  split; reflexivity.
Qed.

Lemma race_inv_movable s i c :
  race_inv db0 j s -> claimants s !! i = Some c -> movable c.
Proof.
  intros Hinv Hc. unfold movable.
  destruct Hinv as [Hd Hall | h ch Hd Hh Hhold Hothers | h ch Hd Hh Htx Hpc Hothers].
  - destruct (Hall i c Hc) as [-> _]. exact I.
  - destruct (decide (i = h)) as [->|Hne].
    + rewrite Hh in Hc. injection Hc as <-.
      destruct Hhold as [[-> ->] | [[-> ->] | [-> ->]]]; eauto.
    + destruct (Hothers i c Hne Hc) as [_ [-> | ->]]; exact I.
  - destruct (decide (i = h)) as [->|Hne].
    + rewrite Hh in Hc. injection Hc as <-. destruct Hpc as [-> | ->]; exact I.
    + destruct (Hothers i c Hne Hc) as [[_ [-> | ->]] | [-> ->]]; eauto; exact I.
Qed.

End Race.

Section Progress.
Import Worker.

Lemma claimant_step_worker free d c : worker (claimant_step free d c).2 = worker c.
Proof.
  unfold claimant_step.
  destruct (at_pc c), (own_tx c); try destruct free; simpl; try reflexivity;
    try (destruct (sql_select_pending _) as [[? ?]|]; reflexivity);
    destruct (sql_select_job _ _); reflexivity.
Qed.

Lemma sched_step_workers s i :
  worker <$> claimants (sched_step s i) = worker <$> claimants s.
Proof.
  unfold sched_step. destruct (claimants s !! i) as [c|] eqn:Hc; [|reflexivity].
  pose proof (claimant_step_worker (lock_free (claimants s)) (sdisk s) c) as Hw.
  destruct (claimant_step _ _ c) as [d c']. simpl in *.
  rewrite list_fmap_insert, Hw. apply list_insert_id.
  rewrite list_lookup_fmap, Hc. reflexivity.
Qed.

Lemma run_workers schedule s :
  worker <$> claimants (run schedule s) = worker <$> claimants s.
Proof.
  revert s. induction schedule as [|i schedule IH]; intros s; [reflexivity|].
  simpl. rewrite IH. apply sched_step_workers.
Qed.

Lemma claimant_step_remaining free d c :
  movable c -> finished c = false ->
  (remaining (claimant_step free d c).2 < remaining c)%nat.
Proof.
  unfold movable, finished, remaining, claimant_step.
  destruct (at_pc c); intros Hmov Hfin; try discriminate.
  - destruct free; simpl; lia.
  - destruct Hmov as [t ->]. destruct (sql_select_pending t) as [[? ?]|]; simpl; lia.
  - destruct Hmov as [t ->]. simpl. lia.
  - destruct Hmov as [t ->]. simpl. lia.
  - destruct (sql_select_job _ _); simpl; lia.
Qed.

Lemma sum_list_insert_lt (l : list nat) i x y :
  l !! i = Some x -> (y < x)%nat -> (sum_list (<[i:=y]> l) < sum_list l)%nat.
Proof.
  revert i. induction l as [|a l IH]; intros i Hi Hlt; [discriminate|].
  destruct i as [|i]; simpl in *.
  - injection Hi as ->. lia.
  - specialize (IH i Hi Hlt). lia.
Qed.

Lemma sched_step_work s i c :
  movable c -> claimants s !! i = Some c -> finished c = false ->
  (work (sched_step s i) < work s)%nat.
Proof.
  intros Hmov Hc Hfin. unfold work, sched_step. rewrite Hc.
  pose proof (claimant_step_remaining (lock_free (claimants s)) (sdisk s) c Hmov Hfin)
    as Hlt.
  destruct (claimant_step _ _ c) as [d c']. simpl in *.
  rewrite list_fmap_insert.
  apply sum_list_insert_lt with (x := remaining c); [|exact Hlt].
  rewrite list_lookup_fmap, Hc. reflexivity.
Qed.

Lemma unfinished_claimant cs :
  forallb finished cs = false ->
  exists i c, cs !! i = Some c /\ finished c = false.
Proof.
  induction cs as [|c cs IH]; simpl; [discriminate|].
  destruct (finished c) eqn:Hfin; simpl.
  - intros Hrest. destruct (IH Hrest) as (i & c' & Hi & Hc').
    exists (S i), c'. auto.
  - intros _. exists 0%nat, c. auto.
Qed.

Lemma all_finished_lookup s i c :
  all_finished s = true -> claimants s !! i = Some c -> finished c = true.
Proof.
  unfold all_finished. generalize (claimants s). intros cs. revert i.
  induction cs as [|c0 cs IH]; intros i Hall Hi; [discriminate|].
  simpl in Hall. apply andb_true_iff in Hall as [H0 Hrest].
  destruct i as [|i]; simpl in Hi; [injection Hi as <-; exact H0 | eauto].
Qed.

(** Scheduling unfinished claimants brings the race to an end. *)
Lemma finishing_schedule db0 j n s :
  NoDup (id <$> recompute_jobs db0) ->
  filter (fun r => is_pending r = true) (recompute_jobs db0) = [j] ->
  (work s <= n)%nat -> race_inv db0 j s ->
  exists schedule, all_finished (run schedule s) = true.
Proof.
  intros Hkey Hone.
  revert s. induction n as [|n IH]; intros s Hwork Hinv;
    destruct (all_finished s) eqn:Hfin;
    try (exists []; exact Hfin);
    destruct (unfinished_claimant _ Hfin) as (i & c & Hc & Hrun);
    pose proof (sched_step_work s i c (race_inv_movable db0 j s i c Hinv Hc) Hc Hrun)
      as Hless.
  - lia.
  - destruct (IH (sched_step s i)) as [schedule Hdone];
      [lia | apply sched_step_inv; assumption |].
    exists (i :: schedule). exact Hdone.
Qed.

End Progress.

Section RaceClaim.
Import Worker.

Lemma start_workers names db : worker <$> claimants (start names db) = names.
Proof.
  simpl. induction names as [|wn names IH]; [reflexivity|].
  rewrite !fmap_cons, IH. reflexivity.
Qed.

(** C1: when any number of workers run claim_job at once against a queue
    with a single pending job, the race always can finish, and however
    it is scheduled exactly one claimant returns that job, with its
    attempts incremented; the job's row then has processing = 1, that
    worker's name as processor and attempts one higher, its other columns
    as before.  Every other claimant returns None and changes nothing:
    every other row and every other table is as it was. *)
Theorem claim_race_exclusive (names : list string) (db0 : database) (j : job) :
  names <> [] ->
  NoDup (id <$> recompute_jobs db0) ->
  filter (fun r => is_pending r = true) (recompute_jobs db0) = [j] ->
  (exists schedule, all_finished (run schedule (start names db0)) = true) /\
  forall schedule,
    all_finished (run schedule (start names db0)) = true ->
    exists h wn,
      names !! h = Some wn /\
      length (claimants (run schedule (start names db0))) = length names /\
      (forall k c,
         claimants (run schedule (start names db0)) !! k = Some c ->
         at_pc c =
           if decide (k = h)
           then Returned (Some {| c_id := id j; c_user_id := user_id j;
                                  c_enqueued_at := enqueued_at j;
                                  c_attempts := attempts j + 1 |})
           else Returned None) /\
      sdisk (run schedule (start names db0)) = sql_update_claim wn (id j) db0 /\
      (forall p r,
         recompute_jobs db0 !! p = Some r ->
         recompute_jobs (sdisk (run schedule (start names db0))) !! p
         = Some (if id r =? id j
                 then {| id := id j; user_id := user_id j; processing := 1;
                         processed := 0; attempts := attempts j + 1;
                         processor := Some wn; enqueued_at := enqueued_at j;
                         processed_at := processed_at j;
                         last_error := last_error j |}
                 else r)) /\
      users (sdisk (run schedule (start names db0))) = users db0 /\
      trust_scores (sdisk (run schedule (start names db0))) = trust_scores db0 /\
      trust_score_audit (sdisk (run schedule (start names db0)))
        = trust_score_audit db0.
Proof.
  intros Hne Hkey Hone. split.
  { apply (finishing_schedule db0 j (work (start names db0))); auto.
    apply start_inv. }
  intros schedule Hfin.
  pose proof (run_inv db0 j Hkey Hone schedule _ (start_inv db0 j names)) as Hinv.
  pose proof (run_workers schedule (start names db0)) as Hnames.
  rewrite start_workers in Hnames.
  set (s := run schedule (start names db0)) in *.
  assert (length (claimants s) = length names) as Hlen
    by (rewrite <- Hnames, length_fmap; reflexivity).
  destruct Hinv as [Hd Hall | h ch Hd Hh Hhold Hothers | h ch Hd Hh Htx Hpc Hothers].
  - exfalso. destruct (claimants s) as [|c cs] eqn:Hcs.
    + destruct names; [contradiction | discriminate].
    + destruct (Hall 0%nat c eq_refl) as [Hpc _].
      pose proof (all_finished_lookup s 0%nat c Hfin) as Hdone.
      rewrite Hcs in Hdone. specialize (Hdone eq_refl).
      unfold finished in Hdone. rewrite Hpc in Hdone. discriminate.
  - exfalso. pose proof (all_finished_lookup s h ch Hfin Hh) as Hdone.
    unfold finished in Hdone.
    destruct Hhold as [[Hpc _] | [[Hpc _] | [Hpc _]]];
      rewrite Hpc in Hdone; discriminate.
  - exists h, (worker ch).
    split; [|split; [exact Hlen | split; [|split; [|split; [|rewrite Hd; repeat split]]]]].
    + rewrite <- Hnames, list_lookup_fmap, Hh. reflexivity.
    + intros k c Hc. pose proof (all_finished_lookup s k c Hfin Hc) as Hdone.
      unfold finished in Hdone.
      destruct (decide (k = h)) as [->|Hk].
      * rewrite Hh in Hc. injection Hc as <-.
        destruct Hpc as [Hpc|Hpc]; [rewrite Hpc in Hdone; discriminate|].
        exact Hpc.
      * destruct (Hothers k c Hk Hc) as [[_ [Hpc'|Hpc']] | [Hpc' _]];
          try exact Hpc'; rewrite Hpc' in Hdone; discriminate.
    + exact Hd.
    + intros p r Hp. rewrite Hd.
      unfold sql_update_claim, update_where_id. simpl.
      rewrite list_lookup_fmap, Hp. simpl.
      destruct (Z.eqb_spec (id r) (id j)) as [Heq|_]; [|reflexivity].
      rewrite (key_unique (recompute_jobs db0) r j Hkey
                 (list_elem_of_lookup_2 _ _ _ Hp) (j_in_table db0 j Hone) Heq).
      assert (is_pending j = true) as Hpend.
      { assert (j ∈ filter (fun r => is_pending r = true) (recompute_jobs db0)) as Hin
          by (rewrite Hone; apply list_elem_of_here).
        apply list_elem_of_filter in Hin as [Hpend _]. exact Hpend. }
      unfold is_pending in Hpend. apply andb_true_iff in Hpend as [Hzero _].
      apply Z.eqb_eq in Hzero. unfold claim_row. rewrite Hzero. reflexivity.
Qed.

End RaceClaim.

Lemma claim_race_exclusive_witness :
  Worker.all_finished
    (Worker.run Scenario.first_wins
       (Worker.start Scenario.three_workers (Worker.disk Scenario.lone_queue)))
    = true /\
  exists h wn,
    Scenario.three_workers !! h = Some wn /\
    length (Worker.claimants
      (Worker.run Scenario.first_wins
         (Worker.start Scenario.three_workers (Worker.disk Scenario.lone_queue))))
      = length Scenario.three_workers /\
    (forall k c,
       Worker.claimants
         (Worker.run Scenario.first_wins
            (Worker.start Scenario.three_workers (Worker.disk Scenario.lone_queue)))
         !! k = Some c ->
       Worker.at_pc c =
         if decide (k = h)
         then Worker.Returned
                (Some {| Worker.c_id := 1; Worker.c_user_id := "a";
                         Worker.c_enqueued_at := 10; Worker.c_attempts := 0 + 1 |})
         else Worker.Returned None) /\
    Worker.sdisk
      (Worker.run Scenario.first_wins
         (Worker.start Scenario.three_workers (Worker.disk Scenario.lone_queue)))
      = Worker.sql_update_claim wn 1 (Worker.disk Scenario.lone_queue) /\
    (forall p r,
       Worker.recompute_jobs (Worker.disk Scenario.lone_queue) !! p = Some r ->
       Worker.recompute_jobs
         (Worker.sdisk
            (Worker.run Scenario.first_wins
               (Worker.start Scenario.three_workers (Worker.disk Scenario.lone_queue))))
         !! p
       = Some (if Worker.id r =? 1
               then {| Worker.id := 1; Worker.user_id := "a"; Worker.processing := 1;
                       Worker.processed := 0; Worker.attempts := 0 + 1;
                       Worker.processor := Some wn; Worker.enqueued_at := 10;
                       Worker.processed_at := None; Worker.last_error := None |}
               else r)) /\
    Worker.users
      (Worker.sdisk
         (Worker.run Scenario.first_wins
            (Worker.start Scenario.three_workers (Worker.disk Scenario.lone_queue))))
      = Worker.users (Worker.disk Scenario.lone_queue) /\
    Worker.trust_scores
      (Worker.sdisk
         (Worker.run Scenario.first_wins
            (Worker.start Scenario.three_workers (Worker.disk Scenario.lone_queue))))
      = Worker.trust_scores (Worker.disk Scenario.lone_queue) /\
    Worker.trust_score_audit
      (Worker.sdisk
         (Worker.run Scenario.first_wins
            (Worker.start Scenario.three_workers (Worker.disk Scenario.lone_queue))))
      = Worker.trust_score_audit (Worker.disk Scenario.lone_queue).
Proof.
  split; [vm_compute; reflexivity|].
  refine (proj2 (claim_race_exclusive Scenario.three_workers
                   (Worker.disk Scenario.lone_queue)
                   (Scenario.pending_job 1 "a" 10) _ _ _) Scenario.first_wins _).
  - discriminate.
  - apply (bool_decide_unpack _). vm_compute. exact I.
  - vm_compute. reflexivity.
  - vm_compute. reflexivity.
Defined.

Section Alone.
#[local] Arguments Worker.sql_select_job : simpl never.
#[local] Arguments Worker.sql_select_pending : simpl never.
#[local] Arguments Worker.sql_update_claim : simpl never.

(** A claimant running alone goes through the statements of claim_job:
    its five moves end where the procedure on one connection ends. *)
Lemma claim_job_alone wn db :
  match Worker.claimants
          (Worker.run [0; 0; 0; 0; 0]%nat (Worker.start [wn] db)) with
  | [c] =>
      match Worker.at_pc c with
      | Worker.Returned r =>
          Worker.claim_job wn {| Worker.disk := db; Worker.tx := None; Worker.faults := [] |}
          = (Ok r,
             {| Worker.disk :=
                  Worker.sdisk (Worker.run [0; 0; 0; 0; 0]%nat (Worker.start [wn] db));
                Worker.tx := None; Worker.faults := [] |})
      | Worker.Raised e =>
          Worker.claim_job wn {| Worker.disk := db; Worker.tx := None; Worker.faults := [] |}
          = (Raise e,
             {| Worker.disk :=
                  Worker.sdisk (Worker.run [0; 0; 0; 0; 0]%nat (Worker.start [wn] db));
                Worker.tx := None; Worker.faults := [] |})
      | _ => False
      end
  | _ => False
  end.
Proof.
  unfold Worker.claim_job, Worker.try_except, Worker.run, Worker.start,
    Worker.sched_step, Worker.claimant_step.
  unfold mbind, mret, Worker.M_bind, Worker.M_ret, Worker.begin_immediate,
    Worker.execute_read, Worker.execute_write, Worker.commit,
    Worker.storage_call, Worker.raise, Worker.rollback.
  destruct (Worker.sql_select_pending db) as [[job_id uid]|] eqn:Hsel.
  - destruct (Worker.sql_select_job job_id (Worker.sql_update_claim wn job_id db))
      as [r|] eqn:Hre;
      repeat (cbn; rewrite ?Hsel, ?Hre); reflexivity.
  - repeat (cbn; rewrite ?Hsel); reflexivity.
Qed.

End Alone.

(** * Further properties of the code *)

(** ** Rounding to hundredths *)

Lemma round_hundredths_near (q : Q) :
  let k := round_hundredths q in
  let a := 100 * Qnum q in
  let d := Z.pos (Qden q) in
  2 * a - d <= 2 * k * d <= 2 * a + d /\
  (2 * k * d = 2 * a + d -> Z.even k = true) /\
  (2 * k * d = 2 * a - d -> Z.even k = true).
Proof.
  unfold round_hundredths. cbv zeta.
  set (a := 100 * Qnum q). set (d := Z.pos (Qden q)).
  assert (0 < d) as Hd by (unfold d; lia).
  pose proof (Z.div_mod a d ltac:(lia)) as Hdm.
  pose proof (Z.mod_pos_bound a d Hd) as Hr.
  set (f := a / d) in *. set (r := a mod d) in *.
  destruct (Z.ltb_spec (2 * r) d) as [Hlt|Hge].
  - repeat split; nia.
  - destruct (Z.ltb_spec d (2 * r)) as [Hgt|Hle].
    + repeat split; nia.
    + assert (2 * r = d) as Htie by lia.
      destruct (Z.even f) eqn:Hev.
      * repeat split; try nia. intros _. exact Hev.
      * repeat split; try nia. intros _.
        replace (f + 1) with (Z.succ f) by lia.
        rewrite Z.even_succ, <- Z.negb_even, Hev. reflexivity.
Qed.

Lemma round_hundredths_mono (p q : Q) :
  (p <= q)%Q -> round_hundredths p <= round_hundredths q.
Proof.
  intros Hle. unfold Qle in Hle.
  destruct (round_hundredths_near p) as ((_ & Hp) & Hpe & _).
  destruct (round_hundredths_near q) as ((Hq & _) & _ & Hqe).
  set (k1 := round_hundredths p) in *. set (k2 := round_hundredths q) in *.
  set (d1 := Z.pos (Qden p)) in *. set (d2 := Z.pos (Qden q)) in *.
  set (n1 := Qnum p) in *. set (n2 := Qnum q) in *.
  assert (0 < d1) as Hd1 by (unfold d1; lia).
  assert (0 < d2) as Hd2 by (unfold d2; lia).
  destruct (Z_le_gt_dec k1 k2) as [|Hgt]; [assumption|exfalso].
  assert ((2 * k1 - 1) * (d1 * d2) <= (2 * k2 + 1) * (d1 * d2)) as Hchain.
  { transitivity (2 * (100 * n1) * d2); [nia|].
    transitivity (2 * (100 * n2) * d1); nia. }
  assert (k1 = k2 + 1) as Hk by nia.
  assert (2 * k1 * d1 = 2 * (100 * n1) + d1) as He1 by nia.
  assert (2 * k2 * d2 = 2 * (100 * n2) - d2) as He2 by nia.
  specialize (Hpe He1). specialize (Hqe He2).
  rewrite Hk in Hpe. replace (k2 + 1) with (Z.succ k2) in Hpe by lia.
  rewrite Z.even_succ, <- Z.negb_even, Hqe in Hpe. discriminate.
Qed.

Lemma round2_mono (p q : Q) : (p <= q)%Q -> (round2 p <= round2 q)%Q.
Proof.
  intros Hle. pose proof (round_hundredths_mono p q Hle) as Hk.
  unfold round2. rewrite !Qred_correct. unfold Qle. simpl. lia.
Qed.

Lemma round2_proper (p q : Q) : (p == q)%Q -> round2 p = round2 q.
Proof.
  intros Heq. unfold round2. f_equal. f_equal.
  apply Z.le_antisymm; apply round_hundredths_mono; rewrite Heq; apply Qle_refl.
Qed.

Lemma round_hundredths_exact (k : Z) (q : Q) :
  (q == k # 100)%Q -> round_hundredths q = k.
Proof.
  unfold Qeq. simpl. intros Heq. unfold round_hundredths.
  assert (100 * Qnum q = k * Z.pos (Qden q)) as Ha by lia.
  rewrite Ha, Z.div_mul, Z.mod_mul by lia.
  destruct (Z.ltb_spec (2 * 0) (Z.pos (Qden q))); [reflexivity | lia].
Qed.

Lemma round2_idem (q : Q) : round2 (round2 q) = round2 q.
Proof.
  unfold round2 at 1 3.
  rewrite (round_hundredths_exact (round_hundredths q)); [reflexivity|].
  unfold round2. apply Qred_correct.
Qed.

(** ** Decay, badges and batches *)

Lemma clamp_mono (x y : Q) :
  (x <= y)%Q ->
  (Qmin 100 (Qmax 0 x) <= Qmax 0 (Qmin 100 y))%Q.
Proof.
  intros Hxy.
  destruct (Q.max_spec 0 x) as [[H1 E1]|[H1 E1]]; rewrite E1;
  destruct (Q.min_spec 100 y) as [[H2 E2]|[H2 E2]]; rewrite E2;
  destruct (Q.min_spec 100 x) as [[H3 E3]|[H3 E3]];
  destruct (Q.min_spec 100 0) as [[H4 E4]|[H4 E4]];
  rewrite ?E3, ?E4;
  destruct (Q.max_spec 0 100) as [[H5 E5]|[H5 E5]];
  destruct (Q.max_spec 0 y) as [[H6 E6]|[H6 E6]];
  rewrite ?E5, ?E6; lra.
Qed.

Lemma clamp_mono' (x y : Q) :
  (x <= y)%Q ->
  (Qmin 100 (Qmax 0 x) <= Qmin 100 (Qmax 0 y))%Q.
Proof.
  intros Hxy.
  destruct (Q.max_spec 0 x) as [[H1 E1]|[H1 E1]]; rewrite E1;
  destruct (Q.max_spec 0 y) as [[H2 E2]|[H2 E2]]; rewrite E2;
  destruct (Q.min_spec 100 y) as [[H3 E3]|[H3 E3]];
  destruct (Q.min_spec 100 x) as [[H4 E4]|[H4 E4]];
  destruct (Q.min_spec 100 0) as [[H5 E5]|[H5 E5]];
  rewrite ?E3, ?E4, ?E5; lra.
Qed.

Lemma clamp_inside (x : Q) :
  (0 <= x)%Q -> (x <= 100)%Q -> (Qmax 0 (Qmin 100 x) == x)%Q.
Proof.
  intros H0 H100.
  destruct (Q.min_spec 100 x) as [[H1 E1]|[H1 E1]]; rewrite E1;
  destruct (Q.max_spec 0 x) as [[H2 E2]|[H2 E2]];
  destruct (Q.max_spec 0 100) as [[H3 E3]|[H3 E3]];
  rewrite ?E2, ?E3; lra.
Qed.

Lemma inject_Z_le (a b : Z) : a <= b -> (inject_Z a <= inject_Z b)%Q.
Proof. intros Hab. unfold Qle. simpl. lia. Qed.

Section DecayMore.
Context `{PyLib}.
Import TrustScore.

(** The decay of a user with a last-active instant [t]. *)
Lemma apply_inactivity_decay_parsed now base la ref t :
  truthy la = true -> parse_iso_datetime la = Ok (Some t) ->
  apply_inactivity_decay now base la (Some ref)
  = Ok (round2 (Qmin 100 (Qmax 0 (base - inject_Z (timedelta_days (ref - t) / 7 * 5)))),
        inject_Z (timedelta_days (ref - t) / 7 * 5)).
Proof.
  intros Hla Hparse. unfold apply_inactivity_decay.
  rewrite Hla, Hparse. reflexivity.
Qed.

Lemma weeks_nonneg ref t : t <= ref -> 0 <= timedelta_days (ref - t) / 7 * 5.
Proof.
  intros Hle. unfold timedelta_days, DAY_US.
  assert (0 <= (ref - t) / 86400000000) by (apply Z.div_pos; lia).
  assert (0 <= (ref - t) / 86400000000 / 7) by (apply Z.div_pos; lia).
  lia.
Qed.

Lemma weeks_mono ref1 ref2 t :
  ref1 <= ref2 ->
  timedelta_days (ref1 - t) / 7 * 5 <= timedelta_days (ref2 - t) / 7 * 5.
Proof.
  intros Hle. unfold timedelta_days, DAY_US.
  assert ((ref1 - t) / 86400000000 <= (ref2 - t) / 86400000000)
    by (apply Z.div_le_mono; lia).
  assert ((ref1 - t) / 86400000000 / 7 <= (ref2 - t) / 86400000000 / 7)
    by (apply Z.div_le_mono; lia).
  lia.
Qed.

(** X1: for a user last active at or before the reference time the decay
    is not negative and the score is at most what the same base score
    gives with no last-active time at all. *)
Theorem past_activity_never_raises now base la ref t :
  truthy la = true -> parse_iso_datetime la = Ok (Some t) -> t <= ref ->
  exists final decay final0,
    apply_inactivity_decay now base la (Some ref) = Ok (final, decay) /\
    apply_inactivity_decay now base PNone (Some ref) = Ok (final0, 0%Q) /\
    (0 <= decay)%Q /\ (final <= final0)%Q.
Proof.
  intros Hla Hparse Hle.
  rewrite (apply_inactivity_decay_parsed now base la ref t Hla Hparse).
  eexists _, _, _. split; [reflexivity|]. split; [reflexivity|].
  pose proof (weeks_nonneg ref t Hle) as Hw.
  pose proof (inject_Z_le 0 _ Hw) as Hq. split; [exact Hq|].
  apply round2_mono. apply clamp_mono.
  change (inject_Z 0) with 0%Q in Hq. lra.
Qed.

(** X2: the later the reference time, the larger the decay and the lower
    the score. *)
Theorem longer_inactivity_lower_score now base la ref1 ref2 t :
  truthy la = true -> parse_iso_datetime la = Ok (Some t) -> ref1 <= ref2 ->
  exists final1 decay1 final2 decay2,
    apply_inactivity_decay now base la (Some ref1) = Ok (final1, decay1) /\
    apply_inactivity_decay now base la (Some ref2) = Ok (final2, decay2) /\
    (decay1 <= decay2)%Q /\ (final2 <= final1)%Q.
Proof.
  intros Hla Hparse Hle.
  rewrite !(apply_inactivity_decay_parsed now base la _ t Hla Hparse).
  eexists _, _, _, _. split; [reflexivity|]. split; [reflexivity|].
  pose proof (inject_Z_le _ _ (weeks_mono ref1 ref2 t Hle)) as Hq.
  split; [exact Hq|].
  apply round2_mono. apply clamp_mono'. lra.
Qed.

Lemma free_week_finite now base la ref t :
  truthy la = true -> parse_iso_datetime la = Ok (Some t) ->
  0 <= ref - t < 7 * DAY_US ->
  apply_inactivity_decay now base la (Some ref)
  = apply_inactivity_decay now base PNone (Some ref).
Proof.
  intros Hla Hparse Hweek.
  rewrite (apply_inactivity_decay_parsed now base la ref t Hla Hparse).
  assert (timedelta_days (ref - t) / 7 = 0) as Hzero.
  { unfold timedelta_days. apply Z.div_small. split.
    - apply Z.div_pos; [lia | unfold DAY_US; lia].
    - apply Z.div_lt_upper_bound; [unfold DAY_US; lia | lia]. }
  rewrite Hzero. unfold apply_inactivity_decay. simpl.
  f_equal. f_equal. apply round2_proper.
  destruct (Q.max_spec 0 (base - inject_Z 0)) as [[H1 E1]|[H1 E1]]; rewrite E1;
  destruct (Q.min_spec 100 base) as [[H2 E2]|[H2 E2]];
  destruct (Q.min_spec 100 (base - inject_Z 0)) as [[H3 E3]|[H3 E3]];
  destruct (Q.min_spec 100 0) as [[H4 E4]|[H4 E4]];
  change (inject_Z MAX_SCORE) with 100%Q;
  rewrite ?E2, ?E3, ?E4;
  destruct (Q.max_spec 0 100) as [[H5 E5]|[H5 E5]];
  destruct (Q.max_spec 0 base) as [[H6 E6]|[H6 E6]];
  rewrite ?E5, ?E6; change (inject_Z 0) with 0%Q in *; lra.
Qed.

(** On rationals Python's max and min are Qmax and Qmin. *)
Lemma py_max_finite a b :
  Floats.py_max (Floats.Finite a) (Floats.Finite b) = Floats.Finite (Qmax a b).
Proof.
  unfold Floats.py_max, Floats.flt, Qmax, GenericMinMax.gmax.
  destruct (a ?= b)%Q; reflexivity.
Qed.

Lemma py_min_finite a b :
  Floats.py_min (Floats.Finite a) (Floats.Finite b) = Floats.Finite (Qmin a b).
Proof.
  unfold Floats.py_min, Floats.flt, Qmin, GenericMinMax.gmin.
  rewrite <- (Qcompare_antisym a b).
  destruct (a ?= b)%Q; reflexivity.
Qed.

(** On a finite base score the decay for floats is the one for
    rationals. *)
Lemma float_decay_finite now q la ref :
  Floats.apply_inactivity_decay now (Floats.Finite q) la ref
  = match apply_inactivity_decay now q la ref with
    | Ok (final, decay) => Ok (Floats.Finite final, decay)
    | Raise e => Raise e
    end.
Proof.
  unfold Floats.apply_inactivity_decay, apply_inactivity_decay.
  destruct (negb (truthy la)).
  - rewrite py_min_finite, py_max_finite. reflexivity.
  - destruct (parse_iso_datetime la) as [[last|]|e]; simpl; try reflexivity.
    rewrite py_max_finite, py_min_finite. reflexivity.
Qed.

(** X3: fewer than seven whole days of inactivity cost nothing, unless
    the base score is nan: for every other base score, finite or
    infinite, the result is the one for a user with no last-active time;
    for nan the score is 0 where the call without a last-active time
    gives 100. *)
Theorem first_week_is_free now base la ref t :
  truthy la = true -> parse_iso_datetime la = Ok (Some t) ->
  0 <= ref - t < 7 * DAY_US ->
  (base <> Floats.NaN ->
   Floats.apply_inactivity_decay now base la (Some ref)
   = Floats.apply_inactivity_decay now base PNone (Some ref)) /\
  (base = Floats.NaN ->
   Floats.apply_inactivity_decay now base la (Some ref)
   = Ok (Floats.Finite 0, 0%Q) /\
   Floats.apply_inactivity_decay now base PNone (Some ref)
   = Ok (Floats.Finite 100, 0%Q)).
Proof.
  intros Hla Hparse Hweek.
  assert (timedelta_days (ref - t) / 7 = 0) as Hzero.
  { unfold timedelta_days. apply Z.div_small. split.
    - apply Z.div_pos; [lia | unfold DAY_US; lia].
    - apply Z.div_lt_upper_bound; [unfold DAY_US; lia | lia]. }
  assert (forall b, b <> Floats.Finite 0 -> (forall q, b <> Floats.Finite q) ->
            Floats.apply_inactivity_decay now b la (Some ref)
            = Ok (Floats.fround2
                    (Floats.py_min (Floats.Finite 100)
                       (Floats.py_max (Floats.Finite 0) b)), 0%Q)) as Hrun.
  { intros b _ Hb. unfold Floats.apply_inactivity_decay.
    rewrite Hla, Hparse. cbn [negb mbind result_bind default from_option id].
    rewrite Hzero. destruct b as [q| | |]; [exfalso; exact (Hb q eq_refl) | ..];
      reflexivity. }
  split.
  - intros Hnan. destruct base as [q| | |]; [| | |contradiction].
    + rewrite !float_decay_finite.
      rewrite (free_week_finite now q la ref t Hla Hparse Hweek). reflexivity.
    + rewrite Hrun by discriminate. reflexivity.
    + rewrite Hrun by discriminate. reflexivity.
  - intros ->. rewrite Hrun by discriminate. split; reflexivity.
Qed.

End DecayMore.

Section EngineMore.
Context `{PyLib}.
Import TrustScore.

Lemma raw_total_shape now user ref r :
  compute_trust_score now user ref = Ok r ->
  (0 <= raw_total r)%Q /\ (raw_total r <= 100)%Q /\ round2 (raw_total r) = raw_total r.
Proof.
  intros Hr.
  destruct (compute_trust_score_Ok _ _ _ _ Hr) as (bd & _ & _ & _ & Hraw & _).
  rewrite Hraw. split; [|split].
  - apply (round2_between 0 100); apply (clamp_between 0 100); lia.
  - apply (round2_between 0 100); apply (clamp_between 0 100); lia.
  - apply round2_idem.
Qed.

(** X4: in a result of compute_trust_score the final score equals the raw
    total when last_active_at is absent or empty, and is at most the raw
    total, with a decay that is not negative, when the user was last
    active at or before the reference time. *)
Theorem final_score_at_most_raw now user ref r :
  compute_trust_score now user ref = Ok r ->
  (truthy (dict_get_none user "last_active_at") = false ->
   final_score r = raw_total r /\ decay_applied r = 0%Q) /\
  (forall t,
     truthy (dict_get_none user "last_active_at") = true ->
     parse_iso_datetime (dict_get_none user "last_active_at") = Ok (Some t) ->
     t <= default now ref ->
     (final_score r <= raw_total r)%Q /\ (0 <= decay_applied r)%Q).
Proof.
  intros Hr.
  destruct (raw_total_shape _ _ _ _ Hr) as (H0 & H100 & Hidem).
  destruct (compute_trust_score_Ok _ _ _ _ Hr) as (bd & _ & _ & _ & _ & Hd & _).
  split.
  - intros Hfalsy. unfold apply_inactivity_decay in Hd. rewrite Hfalsy in Hd.
    simpl in Hd. injection Hd as Hf Hdec. split; [|symmetry; exact Hdec].
    rewrite <- Hf.
    rewrite (round2_proper _ (raw_total r)) by (apply clamp_inside; assumption).
    exact Hidem.
  - intros t Htruthy Hparse Hle.
    rewrite (apply_inactivity_decay_parsed now _ _ _ t Htruthy Hparse) in Hd.
    injection Hd as Hf Hdec.
    pose proof (inject_Z_le 0 _ (weeks_nonneg _ t Hle)) as Hq.
    change (inject_Z 0) with 0%Q in Hq.
    split; [|rewrite <- Hdec; exact Hq].
    rewrite <- Hf.
    apply Qle_trans with (round2 (raw_total r));
      [apply round2_mono | rewrite Hidem; apply Qle_refl].
    set (d := inject_Z (timedelta_days (default now ref - t) / 7 * 5)) in *.
    destruct (Q.max_spec 0 (raw_total r - d)) as [[H1 E1]|[H1 E1]]; rewrite E1;
    destruct (Q.min_spec 100 (raw_total r - d)) as [[H2 E2]|[H2 E2]];
    destruct (Q.min_spec 100 0) as [[H3 E3]|[H3 E3]];
    rewrite ?E2, ?E3; lra.
Qed.

Lemma Qle_bool_trans (a b : Z) (s : Q) :
  a <= b -> Qle_bool (inject_Z b) s = true -> Qle_bool (inject_Z a) s = true.
Proof.
  intros Hab Hb. apply Qle_bool_iff in Hb. apply Qle_bool_iff.
  eapply Qle_trans; [apply inject_Z_le; exact Hab | exact Hb].
Qed.

(** X5: whoever has the Verified User badge has the Trusted Member badge
    too; a final score below 60 earns no badge; without a last_active_at
    there is no Active Dater badge. *)
Theorem badge_rules now r user ref bs :
  assign_badges now r user ref = Ok bs ->
  ("Verified User" ∈ bs -> "Trusted Member" ∈ bs) /\
  ((final_score r < 60)%Q -> bs = []) /\
  (truthy (dict_get_none user "last_active_at") = false -> "Active Dater" ∉ bs).
Proof.
  unfold assign_badges. intros Hb. inv_bind Hb. injection Hb as <-.
  pose proof (Qle_bool_trans 70 85 (final_score r) ltac:(lia)) as H85.
  pose proof (Qle_bool_trans 60 70 (final_score r) ltac:(lia)) as H70.
  change (inject_Z VERIFIED_MIN_SCORE) with (inject_Z 85).
  change (inject_Z TRUSTED_MIN_SCORE) with (inject_Z 70).
  change (inject_Z ACTIVE_MIN_SCORE) with (inject_Z 60).
  assert ((final_score r < 60)%Q -> Qle_bool (inject_Z 60) (final_score r) = false)
    as Hlow.
  { intros Hlt.
    destruct (Qle_bool (inject_Z 60) (final_score r)) eqn:Hq; [|reflexivity].
    apply Qle_bool_iff in Hq. change (inject_Z 60) with 60%Q in Hq. lra. }
  assert (truthy (dict_get_none user "last_active_at") = false -> v = false)
    as Hrecent.
  { intros Hfalsy. rewrite Hfalsy in Hv. injection Hv as <-. reflexivity. }
  destruct (Qle_bool (inject_Z 85) (final_score r)) eqn:Q85;
    destruct (Qle_bool (inject_Z 70) (final_score r)) eqn:Q70;
    destruct (Qle_bool (inject_Z 60) (final_score r)) eqn:Q60;
    try (specialize (H85 eq_refl); discriminate);
    try (specialize (H70 eq_refl); discriminate);
    destruct (truthy (dict_get_none user "id_verified")), v; simpl;
    (split; [|split];
     [ apply (bool_decide_unpack _); vm_compute; exact I
     | intros Hx; specialize (Hlow Hx); first [discriminate | reflexivity]
     | intros Hx; specialize (Hrecent Hx);
       first [discriminate | apply (bool_decide_unpack _); vm_compute; exact I] ]).
Qed.

(** X6: the profile score depends on the photo count only through
    min(photos, 6) and on bio and interests only through their truth
    value; an interests count of 1 scores like one of 5. *)
Theorem profile_score_inputs u1 u2 n1 n2 :
  int_field u1 "photos" = Ok n1 ->
  int_field u2 "photos" = Ok n2 ->
  Z.min n1 6 = Z.min n2 6 ->
  truthy (dict_get_none u1 "bio") = truthy (dict_get_none u2 "bio") ->
  truthy (dict_get_none u1 "interests") = truthy (dict_get_none u2 "interests") ->
  compute_profile_score u1 = compute_profile_score u2.
Proof.
  intros H1 H2 Hmin Hbio Hint. unfold compute_profile_score, PHOTOS_CAP.
  rewrite H1, H2. simpl. rewrite Hmin, Hbio, Hint. reflexivity.
Qed.

(** X7: parse_iso_datetime gives None for None only, raises ValueError
    for every other value that is not a string, and raises nothing but
    ValueError. *)
Theorem parse_iso_datetime_outcomes v :
  (parse_iso_datetime v = Ok None <-> v = PNone) /\
  (v <> PNone -> (forall s, v <> PStr s) -> parse_iso_datetime v = Raise ValueError) /\
  (forall e, parse_iso_datetime v = Raise e -> e = ValueError).
Proof.
  split; [|split].
  - split; [|intros ->; reflexivity].
    destruct v as [|b|z|q| |s|n]; simpl; try discriminate; [reflexivity|].
    destruct (if endswith s "Z" then _ else _); [discriminate|].
    destruct (strptime_ymd_utc s); discriminate.
  - intros Hnone Hstr.
    destruct v as [|b|z|q| |s|n]; simpl; try reflexivity;
      [contradiction | exfalso; exact (Hstr s eq_refl)].
  - intros e. destruct v as [|b|z|q| |s|n]; simpl; try discriminate;
      try (intros [= <-]; reflexivity).
    destruct (if endswith s "Z" then _ else _); [discriminate|].
    destruct (strptime_ymd_utc s); [discriminate|]. intros [= <-]. reflexivity.
Qed.

End EngineMore.

Section BatchProps.
Context `{PyLib}.
Import TrustScore Batch.


Lemma compute_batch_Raise now users ref e :
  compute_batch now users ref = Raise e ->
  exists pre u post,
    users = pre ++ u :: post /\
    Forall (fun u => returns (compute_trust_score now u (Some ref))) pre /\
    compute_trust_score now u (Some ref) = Raise e.
Proof.
  induction users as [|u users IH]; simpl; [discriminate|].
  destruct (compute_trust_score now u (Some ref)) as [r|e'] eqn:Hu; simpl.
  - destruct (compute_batch now users ref) as [rs|e''] eqn:Hrest; simpl;
      [discriminate|].
    intros [= ->]. destruct (IH eq_refl) as (pre & u' & post & -> & Hpre & Hu').
    exists (u :: pre), u', post. repeat split; [|assumption].
    constructor; [|assumption]. exists r. exact Hu.
  - intros [= ->]. exists [], u, users. repeat split; [constructor | assumption].
Qed.



End BatchProps.

(** ** claim_job under storage failures *)

Section ClaimOutcomes.
Import Worker.
#[local] Arguments sql_select_job : simpl never.
#[local] Arguments sql_select_pending : simpl never.
#[local] Arguments sql_update_claim : simpl never.

Ltac open_claim :=
  unfold claim_job, try_except, mbind, mret, M_bind, M_ret, begin_immediate,
    execute_read, execute_write, commit, storage_call, raise, rollback.

Ltac next_fault :=
  match goal with
  | |- context [match ?l with [] => _ | _ :: _ => _ end] =>
      is_var l; destruct l as [|[|] l]; cbn
  end.

Lemma claim_job_idle_run wn db fs :
  sql_select_pending db = None ->
  exists fs',
    claim_job wn {| disk := db; tx := None; faults := fs |}
    = (Ok None, {| disk := db; tx := None; faults := fs' |}).
Proof.
  intros Hsel. open_claim. cbn.
  repeat (first [next_fault | rewrite Hsel; cbn]);
    eexists; reflexivity.
Qed.

Lemma reselect_exists wn db job_id uid :
  sql_select_pending db = Some (job_id, uid) ->
  exists c, sql_select_job job_id (sql_update_claim wn job_id db) = Some c /\
            c_id c = job_id.
Proof.
  intros Hsel.
  destruct (sql_select_pending_oldest db job_id uid Hsel) as (m & Hin & _ & Hid & _).
  unfold sql_select_job, sql_update_claim, update_where_id. simpl.
  set (upd := fun r : job => if id r =? job_id then claim_row wn r else r).
  assert (upd m ∈ upd <$> recompute_jobs db) as Hin'
    by (apply list_elem_of_fmap; eauto).
  assert (id (upd m) = job_id) as Hid'
    by (unfold upd; destruct (id m =? job_id); simpl; exact Hid).
  destruct (list_find_elem_of (fun r => id r = job_id) _ _ Hin' Hid') as [[p x] Hfind].
  rewrite Hfind. simpl. eexists. split; [reflexivity|]. simpl.
  apply list_find_Some in Hfind as (_ & Hx & _). exact Hx.
Qed.

Lemma claim_job_cases wn db fs :
  exists r fs' db',
    claim_job wn {| disk := db; tx := None; faults := fs |}
    = (Ok r, {| disk := db'; tx := None; faults := fs' |}) /\
    match r with
    | Some c =>
        exists uid,
          sql_select_pending db = Some (c_id c, uid) /\
          db' = sql_update_claim wn (c_id c) db /\
          sql_select_job (c_id c) db' = Some c
    | None =>
        db' = db \/
        exists job_id uid,
          sql_select_pending db = Some (job_id, uid) /\
          db' = sql_update_claim wn job_id db
    end.
Proof.
  destruct (sql_select_pending db) as [[job_id uid]|] eqn:Hsel.
  - destruct (reselect_exists wn db job_id uid Hsel) as (c & Hc & Hid).
    subst job_id. open_claim. cbn.
    repeat (first [next_fault | rewrite Hsel; cbn | rewrite Hc; cbn]);
      eexists _, _, _; (split; [reflexivity|]); cbn;
      first [ left; reflexivity
            | right; eexists _, _; split; reflexivity
            | eexists; repeat split; assumption ].
  - destruct (claim_job_idle_run wn db fs Hsel) as [fs' Hnone].
    exists None, fs', db. split; [exact Hnone | left; reflexivity].
Qed.

(** The rows of the job table after the UPDATE of claim_job. *)
Lemma claimed_rows wn job_id db p r :
  recompute_jobs db !! p = Some r ->
  recompute_jobs (sql_update_claim wn job_id db) !! p
  = Some (if id r =? job_id
          then {| id := id r; user_id := user_id r; processing := 1;
                  processed := processed r; attempts := attempts r + 1;
                  processor := Some wn; enqueued_at := enqueued_at r;
                  processed_at := processed_at r; last_error := last_error r |}
          else r).
Proof.
  intros Hp. unfold sql_update_claim, update_where_id. simpl.
  rewrite list_lookup_fmap, Hp. simpl.
  destruct (id r =? job_id); reflexivity.
Qed.

(** X11: when the SELECT that re-reads the row fails after the claim is
    committed, claim_job returns None although a pending job has been
    claimed: in the committed table the rows with the selected identifier
    have processing = 1, this worker as processor and attempts one
    higher; everything else is as before. *)
Theorem claim_lost_on_failed_reread wn db job_id uid fs :
  sql_select_pending db = Some (job_id, uid) ->
  exists db',
    claim_job wn {| disk := db; tx := None;
                    faults := false :: false :: false :: false :: true :: fs |}
    = (Ok None, {| disk := db'; tx := None; faults := fs |}) /\
    (exists m, m ∈ recompute_jobs db /\ id m = job_id /\ is_pending m = true) /\
    (forall p r,
       recompute_jobs db !! p = Some r ->
       recompute_jobs db' !! p
       = Some (if id r =? job_id
               then {| id := id r; user_id := user_id r; processing := 1;
                       processed := processed r; attempts := attempts r + 1;
                       processor := Some wn; enqueued_at := enqueued_at r;
                       processed_at := processed_at r; last_error := last_error r |}
               else r)) /\
    users db' = users db /\ trust_scores db' = trust_scores db /\
    trust_score_audit db' = trust_score_audit db.
Proof.
  intros Hsel. exists (sql_update_claim wn job_id db).
  split; [|split; [|split; [|repeat split]]].
  - open_claim. cbn. rewrite Hsel. cbn. reflexivity.
  - destruct (sql_select_pending_oldest db job_id uid Hsel) as (m & Hin & Hpend & Hid & _).
    exists m. repeat split; assumption.
  - apply claimed_rows.
Qed.

Lemma reselect_after_claim wn db m :
  NoDup (id <$> recompute_jobs db) -> m ∈ recompute_jobs db ->
  sql_select_job (id m) (sql_update_claim wn (id m) db)
  = Some (claimed_of (claim_row wn m)).
Proof.
  intros Hkey Hin.
  destruct (sql_select_job _ _) as [c|] eqn:Hc.
  - unfold sql_select_job, sql_update_claim, update_where_id in Hc. simpl in Hc.
    destruct (list_find _ _) as [[p x]|] eqn:Hfind; [|discriminate].
    injection Hc as <-. simpl.
    apply list_find_Some in Hfind as (Hlook & Hx & _).
    apply list_lookup_fmap_Some in Hlook as (r & -> & Hr).
    apply list_elem_of_lookup_2 in Hr.
    destruct (Z.eqb_spec (id r) (id m)) as [Heq|Hne].
    + rewrite (key_unique _ r m Hkey Hr Hin Heq). reflexivity.
    + contradiction.
  - exfalso. unfold sql_select_job in Hc.
    destruct (list_find _ _) as [[p x]|] eqn:Hfind; [discriminate|].
    apply list_find_None in Hfind.
    unfold sql_update_claim, update_where_id in Hfind. simpl in Hfind.
    rewrite Forall_fmap in Hfind.
    rewrite Forall_forall in Hfind. apply (Hfind m Hin). simpl.
    rewrite Z.eqb_refl. reflexivity.
Qed.

Lemma claim_job_calm_cases wn db job_id uid :
  NoDup (id <$> recompute_jobs db) ->
  sql_select_pending db = Some (job_id, uid) ->
  exists m,
    m ∈ recompute_jobs db /\ is_pending m = true /\ id m = job_id /\
    (forall j, j ∈ recompute_jobs db -> is_pending j = true ->
               enqueued_at m <= enqueued_at j) /\
    claim_job wn (Loop.calm db)
    = (Ok (Some {| c_id := job_id; c_user_id := uid;
                   c_enqueued_at := enqueued_at m;
                   c_attempts := attempts m + 1 |}),
       Loop.calm (sql_update_claim wn job_id db)) /\
    (forall p r, recompute_jobs db !! p = Some r ->
       recompute_jobs (sql_update_claim wn job_id db) !! p
       = Some (if id r =? job_id then claim_row wn m else r)).
Proof.
  intros Hkey Hsel.
  destruct (sql_select_pending_oldest db job_id uid Hsel)
    as (m & Hin & Hpend & Hid & Huid & Hmin).
  exists m. repeat split; try assumption.
  - pose proof (reselect_after_claim wn db m Hkey Hin) as Hre.
    rewrite Hid in Hre. unfold Loop.calm. open_claim. cbn.
    rewrite Hsel. cbn. rewrite Hre. cbn. subst. reflexivity.
  - intros p r Hp. unfold sql_update_claim, update_where_id. simpl.
    rewrite list_lookup_fmap, Hp. simpl.
    destruct (Z.eqb_spec (id r) job_id) as [Heq|_]; [|reflexivity].
    rewrite (key_unique _ r m Hkey (list_elem_of_lookup_2 _ _ _ Hp) Hin);
      [reflexivity | congruence].
Qed.

Lemma not_pending_after_claim wn db job_id job_id' uid' :
  sql_select_pending (sql_update_claim wn job_id db) = Some (job_id', uid') ->
  job_id' <> job_id.
Proof.
  intros Hsel Heq. subst job_id'.
  destruct (sql_select_pending_oldest _ _ _ Hsel) as (m & Hin & Hpend & Hid & _).
  unfold sql_update_claim, update_where_id in Hin. simpl in Hin.
  apply list_elem_of_fmap in Hin as (r & -> & _).
  destruct (Z.eqb_spec (id r) job_id) as [_|Hne]; [|contradiction].
  unfold is_pending in Hpend. simpl in Hpend.
  apply andb_true_iff in Hpend as [_ Hp]. discriminate.
Qed.

(** X13: a job that claim_job has returned is not returned again: the
    next call, by any worker and under any storage failures, returns
    None or a job with another identifier. *)
Theorem claimed_job_not_claimed_again wn wn' db fs c w1 fs1 :
  claim_job wn {| disk := db; tx := None; faults := fs |} = (Ok (Some c), w1) ->
  forall c' w2,
    claim_job wn' {| disk := disk w1; tx := tx w1; faults := fs1 |}
    = (Ok (Some c'), w2) ->
    c_id c' <> c_id c.
Proof.
  intros H1 c' w2 H2.
  destruct (claim_job_cases wn db fs) as (r & fs' & db' & Hrun & Hr).
  rewrite H1 in Hrun. injection Hrun as <- ->. simpl in H2.
  destruct Hr as (uid & _ & -> & _).
  destruct (claim_job_cases wn' (sql_update_claim wn (c_id c) db) fs1)
    as (r2 & fs2 & db2 & Hrun2 & Hr2).
  rewrite H2 in Hrun2. injection Hrun2 as <- _.
  destruct Hr2 as (uid' & Hsel' & _).
  exact (not_pending_after_claim _ _ _ _ _ Hsel').
Qed.

(** X9: whichever storage calls fail, claim_job raises nothing and ends
    with no transaction open; it returns a job only when that job was
    pending and its claim is committed, and when it returns None the
    committed tables are unchanged or hold the committed claim of a job
    that was pending. *)
Theorem claim_job_outcomes wn db fs :
  exists r fs' db',
    claim_job wn {| disk := db; tx := None; faults := fs |}
    = (Ok r, {| disk := db'; tx := None; faults := fs' |}) /\
    match r with
    | Some c =>
        exists uid,
          sql_select_pending db = Some (c_id c, uid) /\
          db' = sql_update_claim wn (c_id c) db /\
          sql_select_job (c_id c) db' = Some c
    | None =>
        db' = db \/
        exists job_id uid,
          sql_select_pending db = Some (job_id, uid) /\
          db' = sql_update_claim wn job_id db
    end.
Proof. exact (claim_job_cases wn db fs). Qed.

(** X10: with no pending job claim_job returns None and leaves the
    committed tables as they are, whichever storage calls fail. *)
Theorem claim_job_nothing_pending wn db fs :
  sql_select_pending db = None ->
  exists fs',
    claim_job wn {| disk := db; tx := None; faults := fs |}
    = (Ok None, {| disk := db; tx := None; faults := fs' |}).
Proof. exact (claim_job_idle_run wn db fs). Qed.

(** X12: on a connection where nothing fails, if jobs are pending
    claim_job returns one of them than which none was enqueued earlier,
    with its attempt counter incremented; in the committed table exactly
    that row has changed: processing = 1, this worker as processor,
    attempts one higher. *)
Theorem claim_job_calm wn db job_id uid :
  NoDup (id <$> recompute_jobs db) ->
  sql_select_pending db = Some (job_id, uid) ->
  exists m db',
    m ∈ recompute_jobs db /\ is_pending m = true /\
    id m = job_id /\ user_id m = uid /\
    (forall j, j ∈ recompute_jobs db -> is_pending j = true ->
               enqueued_at m <= enqueued_at j) /\
    claim_job wn (Loop.calm db)
    = (Ok (Some {| c_id := job_id; c_user_id := uid;
                   c_enqueued_at := enqueued_at m;
                   c_attempts := attempts m + 1 |}),
       Loop.calm db') /\
    (forall p r,
       recompute_jobs db !! p = Some r ->
       recompute_jobs db' !! p
       = Some (if id r =? job_id
               then {| id := job_id; user_id := uid; processing := 1;
                       processed := 0; attempts := attempts m + 1;
                       processor := Some wn; enqueued_at := enqueued_at m;
                       processed_at := processed_at m;
                       last_error := last_error m |}
               else r)) /\
    users db' = users db /\ trust_scores db' = trust_scores db /\
    trust_score_audit db' = trust_score_audit db.
Proof.
  intros Hkey Hsel.
  destruct (claim_job_calm_cases wn db job_id uid Hkey Hsel)
    as (m & Hin & Hpend & Hid & Hmin & Hrun & _).
  destruct (sql_select_pending_oldest db job_id uid Hsel)
    as (m' & Hin' & _ & Hid' & Huid' & _).
  assert (m' = m) as -> by (apply (key_unique _ m' m Hkey Hin' Hin); congruence).
  exists m, (sql_update_claim wn job_id db).
  repeat split; try assumption.
  intros p r Hp. rewrite (claimed_rows wn job_id db p r Hp).
  destruct (Z.eqb_spec (id r) job_id) as [Heq|_]; [|reflexivity].
  rewrite (key_unique _ r m Hkey (list_elem_of_lookup_2 _ _ _ Hp) Hin)
    by congruence.
  unfold is_pending in Hpend. apply andb_true_iff in Hpend as [Hzero _].
  apply Z.eqb_eq in Hzero. rewrite Hzero, Hid, Huid'. reflexivity.
Qed.

End ClaimOutcomes.

(** ** One turn of the worker when nothing fails *)

Section CalmTurn.
Context `{PyLib}.
Import Worker Loop.
#[local] Arguments sql_select_job : simpl never.
#[local] Arguments sql_select_pending : simpl never.
#[local] Arguments sql_update_claim : simpl never.
#[local] Arguments sql_mark_done : simpl never.
#[local] Arguments sql_mark_failed : simpl never.
#[local] Arguments sql_upsert_score : simpl never.
#[local] Arguments sql_insert_audit : simpl never.
#[local] Arguments TrustScore.compute_trust_score : simpl never.
#[local] Arguments fetched_dict : simpl never.

Lemma fetch_user_as_dict_calm uid db :
  fetch_user_as_dict uid (calm db)
  = (Ok (fetched_dict uid <$> users db !! uid), calm db).
Proof. reflexivity. Qed.

Lemma claim_job_calm_run wn db job_id uid :
  NoDup (id <$> recompute_jobs db) ->
  sql_select_pending db = Some (job_id, uid) ->
  exists c,
    c_id c = job_id /\ c_user_id c = uid /\
    claim_job wn (calm db) = (Ok (Some c), calm (sql_update_claim wn job_id db)).
Proof.
  intros Hkey Hsel.
  destruct (claim_job_calm_cases wn db job_id uid Hkey Hsel)
    as (m & _ & _ & _ & _ & Hrun & _).
  eexists. split; [|split; [|exact Hrun]]; reflexivity.
Qed.

Lemma users_after_claim wn job_id db :
  users (sql_update_claim wn job_id db) = users db.
Proof. reflexivity. Qed.

Ltac start_turn wn Hkey Hsel :=
  let c := fresh "c" in
  let Hid := fresh "Hid" in
  let Huid := fresh "Huid" in
  let Hrun := fresh "Hrun" in
  destruct (claim_job_calm_run wn _ _ _ Hkey Hsel) as (c & Hid & Huid & Hrun);
  unfold worker_iteration; unfold mbind at 1; unfold M_bind at 1;
  rewrite Hrun; cbv beta iota; rewrite Hid, Huid;
  unfold try_except at 1; unfold mbind at 1; unfold M_bind at 1;
  rewrite fetch_user_as_dict_calm, users_after_claim.

Lemma rows_marked_done job_id now db r' :
  r' ∈ recompute_jobs (sql_mark_done job_id now db) -> id r' = job_id ->
  processed r' = 1 /\ processing r' = 0.
Proof.
  unfold sql_mark_done, update_where_id. simpl. intros Hin Hid.
  apply list_elem_of_fmap in Hin as (r & -> & Hr).
  destruct (Z.eqb_spec (id r) job_id); [split; reflexivity | contradiction].
Qed.

Lemma rows_marked_failed job_id err now db r' :
  r' ∈ recompute_jobs (sql_mark_failed job_id err now db) -> id r' = job_id ->
  processed r' = 2 /\ processing r' = 0 /\ last_error r' = Some err.
Proof.
  unfold sql_mark_failed, update_where_id. simpl. intros Hin Hid.
  apply list_elem_of_fmap in Hin as (r & -> & Hr).
  destruct (Z.eqb_spec (id r) job_id); [repeat split | contradiction].
Qed.

Ltac run_calm :=
  unfold upsert_trust_score_and_audit, mark_job_done, mark_job_failed,
    try_except, lift, mbind, mret, M_bind, M_ret, execute_write, commit,
    storage_call, raise, calm; cbn.

(** The identifier AUTOINCREMENT gives the next audit row has not been
    used before. *)
Lemma largest_audit_id_spec db :
  match largest_audit_id db with
  | Some l =>
      (exists a, a ∈ trust_score_audit db /\ audit_id a = l) /\
      Forall (fun a => audit_id a <= l) (trust_score_audit db)
  | None => trust_score_audit db = []
  end.
Proof.
  unfold largest_audit_id.
  induction (trust_score_audit db) as [|a l IH]; simpl; [reflexivity|].
  destruct (foldr _ None l) as [m|]; simpl.
  - destruct IH as [(b & Hb & Hbm) Hle]. split.
    + destruct (Z.max_spec (audit_id a) m) as [[_ ->]|[_ ->]].
      * exists b. split; [right; exact Hb | exact Hbm].
      * exists a. split; [left | reflexivity].
    + constructor; [lia|].
      eapply Forall_impl; [exact Hle|]. intros x Hx. simpl in Hx. lia.
  - subst l. split.
    + exists a. split; [left | reflexivity].
    + constructor; [lia | constructor].
Qed.

Lemma next_audit_id_fresh db :
  audit_room db ->
  exists n,
    next_audit_id db = Some n /\
    audit_seq db < n /\
    Forall (fun a => audit_id a < n) (trust_score_audit db) /\
    (0 <= audit_seq db ->
     Forall (fun a => audit_id a <= audit_seq db) (trust_score_audit db) ->
     n = audit_seq db + 1).
Proof.
  intros [Hseq Hids]. unfold next_audit_id.
  destruct (decide (MAX_ROWID <= audit_seq db)) as [Hfull|_]; [lia|].
  pose proof (largest_audit_id_spec db) as Hlargest.
  destruct (largest_audit_id db) as [l|].
  - destruct Hlargest as [(a & Ha & Hal) Hle].
    destruct (decide (MAX_ROWID <= l)) as [Hfull|_].
    { rewrite Forall_forall in Hids. specialize (Hids a Ha). simpl in Hids. lia. }
    eexists. split; [reflexivity|]. split; [lia|]. split.
    + eapply Forall_impl; [exact Hle|]. intros x Hx. simpl in Hx. lia.
    + intros _ Hinstep. rewrite Forall_forall in Hinstep.
      specialize (Hinstep a Ha). simpl in Hinstep. lia.
  - eexists. split; [reflexivity|]. split; [lia|]. split.
    + rewrite Hlargest. constructor.
    + intros Hpos _. lia.
Qed.

Lemma sql_upsert_score_Ok uid sc now db :
  is_Some (users db !! uid) ->
  sql_upsert_score uid sc now db
  = Ok {| users := users db; recompute_jobs := recompute_jobs db;
          trust_scores :=
            <[uid := {| score := sc; updated_at := now |}]> (trust_scores db);
          trust_score_audit := trust_score_audit db;
          audit_seq := audit_seq db |}.
Proof.
  intros [row Hrow]. unfold sql_upsert_score. rewrite Hrow.
  destruct (trust_scores db !! uid); reflexivity.
Qed.

Lemma sql_insert_audit_Ok uid sc d now db n :
  next_audit_id db = Some n -> is_Some (users db !! uid) ->
  sql_insert_audit uid sc d now db
  = Ok {| users := users db; recompute_jobs := recompute_jobs db;
          trust_scores := trust_scores db;
          trust_score_audit :=
            trust_score_audit db ++
              [ {| audit_id := n; audit_user := uid; new_score := sc;
                   details := d; computed_at := now |} ];
          audit_seq := n |}.
Proof.
  intros Hn [row Hrow]. unfold sql_insert_audit. rewrite Hn, Hrow. reflexivity.
Qed.

(** The two INSERTs of upsert_trust_score_and_audit when nothing fails
    and the user is in the users table. *)
Lemma upsert_calm uid sc d now db :
  is_Some (users db !! uid) -> audit_room db ->
  exists n,
    next_audit_id db = Some n /\
    upsert_trust_score_and_audit uid sc d now (calm db)
    = (Ok tt,
       calm {| users := users db; recompute_jobs := recompute_jobs db;
               trust_scores :=
                 <[uid := {| score := sc; updated_at := now |}]> (trust_scores db);
               trust_score_audit :=
                 trust_score_audit db ++
                   [ {| audit_id := n; audit_user := uid; new_score := sc;
                        details := d; computed_at := now |} ];
               audit_seq := n |}).
Proof.
  intros Huser Hroom.
  destruct (next_audit_id_fresh db Hroom) as (n & Hn & _).
  exists n. split; [exact Hn|].
  unfold upsert_trust_score_and_audit, mbind, M_bind, execute_checked,
    storage_call, commit, calm. cbn.
  rewrite (sql_upsert_score_Ok uid sc now db Huser). cbn.
  rewrite (sql_insert_audit_Ok uid sc d now _ n); [reflexivity | exact Hn | exact Huser].
Qed.

Lemma audit_room_after_claim wn job_id db :
  audit_room db -> audit_room (sql_update_claim wn job_id db).
Proof. intros Hroom. exact Hroom. Qed.

(** X14: when the user of the claimed job is no longer in the users
    table, the turn marks the job done and writes neither a score nor an
    audit entry. *)
Theorem turn_for_vanished_user wn now str_e db job_id uid :
  NoDup (id <$> recompute_jobs db) ->
  sql_select_pending db = Some (job_id, uid) ->
  users db !! uid = None ->
  worker_iteration wn now str_e (calm db)
  = (Ok (Finished job_id),
     calm (sql_mark_done job_id now (sql_update_claim wn job_id db))) /\
  trust_scores (sql_mark_done job_id now (sql_update_claim wn job_id db))
    = trust_scores db /\
  trust_score_audit (sql_mark_done job_id now (sql_update_claim wn job_id db))
    = trust_score_audit db /\
  (forall r',
     r' ∈ recompute_jobs (sql_mark_done job_id now (sql_update_claim wn job_id db)) ->
     id r' = job_id -> processed r' = 1 /\ processing r' = 0).
Proof.
  intros Hkey Hsel Hgone.
  split; [|split; [reflexivity | split; [reflexivity | apply rows_marked_done]]].
  start_turn wn Hkey Hsel. rewrite Hgone. reflexivity.
Qed.

(** X15: when the user is scored with a final score other than zero and
    the audit table has identifiers left, the turn replaces the user's
    score row by that score, appends one audit entry with the same score
    and the breakdown under an identifier never used before, and marks
    the job done; the score rows of other users and the users table stay
    as they are. *)
Theorem turn_persists_score wn now str_e db job_id uid row r :
  NoDup (id <$> recompute_jobs db) ->
  sql_select_pending db = Some (job_id, uid) ->
  users db !! uid = Some row ->
  TrustScore.compute_trust_score now (fetched_dict uid row) None = Ok r ->
  ~ (TrustScore.final_score r == 0)%Q ->
  audit_room db ->
  exists db' a,
    worker_iteration wn now str_e (calm db) = (Ok (Finished job_id), calm db') /\
    trust_scores db' !! uid
      = Some {| score := TrustScore.final_score r; updated_at := now |} /\
    (forall u, u <> uid -> trust_scores db' !! u = trust_scores db !! u) /\
    trust_score_audit db' = trust_score_audit db ++ [a] /\
    audit_user a = uid /\ new_score a = TrustScore.final_score r /\
    details a = TrustScore.breakdown r /\ computed_at a = now /\
    audit_seq db < audit_id a /\
    (forall b, b ∈ trust_score_audit db -> audit_id b < audit_id a) /\
    (0 <= audit_seq db ->
     (forall b, b ∈ trust_score_audit db -> audit_id b <= audit_seq db) ->
     audit_id a = audit_seq db + 1) /\
    users db' = users db /\
    (forall r', r' ∈ recompute_jobs db' -> id r' = job_id ->
                processed r' = 1 /\ processing r' = 0).
Proof.
  intros Hkey Hsel Hrow Hscore Hnz Hroom.
  destruct (upsert_calm uid (TrustScore.final_score r) (TrustScore.breakdown r) now
              (sql_update_claim wn job_id db)) as (n & Hn & Hup).
  { rewrite users_after_claim, Hrow. eauto. }
  { apply audit_room_after_claim. exact Hroom. }
  destruct (next_audit_id_fresh db Hroom) as (n' & Hn' & Hseq & Hfresh & Hstep).
  change (next_audit_id (sql_update_claim wn job_id db)) with (next_audit_id db) in Hn.
  rewrite Hn' in Hn. injection Hn as <-.
  exists (sql_mark_done job_id now
            {| users := users (sql_update_claim wn job_id db);
               recompute_jobs := recompute_jobs (sql_update_claim wn job_id db);
               trust_scores :=
                 <[uid := {| score := TrustScore.final_score r; updated_at := now |}]>
                   (trust_scores (sql_update_claim wn job_id db));
               trust_score_audit :=
                 trust_score_audit (sql_update_claim wn job_id db) ++
                   [ {| audit_id := n'; audit_user := uid;
                        new_score := TrustScore.final_score r;
                        details := TrustScore.breakdown r; computed_at := now |} ];
               audit_seq := n' |}),
    {| audit_id := n'; audit_user := uid; new_score := TrustScore.final_score r;
       details := TrustScore.breakdown r; computed_at := now |}.
  split; [|split; [|split; [|split; [reflexivity|]]]].
  - start_turn wn Hkey Hsel. rewrite Hrow. cbn [fmap option_fmap option_map].
    unfold lift, mbind at 1. unfold M_bind at 1. rewrite Hscore. cbv beta iota.
    destruct (Qeq_bool (TrustScore.final_score r) 0) eqn:Hz;
      [apply Qeq_bool_iff in Hz; contradiction|].
    unfold mbind at 1. unfold M_bind at 1. rewrite Hup.
    run_calm. reflexivity.
  - cbn. apply lookup_insert_eq.
  - intros u Hu. cbn. apply lookup_insert_ne. congruence.
  - do 4 (split; [reflexivity|]). split; [exact Hseq|]. split; [|split; [|split]].
    + intros b Hb. rewrite Forall_forall in Hfresh. exact (Hfresh b Hb).
    + intros Hpos Hinstep. apply Hstep; [exact Hpos|].
      rewrite Forall_forall. exact Hinstep.
    + reflexivity.
    + apply rows_marked_done.
Qed.

(** X16: a final score of zero is taken for a missing score: the turn
    raises RuntimeError, marks the job failed with the text of that
    exception as last_error, and writes neither a score nor an audit
    entry. *)
Theorem turn_fails_on_zero_score wn now str_e db job_id uid row r :
  NoDup (id <$> recompute_jobs db) ->
  sql_select_pending db = Some (job_id, uid) ->
  users db !! uid = Some row ->
  TrustScore.compute_trust_score now (fetched_dict uid row) None = Ok r ->
  (TrustScore.final_score r == 0)%Q ->
  worker_iteration wn now str_e (calm db)
  = (Ok (Failed job_id RuntimeError),
     calm (sql_mark_failed job_id (str_e RuntimeError) now
             (sql_update_claim wn job_id db))) /\
  trust_scores
    (sql_mark_failed job_id (str_e RuntimeError) now (sql_update_claim wn job_id db))
    = trust_scores db /\
  trust_score_audit
    (sql_mark_failed job_id (str_e RuntimeError) now (sql_update_claim wn job_id db))
    = trust_score_audit db /\
  (forall r',
     r' ∈ recompute_jobs
            (sql_mark_failed job_id (str_e RuntimeError) now
               (sql_update_claim wn job_id db)) ->
     id r' = job_id ->
     processed r' = 2 /\ processing r' = 0 /\
     last_error r' = Some (str_e RuntimeError)).
Proof.
  intros Hkey Hsel Hrow Hscore Hz.
  split; [|split; [reflexivity | split; [reflexivity | apply rows_marked_failed]]].
  start_turn wn Hkey Hsel. rewrite Hrow. cbn [fmap option_fmap option_map].
  unfold lift, mbind at 1. unfold M_bind at 1. rewrite Hscore. cbv beta iota.
  apply Qeq_bool_iff in Hz. rewrite Hz. run_calm. reflexivity.
Qed.

(** X17: when the engine raises for the user, the turn marks the job
    failed, records the text of that exception as last_error and writes
    neither a score nor an audit entry. *)
Theorem turn_fails_on_engine_error wn now str_e db job_id uid row e :
  NoDup (id <$> recompute_jobs db) ->
  sql_select_pending db = Some (job_id, uid) ->
  users db !! uid = Some row ->
  TrustScore.compute_trust_score now (fetched_dict uid row) None = Raise e ->
  worker_iteration wn now str_e (calm db)
  = (Ok (Failed job_id e),
     calm (sql_mark_failed job_id (str_e e) now (sql_update_claim wn job_id db))) /\
  trust_scores (sql_mark_failed job_id (str_e e) now (sql_update_claim wn job_id db))
    = trust_scores db /\
  trust_score_audit
    (sql_mark_failed job_id (str_e e) now (sql_update_claim wn job_id db))
    = trust_score_audit db /\
  (forall r',
     r' ∈ recompute_jobs
            (sql_mark_failed job_id (str_e e) now (sql_update_claim wn job_id db)) ->
     id r' = job_id ->
     processed r' = 2 /\ processing r' = 0 /\ last_error r' = Some (str_e e)).
Proof.
  intros Hkey Hsel Hrow Hscore.
  split; [|split; [reflexivity | split; [reflexivity | apply rows_marked_failed]]].
  start_turn wn Hkey Hsel. rewrite Hrow. cbn [fmap option_fmap option_map].
  unfold lift, mbind at 1. unfold M_bind at 1. rewrite Hscore.
  run_calm. reflexivity.
Qed.

(** X18: with no pending job a turn is idle and leaves the committed
    tables untouched, whichever storage calls fail. *)
Theorem turn_idle_without_jobs wn now str_e db fs :
  sql_select_pending db = None ->
  exists fs',
    worker_iteration wn now str_e {| disk := db; tx := None; faults := fs |}
    = (Ok Idle, {| disk := db; tx := None; faults := fs' |}).
Proof.
  intros Hsel.
  destruct (claim_job_idle_run wn db fs Hsel) as [fs' Hrun].
  exists fs'. unfold worker_iteration. unfold mbind at 1. unfold M_bind at 1.
  rewrite Hrun. reflexivity.
Qed.

End CalmTurn.

(** ** What every turn of the worker keeps, whatever fails *)

Section Steady.
Import Worker Loop.

Lemma steady_ret {A} (P : world -> Prop) (a : A) : steady P (mret a).
Proof. intros w Hw. exact Hw. Qed.

Lemma steady_raise {A} (P : world -> Prop) (e : exn) : steady (A := A) P (raise e).
Proof. intros w Hw. exact Hw. Qed.

Lemma steady_lift {A} (P : world -> Prop) (r : result A) : steady P (lift r).
Proof. intros w Hw. unfold lift. destruct r; exact Hw. Qed.

Lemma steady_bind {A B} (P : world -> Prop) (m : M A) (f : A -> M B) :
  steady P m -> (forall a, steady P (f a)) -> steady P (m ≫= f).
Proof. intros Hm Hf. apply triple_bind with (R := fun _ => P); assumption. Qed.

Lemma steady_try {A} (P : world -> Prop) (m : M A) (h : exn -> M A) :
  steady P m -> (forall e, steady P (h e)) -> steady P (try_except m h).
Proof. intros Hm Hh. apply triple_try with (R := fun _ => P); assumption. Qed.

Lemma steady_final {A} (P : world -> Prop) (m : M A) w :
  steady P m -> P w -> P (m w).2.
Proof. intros Hm Hw. apply triple_final; assumption. Qed.

Variable R : database -> Prop.

Lemma steady_read {A} (query : database -> A) :
  steady (on_tables R) (execute_read query).
Proof. apply triple_execute_read. intros d t fs fs' Hw. exact Hw. Qed.

Lemma steady_read_rest {A} (query : database -> A) :
  steady (at_rest R) (execute_read query).
Proof. apply triple_execute_read. intros d t fs fs' Hw. exact Hw. Qed.

Lemma steady_write stmt :
  (forall db, R db -> R (stmt db)) ->
  steady (on_tables R) (execute_write stmt).
Proof.
  intros Hstmt. apply triple_storage_call.
  - intros d t fs fs' Hw. exact Hw.
  - intros w Hw. exact Hw.
  - intros [d [t|] fs] [Hdisk Htx]; simpl in *.
    + split; simpl; [exact Hdisk|]. intros t' [= <-]. eauto.
    + split; simpl; [eauto | discriminate].
Qed.

Lemma steady_write_rest stmt :
  (forall db, R db -> R (stmt db)) ->
  steady (at_rest R) (execute_write stmt).
Proof.
  intros Hstmt. apply triple_storage_call.
  - intros d t fs fs' Hw. exact Hw.
  - intros w Hw. exact Hw.
  - intros [d t fs] [[Hdisk Htx] Hnone]; simpl in *. subst t. simpl.
    split; [split|]; simpl; [eauto | discriminate | reflexivity].
Qed.

Lemma steady_checked_rest stmt :
  (forall db db', R db -> stmt db = Ok db' -> R db') ->
  steady (at_rest R) (execute_checked stmt).
Proof.
  intros Hstmt. apply triple_storage_call.
  - intros d t fs fs' Hw. exact Hw.
  - intros w Hw. exact Hw.
  - intros [d t fs] [[Hdisk Htx] Hnone]; simpl in *. subst t. simpl.
    destruct (stmt d) as [d'|e] eqn:Hd.
    + split; [split|]; simpl; [eauto | discriminate | reflexivity].
    + split; [split|]; simpl; [exact Hdisk | discriminate | reflexivity].
Qed.

Lemma steady_begin : steady (on_tables R) begin_immediate.
Proof.
  apply triple_storage_call.
  - intros d t fs fs' Hw. exact Hw.
  - intros w Hw. exact Hw.
  - intros [d [t|] fs] [Hdisk Htx]; simpl in *.
    + split; simpl; assumption.
    + split; simpl; [exact Hdisk|]. intros t' [= <-]. exact Hdisk.
Qed.

Lemma steady_commit : steady (on_tables R) commit.
Proof.
  intros [d [t|] fs] [Hdisk Htx]; unfold commit; simpl in *.
  - destruct fs as [|[|] fs]; simpl;
      (split; simpl; [eauto | first [discriminate | assumption]]).
  - split; simpl; assumption.
Qed.

Lemma steady_commit_rest : steady (at_rest R) commit.
Proof.
  intros [d t fs] [Htr Hnone]. simpl in Hnone. subst t.
  unfold commit. simpl. split; auto.
Qed.

Lemma steady_rollback : steady (on_tables R) rollback.
Proof.
  intros [d t fs] [Hdisk Htx]. unfold rollback. simpl.
  split; simpl; [exact Hdisk | discriminate].
Qed.

Hypothesis Hclaim : forall wn job_id db, R db -> R (sql_update_claim wn job_id db).
Hypothesis Hdone : forall job_id now db, R db -> R (sql_mark_done job_id now db).
Hypothesis Hfailed :
  forall job_id err now db, R db -> R (sql_mark_failed job_id err now db).
Hypothesis Hscore :
  forall uid sc now db db', R db -> sql_upsert_score uid sc now db = Ok db' -> R db'.
Hypothesis Haudit :
  forall uid sc d now db db', R db -> sql_insert_audit uid sc d now db = Ok db' -> R db'.

Lemma steady_claim_job wn : steady (on_tables R) (claim_job wn).
Proof.
  unfold claim_job. apply steady_try.
  - apply steady_bind; [apply steady_begin|]. intros _.
    apply steady_bind; [apply steady_read|]. intros [[job_id uid]|].
    + apply steady_bind; [apply steady_write; apply Hclaim|]. intros _.
      apply steady_bind; [apply steady_commit|]. intros _.
      apply steady_bind; [apply steady_read|]. intros [c|].
      * apply steady_ret.
      * apply steady_raise.
    + apply steady_bind; [apply steady_commit|]. intros _. apply steady_ret.
  - intros e. destruct e;
      (apply steady_bind; [apply steady_rollback|]; intros _;
       first [apply steady_ret | apply steady_raise]).
Qed.

Lemma claim_job_at_rest wn w :
  at_rest R w -> at_rest R (claim_job wn w).2.
Proof.
  intros [Hon Hnone]. split.
  - apply steady_final; [apply steady_claim_job | exact Hon].
  - destruct w as [d t fs]. simpl in Hnone. subst t.
    destruct (claim_job_cases wn d fs) as (r & fs' & db' & Hrun & _).
    rewrite Hrun. reflexivity.
Qed.

Lemma steady_mark_job_done job_id now :
  steady (at_rest R) (mark_job_done job_id now).
Proof.
  unfold mark_job_done. apply steady_bind.
  - apply steady_write_rest. apply Hdone.
  - intros _. apply steady_commit_rest.
Qed.

Lemma steady_mark_job_failed job_id err now :
  steady (at_rest R) (mark_job_failed job_id err now).
Proof.
  unfold mark_job_failed. apply steady_bind.
  - apply steady_write_rest. apply Hfailed.
  - intros _. apply steady_commit_rest.
Qed.

Lemma steady_upsert uid sc d now :
  steady (at_rest R) (upsert_trust_score_and_audit uid sc d now).
Proof.
  unfold upsert_trust_score_and_audit. apply steady_bind.
  - apply steady_checked_rest. apply Hscore.
  - intros _. apply steady_bind.
    + apply steady_checked_rest. apply Haudit.
    + intros _. apply steady_commit_rest.
Qed.

Lemma worker_iteration_at_rest `{PyLib} wn now str_e w :
  at_rest R w -> at_rest R (worker_iteration wn now str_e w).2.
Proof.
  intros Hw. unfold worker_iteration. unfold mbind at 1. unfold M_bind at 1.
  pose proof (claim_job_at_rest wn w Hw) as Hclaimed.
  destruct (claim_job wn w) as [[[c|]|e] w1]; simpl in *; try exact Hclaimed.
  apply steady_final; [|exact Hclaimed].
  apply steady_try.
  - apply steady_bind.
    { unfold fetch_user_as_dict. apply steady_bind; [apply steady_read_rest|].
      intros r. apply steady_ret. }
    intros [user|].
    + apply steady_bind; [apply steady_lift|]. intros r.
      destruct (Qeq_bool _ _); [apply steady_raise|].
      apply steady_bind; [apply steady_upsert|]. intros _.
      apply steady_bind; [apply steady_mark_job_done|]. intros _.
      apply steady_ret.
    + apply steady_bind; [apply steady_mark_job_done|]. intros _.
      apply steady_ret.
  - intros e. apply steady_bind.
    + apply steady_try; [apply steady_mark_job_failed|].
      intros _. apply steady_ret.
    + intros _. apply steady_ret.
Qed.

Lemma run_worker_at_rest `{PyLib} turns w :
  at_rest R w -> at_rest R (run_worker turns w).
Proof.
  revert w. induction turns as [|[[wn now] str_e] turns IH]; intros w Hw; [exact Hw|].
  simpl. apply IH. apply worker_iteration_at_rest. exact Hw.
Qed.

End Steady.

Section History.
Import Worker Loop.

Lemma keeps_history_refl db : keeps_history db db.
Proof.
  repeat split; [apply Forall2_advances_refl | reflexivity | reflexivity].
Qed.

Lemma keeps_history_jobs base f job_id db :
  (forall r, advances r (f r)) ->
  keeps_history base db -> keeps_history base (update_where_id f job_id db).
Proof.
  intros Hf (Hu & Hj & Ha & Hs). repeat split; try assumption.
  apply update_where_id_advances; assumption.
Qed.

(** X19: over any number of turns of the worker, whatever storage calls
    fail, the connection ends with no transaction open, the users table
    is untouched, every job row is a later version of itself (its
    identifier kept, a terminal state never left, processing reset only
    with a terminal state), the audit entries that existed are still
    there in front of the new ones, and no user loses a score row. *)
Theorem worker_keeps_history `{PyLib} turns w :
  tx w = None ->
  tx (run_worker turns w) = None /\
  keeps_history (disk w) (disk (run_worker turns w)).
Proof.
  intros Hidle.
  assert (at_rest (keeps_history (disk w)) w) as Hw.
  { split; [split|]; [apply keeps_history_refl | | exact Hidle].
    rewrite Hidle. discriminate. }
  assert (at_rest (keeps_history (disk w)) (run_worker turns w)) as Hend.
  { apply run_worker_at_rest; [| | | | | exact Hw].
    - intros wn job_id db. apply keeps_history_jobs. apply advances_claim_row.
    - intros job_id now db. apply keeps_history_jobs. apply advances_done_row.
    - intros job_id err now db. apply keeps_history_jobs. apply advances_failed_row.
    - intros uid sc now db db' (Hu & Hj & Ha & Hs) Hok.
      unfold sql_upsert_score in Hok.
      destruct (trust_scores db !! uid), (users db !! uid);
        try discriminate; injection Hok as <-;
        (repeat split; try assumption; simpl; rewrite dom_insert_L; set_solver).
    - intros uid sc d now db db' (Hu & Hj & Ha & Hs) Hok.
      unfold sql_insert_audit in Hok.
      destruct (next_audit_id db); [|discriminate].
      destruct (users db !! uid); [|discriminate]. injection Hok as <-.
      repeat split; try assumption. simpl. apply prefix_app_r. exact Ha. }
  destruct Hend as [[Hdisk _] Hnone]. split; assumption.
Qed.

End History.

(** ** Jobs that are not pending, marks for unknown jobs *)

Section MoreQueue.
Import Worker Loop.

Lemma advances_not_pending r r' :
  advances r r' -> is_pending r = false -> is_pending r' = false.
Proof.
  unfold advances, terminal, is_pending.
  intros (_ & Hnz & _ & Hproc) Hnp.
  apply andb_false_iff in Hnp as [Hp|Hp]; apply Z.eqb_neq in Hp;
    apply andb_false_iff.
  - left. apply Z.eqb_neq. auto.
  - destruct (Z.eq_dec (processing r') 0) as [Hz|Hz].
    + left. apply Z.eqb_neq. destruct (Hproc Hp Hz); lia.
    + right. apply Z.eqb_neq. exact Hz.
Qed.

(** X21: marking a job identifier that is in no row changes nothing in
    the committed tables and raises nothing, for mark_job_done and for
    mark_job_failed alike. *)
Theorem mark_unknown_job_is_noop job_id err now db :
  job_id ∉ id <$> recompute_jobs db ->
  mark_job_done job_id now (calm db) = (Ok tt, calm db) /\
  mark_job_failed job_id err now (calm db) = (Ok tt, calm db).
Proof.
  intros Hfresh.
  assert (forall f, update_where_id f job_id db = db) as Hsame.
  { intros f. unfold update_where_id, with_jobs. destruct db as [u js s a].
    simpl in *. f_equal.
    induction js as [|r js IH]; [reflexivity|]. simpl in *.
    apply not_elem_of_cons in Hfresh as [Hne Hrest].
    destruct (Z.eqb_spec (id r) job_id) as [Heq|_]; [congruence|].
    f_equal. apply IH. exact Hrest. }
  unfold mark_job_done, mark_job_failed, sql_mark_done, sql_mark_failed, calm,
    mbind, M_bind, execute_write, storage_call, commit. simpl.
  rewrite !Hsame. split; reflexivity.
Qed.

End MoreQueue.

Section PendingForGood.
Import Worker Loop.

(** X20: over any number of turns of the worker, whatever storage calls
    fail, a job that is not pending does not become pending again. *)
Theorem no_return_to_pending `{PyLib} turns w i r :
  tx w = None ->
  jobs_of w !! i = Some r ->
  is_pending r = false ->
  exists r',
    jobs_of (run_worker turns w) !! i = Some r' /\
    id r' = id r /\ is_pending r' = false.
Proof.
  intros Hidle Hr Hnp.
  assert (at_rest (fun db => Forall2 advances (jobs_of w) (recompute_jobs db)) w)
    as Hw.
  { split; [split|]; [apply Forall2_advances_refl | | exact Hidle].
    rewrite Hidle. discriminate. }
  assert (at_rest (fun db => Forall2 advances (jobs_of w) (recompute_jobs db))
            (run_worker turns w)) as Hend.
  { apply run_worker_at_rest; [| | | | | exact Hw].
    - intros wn job_id db. apply update_where_id_advances. apply advances_claim_row.
    - intros job_id now db. apply update_where_id_advances. apply advances_done_row.
    - intros job_id err now db. apply update_where_id_advances.
      apply advances_failed_row.
    - intros uid sc now db db' Hdb Hok. unfold sql_upsert_score in Hok.
      destruct (trust_scores db !! uid), (users db !! uid);
        try discriminate; injection Hok as <-; exact Hdb.
    - intros uid sc d now db db' Hdb Hok. unfold sql_insert_audit in Hok.
      destruct (next_audit_id db); [|discriminate].
      destruct (users db !! uid); [|discriminate]. injection Hok as <-. exact Hdb. }
  destruct Hend as [[Hadv _] _].
  destruct (Forall2_lookup_l _ _ _ _ _ Hadv Hr) as (r' & Hr' & Hrel).
  exists r'. split; [exact Hr'|]. split; [apply Hrel|].
  exact (advances_not_pending r r' Hrel Hnp).
Qed.

End PendingForGood.

(** ** Scores read back, the latest job of a user *)

Section StoreProps.
Import Worker Loop Store.

(** X22: for a user that is in the users table, on a connection where
    nothing fails and while the audit table has identifiers left,
    upsert_trust_score_and_audit returns; get_trust_score then returns
    the score just written with its time, the rows of other users read
    as before, and the audit table has one more entry, for this user and
    with this score, under an identifier never used before.  For a user
    that is in neither users nor trust_scores the first INSERT is refused
    with IntegrityError and nothing is written. *)
Theorem score_read_back uid sc d now db :
  (is_Some (users db !! uid) -> audit_room db ->
   exists db' a,
     upsert_trust_score_and_audit uid sc d now (calm db) = (Ok tt, calm db') /\
     get_trust_score uid (calm db') = (Ok (Some (uid, sc, now)), calm db') /\
     (forall u, u <> uid ->
        (get_trust_score u (calm db')).1 = (get_trust_score u (calm db)).1) /\
     trust_score_audit db' = trust_score_audit db ++ [a] /\
     audit_user a = uid /\ new_score a = sc /\ details a = d /\
     computed_at a = now /\
     audit_seq db < audit_id a /\
     (forall b, b ∈ trust_score_audit db -> audit_id b < audit_id a)) /\
  (users db !! uid = None -> trust_scores db !! uid = None ->
   upsert_trust_score_and_audit uid sc d now (calm db)
   = (Raise IntegrityError, calm db)).
Proof.
  split.
  - intros Huser Hroom.
    destruct (upsert_calm uid sc d now db Huser Hroom) as (n & Hn & Hup).
    destruct (next_audit_id_fresh db Hroom) as (n' & Hn' & Hseq & Hfresh & _).
    rewrite Hn' in Hn. injection Hn as <-.
    eexists _, {| audit_id := n'; audit_user := uid; new_score := sc;
                  details := d; computed_at := now |}.
    split; [exact Hup|]. split; [|split; [|split; [reflexivity|]]].
    + unfold get_trust_score, execute_read, storage_call, calm. simpl.
      rewrite lookup_insert_eq. reflexivity.
    + intros u Hu. unfold get_trust_score, execute_read, storage_call, calm. simpl.
      rewrite lookup_insert_ne by congruence. reflexivity.
    + do 4 (split; [reflexivity|]). split; [exact Hseq|].
      intros b Hb. rewrite Forall_forall in Hfresh. exact (Hfresh b Hb).
  - intros Hnouser Hnoscore.
    unfold upsert_trust_score_and_audit, mbind, M_bind, execute_checked,
      storage_call, calm. simpl.
    unfold sql_upsert_score. rewrite Hnouser, Hnoscore. reflexivity.
Qed.

Lemma latest_None l : latest l = None -> l = [].
Proof.
  destruct l as [|j l]; [reflexivity|]. simpl.
  destruct (latest l) as [m|]; [|discriminate].
  destruct (before m j); discriminate.
Qed.

Lemma before_false a b :
  before a b = false ->
  enqueued_at a < enqueued_at b \/
  (enqueued_at a = enqueued_at b /\ id a <= id b).
Proof.
  unfold before. intros Hb. apply orb_false_iff in Hb as [H1 H2].
  apply Z.ltb_ge in H1. apply andb_false_iff in H2 as [H2|H2].
  - apply Z.eqb_neq in H2. lia.
  - apply Z.ltb_ge in H2. lia.
Qed.

Lemma latest_spec l m :
  latest l = Some m ->
  m ∈ l /\
  forall j, j ∈ l ->
    enqueued_at j < enqueued_at m \/
    (enqueued_at j = enqueued_at m /\ id j <= id m).
Proof.
  revert m. induction l as [|j0 l IH]; intros m Hm; simpl in Hm; [discriminate|].
  destruct (latest l) as [m'|] eqn:Hrest.
  - destruct (IH m' eq_refl) as [Hin Hmax].
    destruct (before m' j0) eqn:Hb; injection Hm as <-.
    + split; [right; exact Hin|].
      intros j [->|Hj]%elem_of_cons; [|auto].
      unfold before in Hb. apply orb_true_iff in Hb as [Hb|Hb].
      * apply Z.ltb_lt in Hb. lia.
      * apply andb_true_iff in Hb as [H1 H2].
        apply Z.eqb_eq in H1. apply Z.ltb_lt in H2. lia.
    + split; [left|].
      intros j [->|Hj]%elem_of_cons; [lia|].
      apply before_false in Hb. specialize (Hmax j Hj). lia.
  - injection Hm as <-. apply latest_None in Hrest. subst l.
    split; [left|]. intros j [->|Hj]%elem_of_cons; [lia | inversion Hj].
Qed.

Lemma latest_is_Some l j : j ∈ l -> is_Some (latest l).
Proof.
  intros Hj. destruct (latest l) eqn:Hl; [eauto|].
  apply latest_None in Hl. subst l. inversion Hj.
Qed.

(** X23: for a jobs table with distinct identifiers, the job that
    _find_latest_job's query selects belongs to the user, no job of the
    user was enqueued later, none enqueued at the same time has a larger
    identifier, and the selection is the same for every storage order of
    the table. *)
Theorem latest_job_order_free uid db db' :
  recompute_jobs db ≡ₚ recompute_jobs db' ->
  NoDup (id <$> recompute_jobs db) ->
  sql_find_latest_job uid db = sql_find_latest_job uid db' /\
  (forall m,
     sql_find_latest_job uid db = Some m ->
     m ∈ recompute_jobs db /\ user_id m = uid /\
     forall j, j ∈ recompute_jobs db -> user_id j = uid ->
       enqueued_at j < enqueued_at m \/
       (enqueued_at j = enqueued_at m /\ id j <= id m)) /\
  (sql_find_latest_job uid db = None <->
   forall j, j ∈ recompute_jobs db -> user_id j <> uid).
Proof.
  intros Hperm Hkey. unfold sql_find_latest_job.
  set (mine := fun j : job => user_id j = uid).
  assert (forall l m, latest (filter mine l) = Some m ->
            m ∈ l /\ user_id m = uid /\
            forall j, j ∈ l -> user_id j = uid ->
              enqueued_at j < enqueued_at m \/
              (enqueued_at j = enqueued_at m /\ id j <= id m)) as Hspec.
  { intros l m Hm. destruct (latest_spec _ _ Hm) as [Hin Hmax].
    apply list_elem_of_filter in Hin as [Huid Hin].
    repeat split; try assumption.
    intros j Hj Hju. apply Hmax. apply list_elem_of_filter. auto. }
  split; [|split].
  - destruct (latest (filter mine (recompute_jobs db))) as [m|] eqn:Hm;
      destruct (latest (filter mine (recompute_jobs db'))) as [m'|] eqn:Hm'.
    + destruct (Hspec _ _ Hm) as (Hin & Hu & Hmax).
      destruct (Hspec _ _ Hm') as (Hin' & Hu' & Hmax').
      rewrite <- Hperm in Hin'.
      assert (m ∈ recompute_jobs db') as Hin2 by (rewrite <- Hperm; exact Hin).
      specialize (Hmax m' Hin' Hu'). specialize (Hmax' m Hin2 Hu).
      f_equal. apply (key_unique _ m m' Hkey Hin Hin'). lia.
    + exfalso. apply latest_None in Hm'.
      destruct (latest_spec _ _ Hm) as [Hin _].
      apply list_elem_of_filter in Hin as [Hu Hin].
      assert (m ∈ filter mine (recompute_jobs db')) as Hbad
        by (apply list_elem_of_filter; split; [exact Hu | rewrite <- Hperm; exact Hin]).
      rewrite Hm' in Hbad. inversion Hbad.
    + exfalso. apply latest_None in Hm.
      destruct (latest_spec _ _ Hm') as [Hin _].
      apply list_elem_of_filter in Hin as [Hu Hin].
      assert (m' ∈ filter mine (recompute_jobs db)) as Hbad
        by (apply list_elem_of_filter; split; [exact Hu | rewrite Hperm; exact Hin]).
      rewrite Hm in Hbad. inversion Hbad.
    + reflexivity.
  - intros m Hm. exact (Hspec _ _ Hm).
  - split.
    + intros Hnone j Hj Hu. apply latest_None in Hnone.
      assert (j ∈ filter mine (recompute_jobs db)) as Hbad
        by (apply list_elem_of_filter; auto).
      rewrite Hnone in Hbad. inversion Hbad.
    + intros Hnone. destruct (latest _) as [m|] eqn:Hm; [|reflexivity].
      exfalso. destruct (Hspec _ _ Hm) as (Hin & Hu & _).
      exact (Hnone m Hin Hu).
Qed.

End StoreProps.

(** ** Users read from the table, input dictionaries *)

Section StoredUsers.
Context `{PyLib}.
Import TrustScore Worker Loop.

Lemma int_field_opt_int (user : gmap string pyval) k c :
  user !! k = Some (opt_int c) -> int_field user k = Ok (default 0 c).
Proof.
  intros Hk. unfold int_field, dict_get, opt_int in *. rewrite Hk. simpl.
  unfold py_or. simpl. destruct (default 0 c =? 0) eqn:Hz; simpl; [|reflexivity].
  apply Z.eqb_eq in Hz. rewrite Hz. reflexivity.
Qed.

Lemma counts_in_range_int64 (p s r : option Z) :
  int64 p -> int64 s -> int64 r ->
  counts_in_range (default 0 p) (default 0 s) (default 0 r).
Proof.
  unfold counts_in_range, int64, PHOTOS_CAP, ACTIVITY_STREAK_CAP_DAYS,
    ACTIVITY_REPORTS_CAP.
  assert (2 ^ 63 < DBL_OVERFLOW) as Hbig by (vm_compute; reflexivity).
  set (D := DBL_OVERFLOW) in *.
  intros Hp Hs Hr. destruct p, s, r; simpl in *; lia.
Qed.

(** X24: for a row of users whose integer columns hold 64-bit values, the
    dictionary fetch_user_as_dict builds can always be scored unless
    last_active_at holds a text that is not empty and does not parse:
    compute_trust_score returns exactly when last_active_at is NULL, the
    empty text, or a text parse_iso_datetime accepts. *)
Theorem stored_user_scoring now uid row ref :
  columns_int64 row ->
  (returns (compute_trust_score now (fetched_dict uid row) ref) <->
   u_last_active_at row = None \/ u_last_active_at row = Some "" \/
   exists s t, u_last_active_at row = Some s /\
               parse_iso_datetime (PStr s) = Ok (Some t)).
Proof.
  intros (Hph & Hst & Hrs & Hrp).
  destruct (compute_trust_score_in_range now (fetched_dict uid row) ref
              (default 0 (u_photos row)) (default 0 (u_login_streak row))
              (default 0 (u_response_rate_pct row)) (default 0 (u_reports_count row)))
    as [Hiff _];
    [apply int_field_opt_int; reflexivity ..
    | apply counts_in_range_int64; assumption |].
  rewrite Hiff. unfold last_active_ok.
  replace (dict_get_none (fetched_dict uid row) "last_active_at")
    with (from_option PStr PNone (u_last_active_at row)) by reflexivity.
  destruct (u_last_active_at row) as [s|]; simpl.
  - split.
    + intros [Hempty | [t Ht]].
      * right. left. f_equal.
        destruct (String.eqb_spec s ""); [assumption | discriminate].
      * right. right. eauto.
    + intros [Hnone | [[= ->] | (s' & t & [= <-] & Ht)]];
        [discriminate | left; reflexivity | right; eauto].
  - split; [intros _; left; reflexivity | intros _; left; reflexivity].
Qed.

End StoredUsers.

Section MappingMore.
Context `{PyLib} (repr_text : pyval -> string).
Import DbUpsert.

(** X25: a dictionary without user_id makes map_input_to_row raise
    KeyError, whatever else it holds. *)
Theorem map_input_to_row_needs_user_id d :
  d !! "user_id" = None -> map_input_to_row repr_text d = Raise KeyError.
Proof.
  intros Hmiss. unfold map_input_to_row. rewrite Hmiss.
  destruct (dict_get_none d "interests") as [|b|z|q| |s|n]; reflexivity.
Qed.

(** X26: in a row map_input_to_row returns, user_id is the text of the
    input's user_id, the three flags are 0 or 1 according to the truth
    value of bio, selfie_verified and id_verified, the counters are
    integers, and last_active_at is the input's value as it came, not
    checked. *)
Theorem map_input_to_row_columns d row :
  map_input_to_row repr_text d = Ok row ->
  (exists v, d !! "user_id" = Some v /\ row !! "user_id" = Some (PStr (py_str repr_text v))) /\
  row !! "bio_filled" = Some (PInt (if truthy (dict_get_none d "bio") then 1 else 0)) /\
  row !! "selfie_verified"
    = Some (PInt (if truthy (dict_get_none d "selfie_verified") then 1 else 0)) /\
  row !! "id_verified"
    = Some (PInt (if truthy (dict_get_none d "id_verified") then 1 else 0)) /\
  (forall k, k ∈ ["photos"; "interests_count"; "login_streak";
                  "response_rate_pct"; "reports_count"] ->
             exists z, row !! k = Some (PInt z)) /\
  row !! "last_active_at" = Some (dict_get_none d "last_active_at").
Proof.
  unfold map_input_to_row. intros Hrow.
  inv_bind Hrow. inv_bind Hrow. do 4 inv_bind Hrow. injection Hrow as <-.
  split; [|split; [|split; [|split; [|split]]]]; try reflexivity.
  - destruct (d !! "user_id") as [u|]; [|discriminate].
    injection Hv0 as <-. exists u. split; reflexivity.
  - intros k Hk. repeat (apply elem_of_cons in Hk as [->|Hk]);
      [eexists; reflexivity .. | inversion Hk].
Qed.

End MappingMore.

(** ** The properties above at concrete inputs *)

Lemma past_activity_never_raises_witness :
  exists final decay final0,
    @TrustScore.apply_inactivity_decay RefLib.lib 0 80 Sample.eight_days_ago
      (Some Scenario.stamp) = Ok (final, decay) /\
    @TrustScore.apply_inactivity_decay RefLib.lib 0 80 PNone
      (Some Scenario.stamp) = Ok (final0, 0%Q) /\
    (0 <= decay)%Q /\ (final <= final0)%Q.
Proof.
  apply (@past_activity_never_raises RefLib.lib 0 80 Sample.eight_days_ago
           Scenario.stamp Sample.eight_days_ago_us).
  - reflexivity.
  - vm_compute. reflexivity.
  - vm_compute. discriminate.
Defined.

Lemma longer_inactivity_lower_score_witness :
  exists final1 decay1 final2 decay2,
    @TrustScore.apply_inactivity_decay RefLib.lib 0 80 Sample.eight_days_ago
      (Some Scenario.stamp) = Ok (final1, decay1) /\
    @TrustScore.apply_inactivity_decay RefLib.lib 0 80 Sample.eight_days_ago
      (Some (Scenario.stamp + 30 * DAY_US)) = Ok (final2, decay2) /\
    (decay1 <= decay2)%Q /\ (final2 <= final1)%Q.
Proof.
  apply (@longer_inactivity_lower_score RefLib.lib 0 80 Sample.eight_days_ago
           Scenario.stamp (Scenario.stamp + 30 * DAY_US) Sample.eight_days_ago_us).
  - reflexivity.
  - vm_compute. reflexivity.
  - vm_compute. discriminate.
Defined.

Lemma first_week_is_free_witness :
  @Floats.apply_inactivity_decay RefLib.lib 0 Floats.PosInf Sample.four_days_ago
    (Some Scenario.stamp)
  = @Floats.apply_inactivity_decay RefLib.lib 0 Floats.PosInf PNone
      (Some Scenario.stamp).
Proof.
  refine (proj1 (@first_week_is_free RefLib.lib 0 Floats.PosInf Sample.four_days_ago
                   Scenario.stamp Sample.four_days_ago_us _ _ _) _).
  - reflexivity.
  - vm_compute. reflexivity.
  - vm_compute. split; [discriminate | reflexivity].
  - discriminate.
Defined.

Lemma final_score_at_most_raw_witness :
  exists r,
    @TrustScore.compute_trust_score RefLib.lib 0 Sample.veteran (Some Scenario.stamp)
      = Ok r /\
    (TrustScore.final_score r <= TrustScore.raw_total r)%Q /\
    (0 <= TrustScore.decay_applied r)%Q.
Proof.
  eexists. split; [vm_compute; reflexivity|].
  refine (proj2 (@final_score_at_most_raw RefLib.lib 0 Sample.veteran
                   (Some Scenario.stamp) _ _) Sample.eight_days_ago_us _ _ _).
  - vm_compute. reflexivity.
  - reflexivity.
  - vm_compute. reflexivity.
  - vm_compute. discriminate.
Defined.

Lemma badge_rules_witness :
  exists bs,
    @TrustScore.assign_badges RefLib.lib 0 (Scenario.scored 90)
      (Scenario.scenario_a Scenario.stamp_iso) (Some Scenario.stamp) = Ok bs /\
    ("Verified User" ∈ bs -> "Trusted Member" ∈ bs) /\
    ((TrustScore.final_score (Scenario.scored 90) < 60)%Q -> bs = []) /\
    (truthy (dict_get_none (Scenario.scenario_a Scenario.stamp_iso) "last_active_at")
       = false -> "Active Dater" ∉ bs).
Proof.
  eexists. split; [vm_compute; reflexivity|].
  apply (@badge_rules RefLib.lib 0 (Scenario.scored 90)
           (Scenario.scenario_a Scenario.stamp_iso) (Some Scenario.stamp)).
  vm_compute. reflexivity.
Defined.

Lemma profile_score_inputs_witness :
  @TrustScore.compute_profile_score RefLib.lib Sample.nine_photos
  = @TrustScore.compute_profile_score RefLib.lib Sample.six_photos.
Proof.
  apply (@profile_score_inputs RefLib.lib Sample.nine_photos Sample.six_photos 9 6);
    vm_compute; reflexivity.
Defined.

Lemma claim_job_nothing_pending_witness :
  exists fs',
    Worker.claim_job "w1"
      {| Worker.disk := Sample.no_jobs; Worker.tx := None; Worker.faults := [false; true] |}
    = (Ok None,
       {| Worker.disk := Sample.no_jobs; Worker.tx := None; Worker.faults := fs' |}).
Proof.
  apply (claim_job_nothing_pending "w1" Sample.no_jobs [false; true]).
  reflexivity.
Defined.

Lemma claim_lost_on_failed_reread_witness :
  exists db',
    Worker.claim_job "w1"
      {| Worker.disk := Sample.orphan_job; Worker.tx := None;
         Worker.faults := false :: false :: false :: false :: true :: [] |}
    = (Ok None, {| Worker.disk := db'; Worker.tx := None; Worker.faults := [] |}) /\
    (exists m, m ∈ Worker.recompute_jobs Sample.orphan_job /\
               Worker.id m = 1 /\ Worker.is_pending m = true) /\
    (forall p r,
       Worker.recompute_jobs Sample.orphan_job !! p = Some r ->
       Worker.recompute_jobs db' !! p
       = Some (if Worker.id r =? 1
               then {| Worker.id := Worker.id r; Worker.user_id := Worker.user_id r;
                       Worker.processing := 1;
                       Worker.processed := Worker.processed r;
                       Worker.attempts := Worker.attempts r + 1;
                       Worker.processor := Some "w1";
                       Worker.enqueued_at := Worker.enqueued_at r;
                       Worker.processed_at := Worker.processed_at r;
                       Worker.last_error := Worker.last_error r |}
               else r)) /\
    Worker.users db' = Worker.users Sample.orphan_job /\
    Worker.trust_scores db' = Worker.trust_scores Sample.orphan_job /\
    Worker.trust_score_audit db' = Worker.trust_score_audit Sample.orphan_job.
Proof.
  apply (claim_lost_on_failed_reread "w1" Sample.orphan_job 1 "a" []).
  vm_compute. reflexivity.
Defined.

Lemma claim_job_calm_witness :
  exists m db',
    m ∈ Worker.recompute_jobs Sample.two_jobs /\ Worker.is_pending m = true /\
    Worker.id m = 2 /\ Worker.user_id m = "b" /\
    (forall j, j ∈ Worker.recompute_jobs Sample.two_jobs ->
               Worker.is_pending j = true ->
               Worker.enqueued_at m <= Worker.enqueued_at j) /\
    Worker.claim_job "w1" (Loop.calm Sample.two_jobs)
    = (Ok (Some {| Worker.c_id := 2; Worker.c_user_id := "b";
                   Worker.c_enqueued_at := Worker.enqueued_at m;
                   Worker.c_attempts := Worker.attempts m + 1 |}),
       Loop.calm db') /\
    (forall p r,
       Worker.recompute_jobs Sample.two_jobs !! p = Some r ->
       Worker.recompute_jobs db' !! p
       = Some (if Worker.id r =? 2
               then {| Worker.id := 2; Worker.user_id := "b";
                       Worker.processing := 1; Worker.processed := 0;
                       Worker.attempts := Worker.attempts m + 1;
                       Worker.processor := Some "w1";
                       Worker.enqueued_at := Worker.enqueued_at m;
                       Worker.processed_at := Worker.processed_at m;
                       Worker.last_error := Worker.last_error m |}
               else r)) /\
    Worker.users db' = Worker.users Sample.two_jobs /\
    Worker.trust_scores db' = Worker.trust_scores Sample.two_jobs /\
    Worker.trust_score_audit db' = Worker.trust_score_audit Sample.two_jobs.
Proof.
  apply (claim_job_calm "w1" Sample.two_jobs 2 "b").
  - apply (bool_decide_unpack _). vm_compute. exact I.
  - vm_compute. reflexivity.
Defined.

Lemma claimed_job_not_claimed_again_witness :
  exists c w1 c' w2,
    Worker.claim_job "w1"
      {| Worker.disk := Sample.two_jobs; Worker.tx := None; Worker.faults := [] |}
    = (Ok (Some c), w1) /\
    Worker.claim_job "w2"
      {| Worker.disk := Worker.disk w1; Worker.tx := Worker.tx w1; Worker.faults := [] |}
    = (Ok (Some c'), w2) /\
    Worker.c_id c' <> Worker.c_id c.
Proof.
  eexists _, _, _, _.
  assert (Worker.claim_job "w1"
            {| Worker.disk := Sample.two_jobs; Worker.tx := None; Worker.faults := [] |}
          = (Ok (Some {| Worker.c_id := 2; Worker.c_user_id := "b";
                         Worker.c_enqueued_at := 10; Worker.c_attempts := 1 |}),
             Loop.calm (Worker.sql_update_claim "w1" 2 Sample.two_jobs))) as H1
    by (vm_compute; reflexivity).
  assert (Worker.claim_job "w2"
            {| Worker.disk := Worker.sql_update_claim "w1" 2 Sample.two_jobs;
               Worker.tx := None; Worker.faults := [] |}
          = (Ok (Some {| Worker.c_id := 1; Worker.c_user_id := "a";
                         Worker.c_enqueued_at := 10; Worker.c_attempts := 1 |}),
             Loop.calm (Worker.sql_update_claim "w2" 1
                          (Worker.sql_update_claim "w1" 2 Sample.two_jobs)))) as H2
    by (vm_compute; reflexivity).
  split; [exact H1|]. split; [exact H2|].
  exact (claimed_job_not_claimed_again "w1" "w2" Sample.two_jobs [] _ _ [] H1 _ _ H2).
Defined.

Lemma turn_for_vanished_user_witness :
  @Worker.worker_iteration RefLib.lib "w1" Scenario.stamp (fun _ => "")
    (Loop.calm Sample.orphan_job)
  = (Ok (Worker.Finished 1),
     Loop.calm (Worker.sql_mark_done 1 Scenario.stamp
                  (Worker.sql_update_claim "w1" 1 Sample.orphan_job))).
Proof.
  refine (proj1 (@turn_for_vanished_user RefLib.lib "w1" Scenario.stamp (fun _ => "")
                   Sample.orphan_job 1 "a" _ _ _)).
  - apply (bool_decide_unpack _). vm_compute. exact I.
  - vm_compute. reflexivity.
  - reflexivity.
Defined.

Lemma turn_persists_score_witness :
  exists r db' a,
    @TrustScore.compute_trust_score RefLib.lib Scenario.stamp
      (Loop.fetched_dict "u1" (Scenario.plain_user Scenario.stamp_iso)) None = Ok r /\
    @Worker.worker_iteration RefLib.lib "w1" Scenario.stamp (fun _ => "")
      (Loop.calm (Sample.with_user (Scenario.plain_user Scenario.stamp_iso)))
    = (Ok (Worker.Finished 1), Loop.calm db') /\
    Worker.trust_scores db' !! "u1"
      = Some {| Worker.score := TrustScore.final_score r;
                Worker.updated_at := Scenario.stamp |} /\
    Worker.trust_score_audit db' = [a] /\
    Worker.audit_user a = "u1" /\
    Worker.new_score a = TrustScore.final_score r /\
    Worker.audit_id a = 1.
Proof.
  eexists.
  assert (@TrustScore.compute_trust_score RefLib.lib Scenario.stamp
            (Loop.fetched_dict "u1" (Scenario.plain_user Scenario.stamp_iso)) None
          = Ok _) as Hr by (vm_compute; reflexivity).
  destruct (@turn_persists_score RefLib.lib "w1" Scenario.stamp (fun _ => "")
              (Sample.with_user (Scenario.plain_user Scenario.stamp_iso))
              1 "u1" (Scenario.plain_user Scenario.stamp_iso) _
              ltac:(apply (bool_decide_unpack _); vm_compute; exact I)
              ltac:(vm_compute; reflexivity)
              ltac:(vm_compute; reflexivity)
              Hr
              ltac:(vm_compute; discriminate)
              ltac:(split; [reflexivity | constructor]))
    as (db' & a & Hrun & Hscore & _ & Haudit & Huser & Hnew & _ & _ & _ & _ & Hid & _).
  exists db', a. split; [exact Hr|]. split; [exact Hrun|]. split; [exact Hscore|].
  split; [exact Haudit|]. split; [exact Huser|]. split; [exact Hnew|].
  apply Hid; [discriminate|]. intros b Hb. inversion Hb.
Defined.

Lemma turn_fails_on_zero_score_witness :
  @Worker.worker_iteration RefLib.lib "w1" Scenario.stamp
    (fun _ => "final_score is None") (Loop.calm (Sample.with_user Sample.blank_user))
  = (Ok (Worker.Failed 1 RuntimeError),
     Loop.calm (Worker.sql_mark_failed 1 "final_score is None" Scenario.stamp
                  (Worker.sql_update_claim "w1" 1 (Sample.with_user Sample.blank_user)))).
Proof.
  refine (proj1 (@turn_fails_on_zero_score RefLib.lib "w1" Scenario.stamp
                   (fun _ => "final_score is None")
                   (Sample.with_user Sample.blank_user) 1 "u1" Sample.blank_user
                   _ _ _ _ _ _)).
  - apply (bool_decide_unpack _). vm_compute. exact I.
  - vm_compute. reflexivity.
  - vm_compute. reflexivity.
  - vm_compute. reflexivity.
  - vm_compute. reflexivity.
Defined.

Lemma turn_fails_on_engine_error_witness :
  @Worker.worker_iteration RefLib.lib "w1" Scenario.stamp
    (fun _ => "Unrecognized ISO datetime: not-a-date")
    (Loop.calm (Sample.with_user (Scenario.plain_user "not-a-date")))
  = (Ok (Worker.Failed 1 ValueError),
     Loop.calm (Worker.sql_mark_failed 1 "Unrecognized ISO datetime: not-a-date"
                  Scenario.stamp
                  (Worker.sql_update_claim "w1" 1
                     (Sample.with_user (Scenario.plain_user "not-a-date"))))).
Proof.
  refine (proj1 (@turn_fails_on_engine_error RefLib.lib "w1" Scenario.stamp
                   (fun _ => "Unrecognized ISO datetime: not-a-date")
                   (Sample.with_user (Scenario.plain_user "not-a-date")) 1 "u1"
                   (Scenario.plain_user "not-a-date") ValueError _ _ _ _)).
  - apply (bool_decide_unpack _). vm_compute. exact I.
  - vm_compute. reflexivity.
  - vm_compute. reflexivity.
  - vm_compute. reflexivity.
Defined.

Lemma turn_idle_without_jobs_witness :
  exists fs',
    @Worker.worker_iteration RefLib.lib "w1" Scenario.stamp (fun _ => "")
      {| Worker.disk := Sample.no_jobs; Worker.tx := None; Worker.faults := [true] |}
    = (Ok Worker.Idle,
       {| Worker.disk := Sample.no_jobs; Worker.tx := None; Worker.faults := fs' |}).
Proof.
  apply (@turn_idle_without_jobs RefLib.lib "w1" Scenario.stamp (fun _ => "")
           Sample.no_jobs [true]).
  reflexivity.
Defined.

Lemma worker_keeps_history_witness :
  Worker.tx (@Loop.run_worker RefLib.lib Sample.two_turns Sample.shaky) = None /\
  Loop.keeps_history (Worker.disk Sample.shaky)
    (Worker.disk (@Loop.run_worker RefLib.lib Sample.two_turns Sample.shaky)).
Proof.
  apply (@worker_keeps_history RefLib.lib Sample.two_turns Sample.shaky).
  reflexivity.
Defined.

Lemma no_return_to_pending_witness :
  exists r',
    Worker.jobs_of (@Loop.run_worker RefLib.lib Sample.two_turns Sample.claimed_then_done)
      !! 0%nat = Some r' /\
    Worker.id r' = 1 /\ Worker.is_pending r' = false.
Proof.
  destruct (@no_return_to_pending RefLib.lib Sample.two_turns Sample.claimed_then_done
              0%nat
              (Worker.done_row 20 (Worker.claim_row "w1" (Scenario.pending_job 1 "a" 10)))
              ltac:(vm_compute; reflexivity)
              ltac:(vm_compute; reflexivity)
              ltac:(reflexivity))
    as (r' & Hr' & Hid & Hnp).
  exists r'. split; [exact Hr'|]. split; [exact Hid | exact Hnp].
Defined.

Lemma mark_unknown_job_is_noop_witness :
  Worker.mark_job_done 7 20 (Loop.calm Sample.two_jobs) = (Ok tt, Loop.calm Sample.two_jobs) /\
  Worker.mark_job_failed 7 "boom" 20 (Loop.calm Sample.two_jobs)
    = (Ok tt, Loop.calm Sample.two_jobs).
Proof.
  apply (mark_unknown_job_is_noop 7 "boom" 20 Sample.two_jobs).
  apply (bool_decide_unpack _). vm_compute. exact I.
Defined.

Lemma score_read_back_witness :
  (exists db' a,
     Worker.upsert_trust_score_and_audit "u1" 50
       (TrustScore.breakdown (Scenario.scored 50)) 20 (Loop.calm Scenario.one_job_db)
     = (Ok tt, Loop.calm db') /\
     Store.get_trust_score "u1" (Loop.calm db')
     = (Ok (Some ("u1", 50%Q, 20)), Loop.calm db') /\
     (forall u, u <> "u1" ->
        (Store.get_trust_score u (Loop.calm db')).1
        = (Store.get_trust_score u (Loop.calm Scenario.one_job_db)).1) /\
     Worker.trust_score_audit db'
     = Worker.trust_score_audit Scenario.one_job_db ++ [a] /\
     Worker.audit_user a = "u1" /\ Worker.new_score a = 50%Q /\
     Worker.details a = TrustScore.breakdown (Scenario.scored 50) /\
     Worker.computed_at a = 20 /\
     Worker.audit_seq Scenario.one_job_db < Worker.audit_id a /\
     (forall b, b ∈ Worker.trust_score_audit Scenario.one_job_db ->
                Worker.audit_id b < Worker.audit_id a)) /\
  Worker.upsert_trust_score_and_audit "ghost" 50
    (TrustScore.breakdown (Scenario.scored 50)) 20 (Loop.calm Scenario.one_job_db)
  = (Raise IntegrityError, Loop.calm Scenario.one_job_db).
Proof.
  split.
  - apply (proj1 (score_read_back "u1" 50 (TrustScore.breakdown (Scenario.scored 50))
                    20 Scenario.one_job_db)).
    + vm_compute. eexists. reflexivity.
    + split; [reflexivity | constructor].
  - apply (proj2 (score_read_back "ghost" 50 (TrustScore.breakdown (Scenario.scored 50))
                    20 Scenario.one_job_db)); reflexivity.
Defined.

Lemma latest_job_order_free_witness :
  Store.sql_find_latest_job "a" Sample.two_jobs
  = Store.sql_find_latest_job "a" Sample.two_jobs_swapped.
Proof.
  refine (proj1 (latest_job_order_free "a" Sample.two_jobs Sample.two_jobs_swapped _ _)).
  - apply perm_swap.
  - apply (bool_decide_unpack _). vm_compute. exact I.
Defined.

Lemma stored_user_scoring_witness :
  returns (@TrustScore.compute_trust_score RefLib.lib 0
             (Loop.fetched_dict "u1" (Scenario.plain_user Scenario.stamp_iso)) None) <->
  Worker.u_last_active_at (Scenario.plain_user Scenario.stamp_iso) = None \/
  Worker.u_last_active_at (Scenario.plain_user Scenario.stamp_iso) = Some "" \/
  exists s t,
    Worker.u_last_active_at (Scenario.plain_user Scenario.stamp_iso) = Some s /\
    @TrustScore.parse_iso_datetime RefLib.lib (PStr s) = Ok (Some t).
Proof.
  apply (@stored_user_scoring RefLib.lib 0 "u1"
           (Scenario.plain_user Scenario.stamp_iso) None).
  repeat split; vm_compute; discriminate.
Defined.

Lemma map_input_to_row_needs_user_id_witness :
  @DbUpsert.map_input_to_row RefLib.lib (fun _ => "") Scenario.garbled = Raise KeyError.
Proof.
  apply (@map_input_to_row_needs_user_id RefLib.lib (fun _ => "") Scenario.garbled).
  reflexivity.
Defined.

Lemma map_input_to_row_columns_witness :
  @DbUpsert.map_input_to_row RefLib.lib (fun _ => "") Scenario.signup
    = Ok Sample.signup_row /\
  Sample.signup_row !! "bio_filled"
    = Some (PInt (if truthy (dict_get_none Scenario.signup "bio") then 1 else 0)) /\
  Sample.signup_row !! "selfie_verified"
    = Some (PInt (if truthy (dict_get_none Scenario.signup "selfie_verified")
                  then 1 else 0)).
Proof.
  assert (@DbUpsert.map_input_to_row RefLib.lib (fun _ => "") Scenario.signup
          = Ok Sample.signup_row) as Hrow by (vm_compute; reflexivity).
  split; [exact Hrow|].
  pose proof (@map_input_to_row_columns RefLib.lib (fun _ => "") Scenario.signup
                Sample.signup_row Hrow) as Hcols.
  split; [exact (proj1 (proj2 Hcols)) | exact (proj1 (proj2 (proj2 Hcols)))].
Defined.
